(** * plugin-arena: trend scoring, engagement budgets, dedup ledger, timers

    A shallow embedding of the decision-and-dedup core of the Arena plugin:
    - [Analytics]: [detectTrendingThreads] of [src/utils/analytics.ts];
    - [Arena]: the engagement pass of [ArenaService]
      ([exceededEngagementBudget], [hasAlreadyEngaged], [recordEngagement],
      [executeEngagementDecision], [runEngagementPass]);
    - [Mentions], [MentionScan]: the reply bookkeeping and the scan of
      [ArenaMentionMonitorService];
    - [Timers]: the timer discipline of the periodic tasks;
    - [Discovery]: the snapshot history of [runDiscoveryScan];
    - [FeedInsights], [PostingTimes], [Performance]: the insights of
      [compareFeedPerformance], [analyzeOptimalPostingTimes] and
      [trackContentPerformance];
    - [Scheduling]: [minutesToMs] and [jitteredIntervalMinutes].

    JavaScript numbers are IEEE-754 binary64 values and are embedded as
    primitive floats, so every arithmetic step rounds as it does in the
    program.  Millisecond clock readings and counters that only feed
    integer comparisons ([Date.now()] and the hourly counts in the
    engagement service) are embedded as [Z], the configured ceilings,
    which may be any finite number, as the rationals they denote. *)

From Stdlib Require Import Floats ZArith QArith Bool Ascii String.
From stdpp Require Import gmap strings list.

Set Default Proof Using "Type".
Set Warnings "-inexact-float".
Local Open Scope Z_scope.

(** ** JavaScript number helpers *)

Module Js.

(** [Math.max(a, b)]: NaN if either argument is NaN, the larger one
    otherwise, with [+0] preferred over [-0]. *)
Definition Math_max (a b : float) : float :=
  if (PrimFloat.is_nan a || PrimFloat.is_nan b)%bool then nan
  else if (a <? b)%float then b
  else if (b <? a)%float then a
  else if (a =? 0)%float then (a + b)%float
  else a.

(** Truthiness of a number: [0], [-0] and [NaN] are falsy. *)
Definition truthy (x : float) : bool :=
  negb (PrimFloat.is_nan x || (x =? 0)%float).

(** [x || d] for an optional number [x]. *)
Definition or_default (x : option float) (d : float) : float :=
  match x with
  | Some v => if truthy v then v else d
  | None => d
  end.

(** [x ?? d] for an optional number [x]. *)
Definition nullish (x : option float) (d : float) : float :=
  match x with
  | Some v => v
  | None => d
  end.

(** [Array.prototype.sort(cmp)] is a stable sort: [a] is moved behind
    [b] only when [cmp a b > 0]; a zero or NaN comparison leaves the
    two in their input order.  For a comparator that is consistent on
    the items (for [b.score - a.score]: no score is NaN) the language
    fixes the result, whatever algorithm the engine runs, and stable
    insertion from the right computes it.  For an inconsistent
    comparator the order is left to the engine; statements about the
    order of a sorted list therefore assume that no sort key is NaN. *)
Section Sort.
Context {A : Type} (cmp : A -> A -> float).

Fixpoint sort_insert (x : A) (l : list A) : list A :=
  match l with
  | [] => [x]
  | y :: l' =>
      if (0 <? cmp x y)%float then y :: sort_insert x l'
      else x :: y :: l'
  end.

Definition sort (l : list A) : list A := foldr sort_insert [] l.
End Sort.


(** A count within the safe integer range: [0 <= c <= 2^53]. *)
Definition safeCount (c : float) : bool :=
  ((0 <=? c) && (c <=? 9007199254740992))%float.

(** [String.prototype.toLowerCase] is a primitive of the host, which
    lowers every cased letter of Unicode.  The model of the service
    takes it as given: what is proved of the service holds for every
    lowering function, the host's included. *)
Class LowerCase := toLowerCase : string -> string.

(** On a string of ASCII characters the host's lowering is this
    function: the letters [A] to [Z] are lowered, the other
    characters kept.  The scenarios, whose handles are ASCII, run
    with it. *)
Definition lowerAscii (c : ascii) : ascii :=
  let n := nat_of_ascii c in
  if ((65 <=? n)%nat && (n <=? 90)%nat)%bool then ascii_of_nat (n + 32)
  else c.

Fixpoint asciiLowerCase (s : string) : string :=
  match s with
  | EmptyString => EmptyString
  | String c s' => String (lowerAscii c) (asciiLowerCase s')
  end.

End Js.

(** ** Magnitudes of binary64 values

    Predicates on the specification form of a float ([Prim2SF]), by
    which the scorer's arithmetic is bounded. *)

Module Ieee.

(** [x] is a zero or a positive finite number below [2^K]. *)
Definition below (K : Z) (x : spec_float) : Prop :=
  match x with
  | S754_zero _ => True
  | S754_finite false m e => Zdigits2 (Zpos m) + e <= K
  | _ => False
  end.

(** [y] is positive, at least [2^(L-1)], possibly infinite. *)
Definition atLeast (L : Z) (y : spec_float) : Prop :=
  match y with
  | S754_infinity false => True
  | S754_finite false m e => L <= Zdigits2 (Zpos m) + e
  | _ => False
  end.

(** [x] is a number whose sign bit is [s]. *)
Definition signed (s : bool) (x : spec_float) : Prop :=
  match x with
  | S754_zero s' | S754_infinity s' | S754_finite s' _ _ => s' = s
  | S754_nan => False
  end.


End Ieee.

(** ** The order of binary64 values

    [SFcompare] orders valid numbers by sign, then exponent, then
    mantissa.  [key] places every number on the integer line in that
    order, so that comparisons of floats become comparisons of
    integers: zeros at 0, a finite number with mantissa [m] and
    exponent [e] at [(e + 1075) * 2^53 + m] from zero on its side,
    the infinities beyond all finite numbers. *)

Module IeeeOrder.

Definition magnitude (m : positive) (e : Z) : Z :=
  (e + 1075) * 2 ^ 53 + Zpos m.

Definition key (x : spec_float) : Z :=
  match x with
  | S754_zero _ => 0
  | S754_finite s m e => if s then - magnitude m e else magnitude m e
  | S754_infinity s => if s then - (4096 * 2 ^ 53) else 4096 * 2 ^ 53
  | S754_nan => 0
  end.

Definition keyOf (x : float) : Z := key (Prim2SF x).

End IeeeOrder.

(** ** Trending detection ([src/utils/analytics.ts]) *)

Module Analytics.

(** The fields of [ArenaThread] that the scorer reads.  [createdDate]
    holds the epoch milliseconds [new Date(t.createdDate).getTime()]
    yields (NaN for an unparsable date). *)
Record ArenaThread := {
  id : string;
  createdDate : float;
  likeCount : float;
  repostCount : float;
  answerCount : float;
  bookmarkCount : option float
}.

Record TrendingOptions := {
  timeWindow : option float;
  minEngagement : option float;
  weightLikes : option float;
  weightReposts : option float;
  weightReplies : option float;
  weightBookmarks : option float
}.

Record Metrics := {
  totalEngagement : float;
  engagementPerHour : float;
  ageHours : float
}.

Record TrendingThread := {
  thread : ArenaThread;
  score : float;
  velocityScore : float;
  rank : nat;
  metrics : Metrics
}.

(** [options?.field] *)
Definition opt {B} (options : option TrendingOptions)
    (f : TrendingOptions -> option B) : option B :=
  match options with
  | Some o => f o
  | None => None
  end.

Definition hourMs : float := (60 * 60 * 1000)%float.

Section Detect.
Variable now : float.
Variable options : option TrendingOptions.

Definition timeWindowMs : float :=
  (Js.or_default (opt options timeWindow) 24 * 60 * 60 * 1000)%float.
Definition wLikes : float := Js.nullish (opt options weightLikes) 1.
Definition wReposts : float := Js.nullish (opt options weightReposts) 2.
Definition wReplies : float := Js.nullish (opt options weightReplies) 1.5.
Definition wBookmarks : float := Js.nullish (opt options weightBookmarks) 1.
Definition minEng : float := Js.nullish (opt options minEngagement) 3.

(** first [.filter]: [age <= timeWindow] *)
Definition inWindow (t : ArenaThread) : bool :=
  (now - createdDate t <=? timeWindowMs)%float.

(** the [.map] that scores one thread *)
Definition scoreThread (t : ArenaThread) : TrendingThread :=
  let age := ((now - createdDate t) / hourMs)%float in
  let ageHours := Js.Math_max age 0x1.999999999999ap-4 (* 0.1 *) in
  let totalEngagement :=
    (likeCount t * wLikes + repostCount t * wReposts
     + answerCount t * wReplies
     + Js.or_default (bookmarkCount t) 0 * wBookmarks)%float in
  let engagementPerHour := (totalEngagement / ageHours)%float in
  let velocityScore := engagementPerHour in
  let score := (velocityScore * PrimFloat.sqrt totalEngagement)%float in
  {| thread := t;
     score := score;
     velocityScore := velocityScore;
     rank := 0;
     metrics := {| totalEngagement := totalEngagement;
                   engagementPerHour := engagementPerHour;
                   ageHours := ageHours |} |}.

(** second [.filter]: raw engagement at least [minEngagement] *)
Definition rawEngagement (t : ArenaThread) : float :=
  (likeCount t + repostCount t + answerCount t
   + Js.or_default (bookmarkCount t) 0)%float.

Definition enoughEngagement (s : TrendingThread) : bool :=
  (minEng <=? rawEngagement (thread s))%float.

(** comparator of the [.sort]: [(a, b) => b.score - a.score] *)
Definition byScoreDesc (a b : TrendingThread) : float :=
  (score b - score a)%float.

Definition setRank (index : nat) (s : TrendingThread) : TrendingThread :=
  {| thread := thread s; score := score s;
     velocityScore := velocityScore s;
     rank := index + 1;
     metrics := metrics s |}.

Definition detectTrendingThreads (threads : list ArenaThread)
    : list TrendingThread :=
  imap setRank
    (Js.sort byScoreDesc
       (filter (fun s => enoughEngagement s = true)
          (map scoreThread
             (filter (fun t => inWindow t = true) threads)))).
End Detect.

End Analytics.

(** ** Engagement service ([ArenaService]) *)

Module Arena.

(** *** Data *)

(** One entry of [engagementCounters]. *)
Record Counter := { count : Z; resetAt : Z }.

(** [keyof typeof counters] *)
Inductive CounterKey := likes | reposts | replies | follows.

#[export] Instance CounterKey_eq_dec : EqDecision CounterKey.
Proof. solve_decision. Defined.

Record EngagementCounters := {
  c_likes : Counter;
  c_reposts : Counter;
  c_replies : Counter;
  c_follows : Counter
}.

(** [counters[key]] *)
Definition getCounter (cs : EngagementCounters) (key : CounterKey) : Counter :=
  match key with
  | likes => c_likes cs
  | reposts => c_reposts cs
  | replies => c_replies cs
  | follows => c_follows cs
  end.

(** [counters[key] = c] *)
Definition setCounter (cs : EngagementCounters) (key : CounterKey)
    (c : Counter) : EngagementCounters :=
  match key with
  | likes => {| c_likes := c; c_reposts := c_reposts cs;
                c_replies := c_replies cs; c_follows := c_follows cs |}
  | reposts => {| c_likes := c_likes cs; c_reposts := c;
                  c_replies := c_replies cs; c_follows := c_follows cs |}
  | replies => {| c_likes := c_likes cs; c_reposts := c_reposts cs;
                  c_replies := c; c_follows := c_follows cs |}
  | follows => {| c_likes := c_likes cs; c_reposts := c_reposts cs;
                  c_replies := c_replies cs; c_follows := c |}
  end.

(** Value type of the [engagedThreads] map. *)
Record Engagement := {
  action : string;
  timestamp : Z;
  author : string
}.

(** The hourly ceilings of [ArenaConfig].  [loadArenaConfig] reads
    them with [toNumber], which keeps every finite number, whole or
    not, negative or not, and nothing else (the defaults of
    [constants.ts] are 10, 4, 3 and 2).  A finite binary64 number is
    a rational, and it is embedded as that rational. *)
Record ArenaConfig := {
  enableEngagement : bool;
  maxLikesPerHour : Q;
  maxRepostsPerHour : Q;
  maxRepliesPerHour : Q;
  maxFollowsPerHour : Q
}.

Definition ceiling (cfg : ArenaConfig) (key : CounterKey) : Q :=
  match key with
  | likes => maxLikesPerHour cfg
  | reposts => maxRepostsPerHour cfg
  | replies => maxRepliesPerHour cfg
  | follows => maxFollowsPerHour cfg
  end.

(** [count >= max]: the counters hold whole numbers, so the comparison
    with the ceiling is exact. *)
Definition atCeiling (count : Z) (max : Q) : bool :=
  Qle_bool max (inject_Z count).

(** An element of [DiscoverySnapshot.topThreads]; the numeric fields
    only feed the oracle prompt and the log text. *)
Record Candidate := {
  cand_id : string;
  cand_author : string;
  cand_preview : string
}.

Record DiscoverySnapshot := {
  feedKey : string;
  topThreads : list Candidate
}.

(** What [evaluateEngagementCandidate] returns when it does not
    return [null]. *)
Record Decision := {
  dec_action : string;
  rationale : string;
  replyDraft : option string
}.

(** Calls on the platform client. *)
Inductive ClientCall :=
| likeThread (threadId : string)
| repostThread (threadId : string)
| replyToThread (threadId content : string)
| followUserByHandle (handle : string)
| quoteThread (threadId content : string).

Inductive SkipReason := BudgetExhausted | AlreadyEngaged | NoDraft.

(** What the service does towards the outside, in order. *)
Inductive Event :=
| EvBudgetsExhausted
| EvEvaluate (threadId : string)
| EvSkip (why : SkipReason) (act : string) (threadId : string)
| EvClient (call : ClientCall) (ok : bool)
| EvLogEngagement (act : string) (threadId : string).

Record State := {
  engagementCounters : EngagementCounters;
  engagedThreads : gmap string Engagement;
  lastDiscoverySnapshots : list DiscoverySnapshot;
  engagementRoomReady : bool;
  trace : list Event
}.

(** What the outside world does during one iteration of the candidate
    loop: the three clock readings ([Date.now()] in
    [exceededEngagementBudget], [hasAlreadyEngaged] and
    [recordEngagement]), the oracle's answer ([None] for [null]) and
    whether the platform call resolves or throws. *)
Record Turn := {
  nowBudget : Z;
  nowDedup : Z;
  nowRecord : Z;
  decision : option Decision;
  clientOk : bool
}.

(** *** Computations: mutable state and exceptions

    A thrown exception keeps the mutations made before it. *)

Inductive Outcome (A : Type) :=
| Returned (a : A)
| Thrown.
Arguments Returned {A} a.
Arguments Thrown {A}.

Definition M (A : Type) : Type := State -> Outcome A * State.

#[export] Instance M_ret : MRet M := fun A a s => (Returned a, s).
#[export] Instance M_bind : MBind M := fun A B k m s =>
  match m s with
  | (Returned a, s') => k a s'
  | (Thrown, s') => (Thrown, s')
  end.

Definition throw {A} : M A := fun s => (Thrown, s).
Definition get : M State := fun s => (Returned s, s).

(** [try { m } catch { }] *)
Definition catch (m : M unit) : M unit := fun s =>
  match m s with
  | (Returned _, s') => (Returned tt, s')
  | (Thrown, s') => (Returned tt, s')
  end.

Definition modify (f : State -> State) : M unit :=
  fun s => (Returned tt, f s).

(** Field updates of [this]. *)
Definition withCounters (cs : EngagementCounters) (s : State) : State :=
  {| engagementCounters := cs;
     engagedThreads := engagedThreads s;
     lastDiscoverySnapshots := lastDiscoverySnapshots s;
     engagementRoomReady := engagementRoomReady s;
     trace := trace s |}.

Definition withEngaged (m : gmap string Engagement) (s : State) : State :=
  {| engagementCounters := engagementCounters s;
     engagedThreads := m;
     lastDiscoverySnapshots := lastDiscoverySnapshots s;
     engagementRoomReady := engagementRoomReady s;
     trace := trace s |}.

Definition withRoomReady (b : bool) (s : State) : State :=
  {| engagementCounters := engagementCounters s;
     engagedThreads := engagedThreads s;
     lastDiscoverySnapshots := lastDiscoverySnapshots s;
     engagementRoomReady := b;
     trace := trace s |}.

Definition withEvent (e : Event) (s : State) : State :=
  {| engagementCounters := engagementCounters s;
     engagedThreads := engagedThreads s;
     lastDiscoverySnapshots := lastDiscoverySnapshots s;
     engagementRoomReady := engagementRoomReady s;
     trace := trace s ++ [e] |}.

Definition setCounters (cs : EngagementCounters) : M unit :=
  modify (withCounters cs).
Definition setEngaged (m : gmap string Engagement) : M unit :=
  modify (withEngaged m).
Definition setRoomReady (b : bool) : M unit :=
  modify (withRoomReady b).
Definition emit (e : Event) : M unit :=
  modify (withEvent e).

(** [await this.client.<call>]: resolves or throws, as the world
    decides. *)
Definition client (call : ClientCall) (ok : bool) : M unit :=
  emit (EvClient call ok);;
  if ok then mret tt else throw.

(** *** Budget window *)

Definition hourMs : Z := 60 * 60 * 1000.
Definition maxAge : Z := 48 * 60 * 60 * 1000.

(** [resetIfNeeded(key)] of [exceededEngagementBudget] *)
Definition resetIfNeeded (now : Z) (key : CounterKey)
    (counters : EngagementCounters) : EngagementCounters :=
  if resetAt (getCounter counters key) <? now
  then setCounter counters key {| count := 0; resetAt := now + hourMs |}
  else counters.

Definition exceededEngagementBudget (now : Z) (cfg : ArenaConfig) : M bool :=
  s ← get;
  let counters :=
    resetIfNeeded now follows
      (resetIfNeeded now replies
         (resetIfNeeded now reposts
            (resetIfNeeded now likes (engagementCounters s)))) in
  setCounters counters;;
  mret (atCeiling (count (c_likes counters)) (maxLikesPerHour cfg)
        && atCeiling (count (c_reposts counters)) (maxRepostsPerHour cfg)
        && atCeiling (count (c_replies counters)) (maxRepliesPerHour cfg)
        && atCeiling (count (c_follows counters)) (maxFollowsPerHour cfg))%bool.

(** *** Dedup ledger *)

(** [`${threadId}:${action}`] *)
Definition engagementKey (threadId act : string) : string :=
  threadId +:+ ":" +:+ act.

Definition hasAlreadyEngaged (now : Z) (threadId act : string) : M bool :=
  s ← get;
  let key := engagementKey threadId act in
  match engagedThreads s !! key with
  | None => mret false
  | Some engagement =>
      if maxAge <? now - timestamp engagement
      then setEngaged (delete key (engagedThreads s));; mret false
      else mret true
  end.

(** [recordEngagement]; the function reads the clock twice within one
    synchronous step, both readings are [now]. *)
Definition recordEngagement (now : Z) (threadId act auth : string) : M unit :=
  s ← get;
  let key := engagementKey threadId act in
  let m := <[key := {| action := act; timestamp := now; author := auth |}]>
             (engagedThreads s) in
  if (1000 <? size m)%nat
  then setEngaged (filter (fun kv => ¬ (maxAge < now - timestamp kv.2)) m)
  else setEngaged m.

(** [logEngagement] swallows its own failures. *)
Definition logEngagement (act : string) (c : Candidate) : M unit :=
  emit (EvLogEngagement act (cand_id c)).

(** *** Executing a decision *)

Definition incrementCount (key : CounterKey) : M unit :=
  s ← get;
  let counters := engagementCounters s in
  let c := getCounter counters key in
  setCounters (setCounter counters key
                 {| count := count c + 1; resetAt := resetAt c |}).

(** [!decision.replyDraft] *)
Definition noDraft (d : Decision) : bool :=
  match replyDraft d with
  | None => true
  | Some text => if decide (text = "") then true else false
  end.

Definition draftText (d : Decision) : string :=
  default "" (replyDraft d).

(** The five acting cases of the [switch] have one shape: budget
    check on [key], dedup check on [(dedupId, act)], for reply and
    quote the draft check, then the platform call, and only after
    it resolved the increment, the ledger record and the memory log.
    Each early [return] leaves without touching counter or ledger. *)
Definition attempt (t : Turn) (cfg : ArenaConfig) (c : Candidate)
    (key : CounterKey) (dedupId act : string) (needsDraft : bool)
    (d : Decision) (call : ClientCall) : M unit :=
  s ← get;
  if atCeiling (count (getCounter (engagementCounters s) key))
       (ceiling cfg key)
  then emit (EvSkip BudgetExhausted act (cand_id c))
  else
    engaged ← hasAlreadyEngaged (nowDedup t) dedupId act;
    if engaged : bool
    then emit (EvSkip AlreadyEngaged act (cand_id c))
    else if (needsDraft && noDraft d)%bool
    then emit (EvSkip NoDraft act (cand_id c))
    else
      client call (clientOk t);;
      incrementCount key;;
      recordEngagement (nowRecord t) dedupId act (cand_author c);;
      logEngagement act c.

Section Host.
Context `{host : Js.LowerCase}.

Definition executeEngagementDecision (t : Turn) (cfg : ArenaConfig)
    (c : Candidate) (d : Decision) : M unit :=
  let act := dec_action d in
  if decide (act = "like") then
    attempt t cfg c likes (cand_id c) "like" false d
      (likeThread (cand_id c))
  else if decide (act = "repost") then
    attempt t cfg c reposts (cand_id c) "repost" false d
      (repostThread (cand_id c))
  else if decide (act = "reply") then
    attempt t cfg c replies (cand_id c) "reply" true d
      (replyToThread (cand_id c) (draftText d))
  else if decide (act = "follow") then
    attempt t cfg c follows
      ("user:" +:+ Js.toLowerCase (cand_author c)) "follow" false d
      (followUserByHandle (cand_author c))
  else if decide (act = "quote") then
    attempt t cfg c reposts (cand_id c) "quote" true d
      (quoteThread (cand_id c) (draftText d))
  else
    logEngagement "skip" c.

(** The counter a platform call is charged to; a quote draws on the
    repost budget. *)
Definition budgetOf (call : ClientCall) : CounterKey :=
  match call with
  | likeThread _ => likes
  | repostThread _ => reposts
  | replyToThread _ _ => replies
  | followUserByHandle _ => follows
  | quoteThread _ _ => reposts
  end.

(** The counter an acting decision is gated on. *)
Definition budgetKey (act : string) : option CounterKey :=
  if decide (act = "like") then Some likes
  else if decide (act = "repost") then Some reposts
  else if decide (act = "reply") then Some replies
  else if decide (act = "follow") then Some follows
  else if decide (act = "quote") then Some reposts
  else None.



(** *** The engagement pass *)

(** [ensureEngagementRoom]: runtime calls that may throw. *)
Definition ensureEngagementRoom (roomOk : bool) : M unit :=
  s ← get;
  if engagementRoomReady s then mret tt
  else if roomOk then setRoomReady true
  else throw.

(** The [for (const candidate of candidates)] loop; [world i] is the
    outside world during iteration [i]. *)
Fixpoint passLoop (cfg : ArenaConfig) (world : nat -> Turn) (i : nat)
    (candidates : list Candidate) : M unit :=
  match candidates with
  | [] => mret tt
  | c :: rest =>
      let t := world i in
      exceeded ← exceededEngagementBudget (nowBudget t) cfg;
      if exceeded : bool then emit EvBudgetsExhausted
      else
        emit (EvEvaluate (cand_id c));;
        match decision t with
        | None => passLoop cfg world (S i) rest
        | Some d =>
            if decide (dec_action d = "none")
            then passLoop cfg world (S i) rest
            else
              executeEngagementDecision t cfg c d;;
              passLoop cfg world (S i) rest
        end
  end.

Definition runEngagementPass (cfg : ArenaConfig) (roomOk : bool)
    (world : nat -> Turn) : M unit :=
  s ← get;
  if negb (enableEngagement cfg) then mret tt
  else
    match List.find (fun sn => negb (length (topThreads sn) =? 0)%nat)
            (lastDiscoverySnapshots s) with
    | None => mret tt
    | Some snapshot =>
        ensureEngagementRoom roomOk;;
        passLoop cfg world 0 (take 5 (topThreads snapshot))
    end.

(** The body of the timer callback in [scheduleNextEngagement]:
    [try { await this.runEngagementPass() } catch { log }]. *)
Definition engagementTick (cfg : ArenaConfig) (roomOk : bool)
    (world : nat -> Turn) : M unit :=
  catch (runEngagementPass cfg roomOk world).

(** *** Sequences of engagement steps

    Within a pass and across passes the service alternates budget
    checks and decision executions.  An exception ends a pass, not
    the service (the timer callback catches it), so the state carries
    over to the next step. *)
Inductive Op :=
| OpCheck (now : Z)
| OpExecute (t : Turn) (c : Candidate) (d : Decision).

Definition runOp (cfg : ArenaConfig) (s : State) (o : Op) : State :=
  match o with
  | OpCheck now => (exceededEngagementBudget now cfg s).2
  | OpExecute t c d => (executeEngagementDecision t cfg c d s).2
  end.

Definition runOps (cfg : ArenaConfig) (ops : list Op) (s : State) : State :=
  foldl (runOp cfg) s ops.

(** Platform calls charged to [key] that resolved. *)
Definition chargedTo (key : CounterKey) (e : Event) : bool :=
  match e with
  | EvClient call true => bool_decide (budgetOf call = key)
  | _ => false
  end.

Definition successes (key : CounterKey) (tr : list Event) : nat :=
  length (filter (fun e => chargedTo key e = true) tr).

(** *** How one execution relates the state before and after *)

(** What a decision is deduplicated by: the thread for like, repost,
    reply and quote, the lower-cased author for follow. *)
Definition dedupId (c : Candidate) (act : string) : string :=
  if decide (act = "follow")
  then "user:" +:+ Js.toLowerCase (cand_author c)
  else cand_id c.

Definition dedupKey (c : Candidate) (act : string) : string :=
  engagementKey (dedupId c act) act.

(** What the dedup check may do to the ledger: [m'] is [m], or [m]
    without the record under [key], which had expired at clock
    [now]. *)
Definition evicted (now : Z) (key : string)
    (m m' : gmap string Engagement) : Prop :=
  m' = m
  \/ exists e, m !! key = Some e /\ maxAge < now - timestamp e
               /\ m' = delete key m.

(** The ledger as [hasAlreadyEngaged] answers from it at clock [now]:
    a record older than 48 hours counts as absent. *)
Definition live (now : Z) (m : gmap string Engagement)
    : gmap string Engagement :=
  filter (fun kv => ¬ (maxAge < now - timestamp kv.2)) m.

(** The platform call [call] resolved: its counter was below the
    ceiling and is now one higher, the ledger is what
    [recordEngagement] makes of the ledger before, with the record
    under the decision's key, and the trace shows the call followed
    by the memory log. *)
Definition charged (t : Turn) (cfg : ArenaConfig) (c : Candidate)
    (act : string) (call : ClientCall) (s s' : State) : Prop :=
  let cs := engagementCounters s in
  let key := budgetOf call in
  clientOk t = true
  /\ budgetKey act = Some key
  /\ (inject_Z (count (getCounter cs key)) < ceiling cfg key)%Q
  /\ engagementCounters s'
     = setCounter cs key {| count := count (getCounter cs key) + 1;
                            resetAt := resetAt (getCounter cs key) |}
  /\ trace s' = trace s ++ [EvClient call true;
                            EvLogEngagement act (cand_id c)]
  /\ engagedThreads s'
     = engagedThreads
         (recordEngagement (nowRecord t) (dedupId c act) act
            (cand_author c) s).2
  /\ engagedThreads s' !! dedupKey c act
     = Some {| action := act; timestamp := nowRecord t;
               author := cand_author c |}.

(** No platform call resolved: the counters are as before, the ledger
    is as before except that the dedup check may have dropped the
    expired record under [key], and the one event added is a skip, a
    log line or the failed call. *)
Definition untouched (t : Turn) (key : string) (s s' : State) : Prop :=
  engagementCounters s' = engagementCounters s
  /\ evicted (nowDedup t) key (engagedThreads s) (engagedThreads s')
  /\ exists ev, trace s' = trace s ++ [ev]
                /\ forall key, chargedTo key ev = false.

End Host.

Definition initialCounters : EngagementCounters :=
  let zero := {| count := 0; resetAt := 0 |} in
  {| c_likes := zero; c_reposts := zero;
     c_replies := zero; c_follows := zero |}.

Definition initialState (snapshots : list DiscoverySnapshot) : State :=
  {| engagementCounters := initialCounters;
     engagedThreads := ∅;
     lastDiscoverySnapshots := snapshots;
     engagementRoomReady := false;
     trace := [] |}.

End Arena.

(** ** Mention monitor ([ArenaMentionMonitorService]) *)

Module Mentions.

(** The service's two in-memory caches and, for observation, the
    threads it has posted a reply to, in order. *)
Record State := {
  processedMentions : gset string;
  repliedThreads : gset string;
  posted : list string
}.

(** A notification, with the thread identifier the three link
    patterns of [processMentions] extract from it ([None] when none
    matches). *)
Record Mention := {
  notif_id : string;
  threadIdOf : option string
}.

(** The outside world while one mention is processed: whether
    [getThread] resolves, what [processAgentMention] returns and
    whether [replyToThread] resolves. *)
Record Turn := {
  threadOk : bool;
  replyText : option string;
  replyOk : bool
}.

Definition hasRepliedToThread (s : State) (threadId : string) : bool :=
  bool_decide (threadId ∈ repliedThreads s).

Definition hasProcessedMention (s : State) (notificationId : string) : bool :=
  bool_decide (notificationId ∈ processedMentions s).

(** [markAsReplied]: the cache update; the memory write-back is
    best effort and swallows its failures. *)
Definition markAsReplied (threadId : string) (s : State) : State :=
  {| processedMentions := processedMentions s;
     repliedThreads := {[ threadId ]} ∪ repliedThreads s;
     posted := posted s |}.

Definition addProcessed (notificationId : string) (s : State) : State :=
  {| processedMentions := {[ notificationId ]} ∪ processedMentions s;
     repliedThreads := repliedThreads s;
     posted := posted s |}.

Definition post (threadId : string) (s : State) : State :=
  {| processedMentions := processedMentions s;
     repliedThreads := repliedThreads s;
     posted := posted s ++ [threadId] |}.

(** [!replyText] *)
Definition noText (r : option string) : bool :=
  match r with
  | None => true
  | Some text => if decide (text = "") then true else false
  end.

(** One iteration of the loop of [processMentions] when no other
    task of the process runs while it awaits [getThread],
    [processAgentMention], [replyToThread] and [markAsReplied]; the
    body sits in a [try]/[catch], so a throwing [replyToThread] only
    ends this iteration.  [processMentionAwaiting] below is the same
    iteration with other tasks running during the awaits. *)
Definition processMention (t : Turn) (m : Mention) (s : State) : State :=
  match threadIdOf m with
  | None => s
  | Some threadId =>
      if hasRepliedToThread s threadId then s
      else if negb (threadOk t) then addProcessed (notif_id m) s
      else if noText (replyText t) then s
      else if replyOk t then markAsReplied threadId (post threadId s)
      else s
  end.

Fixpoint processMentions (world : nat -> Turn) (i : nat)
    (mentions : list Mention) (s : State) : State :=
  match mentions with
  | [] => s
  | m :: rest =>
      processMentions world (S i) rest (processMention (world i) m s)
  end.

Definition initialState : State :=
  {| processedMentions := ∅; repliedThreads := ∅; posted := [] |}.

(** *** Other tasks during the awaits

    The iteration gives up control four times.  Scans are started by
    [setInterval] and by [forceScan] whether or not the previous one
    has finished, and the reply and quote actions call
    [markAsReplied] too, so other tasks may change the caches at each
    of these points: after the [hasRepliedToThread] check while
    [getThread] is awaited, while the reply text is generated, while
    [replyToThread] is awaited, and, after [repliedThreads.add] has
    run, while [markAsReplied] writes the memory. *)
Record Others := {
  duringGetThread : State -> State;
  duringGenerate : State -> State;
  duringReply : State -> State;
  duringMark : State -> State
}.

(** No other task runs. *)
Definition quiet : Others :=
  {| duringGetThread := fun s => s; duringGenerate := fun s => s;
     duringReply := fun s => s; duringMark := fun s => s |}.

(** The iteration with its awaits; [own] lists the threads this call
    of [processMentions] has posted a reply to. *)
Definition processMentionAwaiting (t : Turn) (o : Others) (m : Mention)
    (r : State * list string) : State * list string :=
  let '(s, own) := r in
  match threadIdOf m with
  | None => (s, own)
  | Some threadId =>
      if hasRepliedToThread s threadId then (s, own)
      else
        let s1 := duringGetThread o s in
        if negb (threadOk t) then (addProcessed (notif_id m) s1, own)
        else
          let s2 := duringGenerate o s1 in
          if noText (replyText t) then (s2, own)
          else
            let s3 := duringReply o s2 in
            if replyOk t
            then (duringMark o (markAsReplied threadId (post threadId s3)),
                  own ++ [threadId])
            else (s3, own)
  end.

Fixpoint processMentionsAwaiting (world : nat -> Turn)
    (others : nat -> Others) (i : nat) (mentions : list Mention)
    (r : State * list string) : State * list string :=
  match mentions with
  | [] => r
  | m :: rest =>
      processMentionsAwaiting world others (S i) rest
        (processMentionAwaiting (world i) (others i) m r)
  end.

(** Nothing in the repository removes a thread from
    [repliedThreads]: whatever another task does, the set grows. *)
Definition keepsReplied (e : State -> State) : Prop :=
  forall s, repliedThreads s ⊆ repliedThreads (e s).

Definition keepReplied (o : Others) : Prop :=
  keepsReplied (duringGetThread o) /\ keepsReplied (duringGenerate o)
  /\ keepsReplied (duringReply o) /\ keepsReplied (duringMark o).

End Mentions.

(** ** A mention scan after its filters ([scanMentions]) *)

Module MentionScan.
Import Mentions.

(** [storeMention]: the cache update; writing the memory is best
    effort and swallows its failures. *)
Definition storeMention (n : Mention) (s : State) : State :=
  addProcessed (notif_id n) s.

(** [scanMentions] from the point where the mention and reply
    notifications have been collected into [allRelevantNotifications]:
    the ones not yet in [processedMentions] are stored, then handed
    to [processMentions]. *)
Definition handleRelevant (world : nat -> Turn)
    (allRelevantNotifications : list Mention) (s : State) : State :=
  let newMentions :=
    filter (fun n => hasProcessedMention s (notif_id n) = false)
      allRelevantNotifications in
  if (0 <? length newMentions)%nat
  then processMentions world 0 newMentions
         (foldl (fun s n => storeMention n s) s newMentions)
  else s.

End MentionScan.

(** ** Both services in one process *)

Module Process.

(** [ArenaService] and [ArenaMentionMonitorService] are two objects,
    each owning its own fields. *)
Record State := {
  service : Arena.State;
  monitor : Mentions.State
}.

(** A mention scan leaves the engagement service alone. *)
Definition mentionScan (world : nat -> Mentions.Turn)
    (mentions : list Mentions.Mention) (p : State) : State :=
  {| service := service p;
     monitor := Mentions.processMentions world 0 mentions (monitor p) |}.

(** An engagement tick leaves the mention monitor alone. *)
Definition engagementTick `{host : Js.LowerCase}
    (cfg : Arena.ArenaConfig) (roomOk : bool)
    (world : nat -> Arena.Turn) (p : State) : State :=
  {| service := (Arena.engagementTick cfg roomOk world (service p)).2;
     monitor := monitor p |}.

End Process.

(** ** Timers of the periodic tasks *)

Module Timers.

(** *** Self-rescheduling tasks of [ArenaService]

    [scheduleNextPost], [scheduleNextDiscovery] and
    [scheduleNextEngagement] arm one [setTimeout]; its callback awaits
    the task body and calls the scheduling function again in
    [finally].  [armed] counts pending timeouts of the task,
    [inFlight] the bodies that started and have not settled. *)
Record Task := {
  stopping : bool;
  armed : nat;
  inFlight : nat
}.

Inductive Label :=
| Fire      (* a pending timeout elapses, the body starts *)
| Settle    (* the awaited body resolves or rejects *)
| Stop.     (* [stop()] *)

Definition scheduleNext (t : Task) : Task :=
  if stopping t then t
  else {| stopping := false; armed := S (armed t); inFlight := inFlight t |}.

Definition step (l : Label) (t : Task) : option Task :=
  match l with
  | Fire =>
      match armed t with
      | O => None
      | S n => Some {| stopping := stopping t; armed := n;
                       inFlight := S (inFlight t) |}
      end
  | Settle =>
      match inFlight t with
      | O => None
      | S n => Some (scheduleNext {| stopping := stopping t;
                                     armed := armed t; inFlight := n |})
      end
  | Stop =>
      Some {| stopping := true; armed := pred (armed t);
              inFlight := inFlight t |}
  end.

Fixpoint run (ls : list Label) (t : Task) : option Task :=
  match ls with
  | [] => Some t
  | l :: ls' =>
      match step l t with
      | Some t' => run ls' t'
      | None => None
      end
  end.

(** After [initialize]: the first timeout is armed, or (posting with
    [postImmediately]) the first body runs and its completion arms
    the first timeout. *)
Definition started : Task :=
  scheduleNext {| stopping := false; armed := 0; inFlight := 0 |}.
Definition startedImmediately : Task :=
  {| stopping := false; armed := 0; inFlight := 1 |}.

(** *** The mention monitor

    [startMonitoring] arms one 5 s [setTimeout] for the first scan
    and one [setInterval] of [scanInterval] minutes; the interval
    callback starts [scanMentions] without awaiting an earlier scan. *)
Record Monitor := {
  firstScan : bool;
  interval : bool;
  scans : nat
}.

Inductive MLabel :=
| FirstFire      (* the 5 s timeout elapses, the first scan starts *)
| IntervalFire   (* the interval elapses, a scan starts *)
| ScanSettle     (* a scan settles *)
| MStop.         (* [stop()]: [clearInterval] *)

Definition mstep (l : MLabel) (m : Monitor) : option Monitor :=
  match l with
  | FirstFire =>
      if firstScan m
      then Some {| firstScan := false; interval := interval m;
                   scans := S (scans m) |}
      else None
  | IntervalFire =>
      if interval m
      then Some {| firstScan := firstScan m; interval := true;
                   scans := S (scans m) |}
      else None
  | ScanSettle =>
      match scans m with
      | O => None
      | S n => Some {| firstScan := firstScan m; interval := interval m;
                       scans := n |}
      end
  | MStop =>
      Some {| firstScan := firstScan m; interval := false;
              scans := scans m |}
  end.

Fixpoint mrun (ls : list MLabel) (m : Monitor) : option Monitor :=
  match ls with
  | [] => Some m
  | l :: ls' =>
      match mstep l m with
      | Some m' => mrun ls' m'
      | None => None
      end
  end.

(** After [startMonitoring]. *)
Definition monitoring : Monitor :=
  {| firstScan := true; interval := true; scans := 0 |}.

End Timers.

(** ** Discovery history ([runDiscoveryScan]) *)

Module Discovery.
Import Arena.

Definition withSnapshots (l : list DiscoverySnapshot) (s : State) : State :=
  {| engagementCounters := engagementCounters s;
     engagedThreads := engagedThreads s;
     lastDiscoverySnapshots := l;
     engagementRoomReady := engagementRoomReady s;
     trace := trace s |}.

(** [targetFeeds.length > 0 ? targetFeeds : ["trending"]] *)
Definition feedsToScan (targetFeeds : list string) : list string :=
  match targetFeeds with
  | [] => ["trending"]
  | _ => targetFeeds
  end.

(** One iteration of the loop over the feeds.  The body is a
    [try]/[catch]: [found] is [None] when fetching the feed,
    resolving the follower counts or scoring the threads threw, and
    the top threads otherwise.  The snapshot is put in front of the
    history ([unshift]) and the history cut to ten ([slice(0, 10)]);
    saving the snapshot to memory swallows its failures. *)
Definition scanFeed (feedKey : string) (found : option (list Candidate))
    (s : State) : State :=
  match found with
  | None => s
  | Some top =>
      withSnapshots
        (take 10 ({| feedKey := feedKey; topThreads := top |}
                  :: lastDiscoverySnapshots s)) s
  end.

(** [world i] is what the platform lets iteration [i] find. *)
Fixpoint scanFeeds (world : nat -> option (list Candidate)) (i : nat)
    (feeds : list string) (s : State) : State :=
  match feeds with
  | [] => s
  | feedKey :: rest =>
      scanFeeds world (S i) rest (scanFeed feedKey (world i) s)
  end.

Definition runDiscoveryScan (world : nat -> option (list Candidate))
    (targetFeeds : list string) (s : State) : State :=
  scanFeeds world 0 (feedsToScan targetFeeds) s.

(** The snapshots a scan takes, in the order of the feeds. *)
Fixpoint snapshotsTaken (world : nat -> option (list Candidate)) (i : nat)
    (feeds : list string) : list DiscoverySnapshot :=
  match feeds with
  | [] => []
  | feedKey :: rest =>
      match world i with
      | None => snapshotsTaken world (S i) rest
      | Some top =>
          {| feedKey := feedKey; topThreads := top |}
          :: snapshotsTaken world (S i) rest
      end
  end.

End Discovery.

(** ** Feed comparison: the insights ([compareFeedPerformance]) *)

Module FeedInsights.

(** The fields of a [FeedStats] record that the insights read;
    [topAuthorsLength] is [topAuthors.length]. *)
Record FeedStats := {
  name : string;
  threadCount : float;
  avgEngagement : float;
  topAuthorsLength : float
}.

(** [Array.prototype.reduce] without an initial value: it throws on an
    empty array ([None]) and otherwise folds from the first element. *)
Definition reduce {A} (f : A -> A -> A) (l : list A) : option A :=
  match l with
  | [] => None
  | x :: l' => Some (foldl f x l')
  end.

(** [current.avgEngagement > best.avgEngagement ? current : best] *)
Definition moreEngaging (best current : FeedStats) : FeedStats :=
  if (avgEngagement best <? avgEngagement current)%float
  then current else best.

(** [current.threadCount > best.threadCount ? current : best] *)
Definition moreActive (best current : FeedStats) : FeedStats :=
  if (threadCount best <? threadCount current)%float
  then current else best.

Definition diversity (f : FeedStats) : float :=
  if (0 <? threadCount f)%float
  then (topAuthorsLength f / threadCount f)%float
  else 0%float.

Definition moreDiverse (best current : FeedStats) : FeedStats :=
  if (diversity best <? diversity current)%float then current else best.

Record Insights := {
  mostEngaging : string;
  mostActive : string;
  bestForDiscovery : string;
  recommendation : string
}.

Section Recommendation.
(** [Math.log10]: the host's approximation of the decimal logarithm. *)
Variable log10 : float -> float.

Definition feedScore (f : FeedStats) : float :=
  (avgEngagement f * log10 (threadCount f + 1))%float.

Definition betterScore (best current : FeedStats) : FeedStats :=
  if (feedScore best <? feedScore current)%float then current else best.

(** The four [reduce] calls and the names they yield. *)
Definition insights (feedData : list FeedStats) : option Insights :=
  e ← reduce moreEngaging feedData;
  a ← reduce moreActive feedData;
  d ← reduce moreDiverse feedData;
  r ← reduce betterScore feedData;
  Some {| mostEngaging := name e; mostActive := name a;
          bestForDiscovery := name d; recommendation := name r |}.
End Recommendation.

(** [b] is the first item of [l] whose value [v] is the largest. *)
Definition firstLargest (v : FeedStats -> float) (l : list FeedStats)
    (b : FeedStats) : Prop :=
  exists before after,
    l = before ++ b :: after
    /\ (forall f, f ∈ before -> (v f <? v b)%float = true)
    /\ (forall f, f ∈ after -> (v f <=? v b)%float = true).

End FeedInsights.

(** ** More JavaScript number helpers *)

Module JsNum.

(** [Math.min(a, b)]: NaN if either argument is NaN, the smaller one
    otherwise, with [-0] preferred over [+0].  [Math.min(a, b, c)] is
    [Math_min (Math_min a b) c]. *)
Definition Math_min (a b : float) : float :=
  if (PrimFloat.is_nan a || PrimFloat.is_nan b)%bool then nan
  else if (a <? b)%float then a
  else if (b <? a)%float then b
  else if (a =? 0)%float then (- (- a + - b))%float
  else a.

(** [l.length] as a number (array lengths are below [2^32]). *)
Definition lengthOf {A} (l : list A) : float :=
  PrimFloat.of_uint63 (Uint63.of_Z (Z.of_nat (length l))).

(** Keys of a [Map] are compared by SameValueZero: NaN equals NaN,
    [+0] equals [-0]. *)
Definition sameValueZero (a b : float) : bool :=
  ((a =? b)%float || (PrimFloat.is_nan a && PrimFloat.is_nan b))%bool.

End JsNum.

(** ** Posting times ([analyzeOptimalPostingTimes]) *)

Module PostingTimes.

(** What the analysis reads of a thread: hour and weekday of its
    creation date ([getHours()], [getDay()]; NaN for an unparsable
    date) and the three counters. *)
Record Post := {
  hour : float;
  day : float;
  likeCount : float;
  repostCount : float;
  answerCount : float
}.

Record Stat := { totalEngagement : float; count : float }.

(** One step of the [forEach]: [stats.get(k) || {0, 0}], the two
    [+=] and [stats.set(k, stat)].  The map is kept as the list of
    its entries in insertion order; a new key [-0] is stored as
    [+0]. *)
Fixpoint bump (k engagement : float) (stats : list (float * Stat))
    : list (float * Stat) :=
  match stats with
  | [] => [(if (k =? 0)%float then 0%float else k,
            {| totalEngagement := (0 + engagement)%float;
               count := (0 + 1)%float |})]
  | (k', st) :: rest =>
      if JsNum.sameValueZero k' k
      then (k', {| totalEngagement := (totalEngagement st + engagement)%float;
                   count := (count st + 1)%float |}) :: rest
      else (k', st) :: bump k engagement rest
  end.

Definition engagement (t : Post) : float :=
  (likeCount t + repostCount t + answerCount t)%float.

(** [hourStats] (with [key := hour]) and [dayStats] (with
    [key := day]) after the [forEach]. *)
Definition tally (key : Post -> float) (threads : list Post)
    : list (float * Stat) :=
  foldl (fun stats t => bump (key t) (engagement t) stats) [] threads.

(** An element of [optimalHours] or [optimalDays]; [slot] is its
    [hour] or [day]. *)
Record Slot := {
  slot : float;
  score : float;
  avgEngagement : float;
  sampleSize : float
}.

Record Recommendations := {
  bestHour : float;
  bestDay : float;
  bestDayName : option string;
  confidence : float
}.

(** The count of a tallied entry is a number that is zero or
    positive. *)
Definition counted (entry : float * Stat) : Prop :=
  Ieee.signed false (Prim2SF (count entry.2)).

(** [dayNames[d]]: the element under the property key of the number
    [d], [undefined] ([None]) when there is none. *)
Definition dayName (d : float) : option string :=
  if (d =? 0)%float then Some "Sunday"
  else if (d =? 1)%float then Some "Monday"
  else if (d =? 2)%float then Some "Tuesday"
  else if (d =? 3)%float then Some "Wednesday"
  else if (d =? 4)%float then Some "Thursday"
  else if (d =? 5)%float then Some "Friday"
  else if (d =? 6)%float then Some "Saturday"
  else None.

Section Analyze.
(** [Math.log10]: the host's approximation of the decimal logarithm. *)
Variable log10 : float -> float.
(** [options?.minSampleSize] *)
Variable minSampleSizeOption : option float.

Definition minSampleSize : float := Js.or_default minSampleSizeOption 3.

Definition toSlot (entry : float * Stat) : Slot :=
  let stats := entry.2 in
  let avg := (totalEngagement stats / count stats)%float in
  {| slot := entry.1;
     score := (avg * log10 (count stats + 1))%float;
     avgEngagement := avg;
     sampleSize := count stats |}.

(** [Array.from(stats.entries()).filter(..).map(..).sort(..)] *)
Definition optimal (key : Post -> float) (threads : list Post) : list Slot :=
  Js.sort (fun a b => (score b - score a)%float)
    (map toSlot
       (filter (fun entry => (minSampleSize <=? count entry.2)%float = true)
          (tally key threads))).

(** The [recommendations] of the result; of [bestTimeString] the
    weekday name is kept. *)
Definition recommend (threads : list Post) : Recommendations :=
  let optimalHours := optimal hour threads in
  let optimalDays := optimal day threads in
  let bestHour := Js.or_default (slot <$> head optimalHours) 12 in
  let bestDay := Js.or_default (slot <$> head optimalDays) 1 in
  let n := JsNum.lengthOf threads in
  {| bestHour := bestHour;
     bestDay := bestDay;
     bestDayName := dayName bestDay;
     confidence :=
       match head optimalHours, head optimalDays with
       | Some h, Some d =>
           JsNum.Math_min
             (JsNum.Math_min (sampleSize h / n * 2)%float
                (sampleSize d / n * 2)%float) 1
       | _, _ => 0%float
       end |}.
End Analyze.

End PostingTimes.

(** ** Content performance ([trackContentPerformance]) *)

Module Performance.
Import Analytics.

Record PerformanceOptions := {
  viralThreshold : option float;
  trendingVelocity : option float;
  calculatePercentiles : option bool
}.

(** The numeric part of a [ContentPerformance] object: of [metrics] the
    total, all of [performance], and of [insights] the age and the
    velocity.  [rank] is an optional property. *)
Record ContentPerformance := {
  threadId : string;
  totalEngagement : float;
  score : float;
  percentile : float;
  isViral : bool;
  isTrending : bool;
  rank : option nat;
  ageHours : float;
  velocity : float
}.

Definition setPercentile (v : float) (p : ContentPerformance)
    : ContentPerformance :=
  {| threadId := threadId p; totalEngagement := totalEngagement p;
     score := score p; percentile := v;
     isViral := isViral p; isTrending := isTrending p;
     rank := rank p; ageHours := ageHours p; velocity := velocity p |}.

Definition setRank (n : nat) (p : ContentPerformance) : ContentPerformance :=
  {| threadId := threadId p; totalEngagement := totalEngagement p;
     score := score p; percentile := percentile p;
     isViral := isViral p; isTrending := isTrending p;
     rank := Some n; ageHours := ageHours p; velocity := velocity p |}.

(** The objects live in a store and the arrays hold their addresses:
    [performances] and its copy [ranked] share the objects. *)

Definition scoreAt (h : list ContentPerformance) (r : nat) : float :=
  from_option score nan (h !! r).

(** [l.findIndex(p)], with [None] for [-1]. *)
Fixpoint findIndex {A} (p : A -> bool) (l : list A) : option nat :=
  match l with
  | [] => None
  | x :: l' => if p x then Some 0%nat else S <$> findIndex p l'
  end.

(** An index or a length as a number. *)
Definition numberOf (n : nat) : float :=
  PrimFloat.of_uint63 (Uint63.of_Z (Z.of_nat n)).

(** comparator of the first [.sort]: [(a, b) => a - b] *)
Definition ascending (a b : float) : float := (a - b)%float.

(** body of the first [forEach], for an object of score [s] *)
Definition percentileOf (sortedScores : list float) (s : float) : float :=
  match findIndex (fun x => (s <=? x)%float) sortedScores with
  | Some position =>
      (numberOf position / numberOf (length sortedScores) * 100)%float
  | None => 100%float
  end.

(** [performances.forEach(perf => perf.performance.percentile = ...)] *)
Definition percentiles (performances : list nat) (h : list ContentPerformance) : list ContentPerformance :=
  let sortedScores :=
    Js.sort ascending (map (scoreAt h) performances) in
  foldl (fun h r =>
           alter (fun p => setPercentile (percentileOf sortedScores (score p)) p)
                 r h)
        h performances.

(** [ranked.forEach((perf, index) => perf.performance.rank = index + 1)] *)
Fixpoint assignRanks (ranked : list nat) (index : nat) (h : list ContentPerformance) : list ContentPerformance :=
  match ranked with
  | [] => h
  | r :: rest => assignRanks rest (S index) (alter (setRank (index + 1)) r h)
  end.

(** [[...performances].sort((a, b) => b.performance.score -
    a.performance.score)] and the [forEach] over it *)
Definition ranks (performances : list nat) (h : list ContentPerformance) : list ContentPerformance :=
  let ranked :=
    Js.sort (fun a b => (scoreAt h b - scoreAt h a)%float) performances in
  assignRanks ranked 0 h.

Section Track.
Variable now : float.
Variable options : option PerformanceOptions.

Definition viral : float :=
  Js.nullish (options ≫= viralThreshold) 100.
Definition trending : float :=
  Js.nullish (options ≫= trendingVelocity) 10.
Definition withPercentiles : bool :=
  default true (options ≫= calculatePercentiles).

(** the [.map] that builds one object *)
Definition measure (t : ArenaThread) : ContentPerformance :=
  let totalEngagement :=
    (likeCount t + repostCount t + answerCount t
     + Js.or_default (bookmarkCount t) 0)%float in
  let ageMs := (now - createdDate t)%float in
  let ageHours := (ageMs / hourMs)%float in
  let velocity :=
    if (0 <? ageHours)%float then (totalEngagement / ageHours)%float
    else 0%float in
  {| threadId := id t;
     totalEngagement := totalEngagement;
     score := totalEngagement;
     percentile := 0;
     isViral := (viral <=? totalEngagement)%float;
     isTrending := (trending <=? velocity)%float;
     rank := None;
     ageHours := ageHours;
     velocity := velocity |}.

(** The objects are allocated in input order; the result array is read
    through the store after the two [forEach]. *)
Definition trackContentPerformance (threads : list ArenaThread)
    : list ContentPerformance :=
  let h0 : list ContentPerformance := map measure threads in
  let performances := seq 0 (length threads) in
  let h :=
    if (withPercentiles && negb (length performances =? 0)%nat)%bool
    then ranks performances (percentiles performances h0)
    else h0 in
  omap (fun r => h !! r) performances.
End Track.

(** [below s l]: how many scores of [l] are smaller than [s]. *)
Definition below (s : float) (l : list float) : nat :=
  length (filter (fun x => (x <? s)%float = true) l).

End Performance.

(** ** Reading a ranking *)

Module Ranking.
Import Analytics IeeeOrder.

(** [a] may stand before [b] in a ranking: its score is not below
    [b]'s. *)
Definition notBelow (a b : TrendingThread) : Prop :=
  keyOf (score b) <= keyOf (score a).

(** No item of the list has a score below that of a later item. *)
Fixpoint descending (l : list TrendingThread) : Prop :=
  match l with
  | [] => True
  | x :: l' => Forall (notBelow x) l' /\ descending l'
  end.

(** The same for any list and any integer key: no item has a key
    below that of a later item. *)
Fixpoint descendingBy {A} (k : A -> Z) (l : list A) : Prop :=
  match l with
  | [] => True
  | x :: l' => Forall (fun y => k y <= k x) l' /\ descendingBy k l'
  end.

End Ranking.

(** ** Timer delays ([src/utils/scheduling.ts]) *)

Module Scheduling.

(** [Math.max(0, minutes) * 60 * 1_000] *)
Definition minutesToMs (minutes : float) : float :=
  (Js.Math_max 0 minutes * 60 * 1000)%float.

(** [jitteredIntervalMinutes(min, max, fallback)]; an argument that is
    not a number is [None], [random] is the value of [Math.random()]. *)
Definition jitteredIntervalMinutes (random : float)
    (min max fallback : option float) : float :=
  let otherwise :=
    match fallback with
    | Some f => f
    | None => 1%float
    end in
  match min, max with
  | Some mn, Some mx =>
      if (mn <=? mx)%float
      then if (mn =? mx)%float then mn
           else (mn + random * (mx - mn))%float
      else otherwise
  | _, _ => otherwise
  end.

End Scheduling.

(** ** Reading the service's trace *)

Module Observe.
Import Arena.

(** The ledger key under which the [switch] case that issues [call]
    looks up and records the engagement: thread actions are keyed by
    the thread, a follow by [`user:${author.toLowerCase()}`]. *)
Definition ledgerKeyOf `{host : Js.LowerCase} (call : ClientCall) : string :=
  match call with
  | likeThread threadId => engagementKey threadId "like"
  | repostThread threadId => engagementKey threadId "repost"
  | replyToThread threadId _ => engagementKey threadId "reply"
  | followUserByHandle handle =>
      engagementKey ("user:" +:+ Js.toLowerCase handle) "follow"
  | quoteThread threadId _ => engagementKey threadId "quote"
  end.

Definition isEvaluate (e : Event) : bool :=
  match e with EvEvaluate _ => true | _ => false end.

Definition isClient (e : Event) : bool :=
  match e with EvClient _ _ => true | _ => false end.

(** Oracle consultations and platform calls (resolved or not) in a
    trace. *)
Definition evaluations (tr : list Event) : nat :=
  length (filter (fun e => isEvaluate e = true) tr).

Definition platformCalls (tr : list Event) : nat :=
  length (filter (fun e => isClient e = true) tr).

(** Starts of the monitor's first, delayed scan in a run. *)
Definition isFirstFire (l : Timers.MLabel) : bool :=
  match l with Timers.FirstFire => true | _ => false end.

Definition firstScans (ls : list Timers.MLabel) : nat :=
  length (filter (fun l => isFirstFire l = true) ls).

(** [s.topThreads.length > 0] *)
Definition nonEmpty (sn : DiscoverySnapshot) : bool :=
  negb (length (topThreads sn) =? 0)%nat.

End Observe.

(** ** Concrete scenarios *)

Module Scenario.
Import Analytics.

(** Scenario A of the specification: 10 likes, 5 reposts, 2 replies,
    no bookmarks. *)
Definition scenarioA (created : float) : ArenaThread :=
  {| id := "A"; createdDate := created;
     likeCount := 10; repostCount := 5; answerCount := 2;
     bookmarkCount := Some 0%float |}.

(** Two threads scored 8 by the default weights at [now = 28800000]:
    16 likes after eight hours, 4 likes after one hour. *)
Definition older : ArenaThread :=
  {| id := "older"; createdDate := 0;
     likeCount := 16; repostCount := 0; answerCount := 0;
     bookmarkCount := None |}.
Definition fresher : ArenaThread :=
  {| id := "fresher"; createdDate := 25200000;
     likeCount := 4; repostCount := 0; answerCount := 0;
     bookmarkCount := None |}.


Import Arena.

(** The handles of the scenarios are ASCII. *)
#[export] Instance asciiHandles : Js.LowerCase := Js.asciiLowerCase.

(** The default ceilings of [constants.ts]. *)
Definition defaultConfig : ArenaConfig :=
  {| enableEngagement := true;
     maxLikesPerHour := 10; maxRepostsPerHour := 4;
     maxRepliesPerHour := 3; maxFollowsPerHour := 2 |}.

Definition t1 : Candidate :=
  {| cand_id := "t1"; cand_author := "Alice"; cand_preview := "gm" |}.
Definition t2 : Candidate :=
  {| cand_id := "t2"; cand_author := "Bob"; cand_preview := "wagmi" |}.

Definition likeIt : Decision :=
  {| dec_action := "like"; rationale := "useful"; replyDraft := None |}.
Definition replyIt : Decision :=
  {| dec_action := "reply"; rationale := "data";
     replyDraft := Some "Agreed." |}.

Definition snapshot12 : DiscoverySnapshot :=
  {| feedKey := "trending"; topThreads := [t1; t2] |}.

(** The like budget of the default configuration is used up and its
    window ended at clock 3601000. *)
Definition likesExhausted : State :=
  withCounters
    (setCounter initialCounters likes {| count := 10; resetAt := 3601000 |})
    (initialState [snapshot12]).


Definition quoteIt : Decision :=
  {| dec_action := "quote"; rationale := "alpha";
     replyDraft := Some "Worth a look." |}.
Definition repostIt : Decision :=
  {| dec_action := "repost"; rationale := "alpha"; replyDraft := None |}.

(** A repost ceiling of two, the other kinds switched off. *)
Definition twoReposts : ArenaConfig :=
  {| enableEngagement := true;
     maxLikesPerHour := 0; maxRepostsPerHour := 2;
     maxRepliesPerHour := 0; maxFollowsPerHour := 0 |}.

(** A like ceiling of two and a half, the other kinds switched off. *)
Definition fractional : ArenaConfig :=
  {| enableEngagement := true;
     maxLikesPerHour := 2.5; maxRepostsPerHour := 0;
     maxRepliesPerHour := 0; maxFollowsPerHour := 0 |}.


(** A ceiling of one like per hour. *)
Definition oneLike : ArenaConfig :=
  {| enableEngagement := true;
     maxLikesPerHour := 1; maxRepostsPerHour := 0;
     maxRepliesPerHour := 0; maxFollowsPerHour := 0 |}.

Definition t3 : Candidate :=
  {| cand_id := "t3"; cand_author := "Carol"; cand_preview := "ser" |}.

(** A quiet world at clock [now]: the oracle answers [d] for every
    candidate and every platform call resolves. *)
Definition calm (now : Z) (d : Decision) (i : nat) : Turn :=
  {| nowBudget := now; nowDedup := now; nowRecord := now;
     decision := Some d; clientOk := true |}.

(** The same world, except that the platform call of the first
    iteration throws. *)
Definition firstCallFails (now : Z) (d : Decision) (i : nat) : Turn :=
  {| nowBudget := now; nowDedup := now; nowRecord := now;
     decision := Some d;
     clientOk := match i with O => false | S _ => true end |}.


(** A world in which every platform call throws. *)
Definition offline (now : Z) (d : Decision) (i : nat) : Turn :=
  {| nowBudget := now; nowDedup := now; nowRecord := now;
     decision := Some d; clientOk := false |}.

(** No budget at all, and a service whose room is set up and whose
    four windows end at clock 3600000. *)
Definition allSpent : ArenaConfig :=
  {| enableEngagement := true;
     maxLikesPerHour := 0; maxRepostsPerHour := 0;
     maxRepliesPerHour := 0; maxFollowsPerHour := 0 |}.

Definition spentState : State :=
  let c := {| count := 0; resetAt := 3600000 |} in
  withRoomReady true
    (withCounters {| c_likes := c; c_reposts := c;
                     c_replies := c; c_follows := c |}
       (initialState [snapshot12])).

(** Two feeds with the same number of threads, the second one more
    engaging. *)
Definition homeFeed : FeedInsights.FeedStats :=
  {| FeedInsights.name := "home"; FeedInsights.threadCount := 50;
     FeedInsights.avgEngagement := 4; FeedInsights.topAuthorsLength := 5 |}.
Definition trendingFeed : FeedInsights.FeedStats :=
  {| FeedInsights.name := "trending"; FeedInsights.threadCount := 50;
     FeedInsights.avgEngagement := 9; FeedInsights.topAuthorsLength := 5 |}.

(** Three threads posted on a Sunday at midnight. *)
Definition sundayMidnight : PostingTimes.Post :=
  {| PostingTimes.hour := 0; PostingTimes.day := 0;
     PostingTimes.likeCount := 5; PostingTimes.repostCount := 1;
     PostingTimes.answerCount := 2 |}.

(** A notification whose link points at thread [t1], and a world in
    which the thread loads, a reply is generated and posting
    resolves. *)
Definition mentionOnT1 : Mentions.Mention :=
  {| Mentions.notif_id := "n1"; Mentions.threadIdOf := Some "t1" |}.

Definition replying (i : nat) : Mentions.Turn :=
  {| Mentions.threadOk := true;
     Mentions.replyText := Some "Thanks for the tag.";
     Mentions.replyOk := true |}.

(** A notification on thread [t2], and a world in which posting the
    first reply of a list throws and every later one resolves. *)
Definition mentionOnT2 : Mentions.Mention :=
  {| Mentions.notif_id := "n2"; Mentions.threadIdOf := Some "t2" |}.

Definition lateReply (i : nat) : Mentions.Turn :=
  {| Mentions.threadOk := true;
     Mentions.replyText := Some "Thanks for the tag.";
     Mentions.replyOk := match i with O => false | S _ => true end |}.

(** A second scan that answers the mention on [t1] while the first
    one awaits [getThread]. *)
Definition overlappingScan (i : nat) : Mentions.Others :=
  {| Mentions.duringGetThread :=
       Mentions.processMentions replying 0 [mentionOnT1];
     Mentions.duringGenerate := fun s => s;
     Mentions.duringReply := fun s => s;
     Mentions.duringMark := fun s => s |}.

(** Both services freshly started; discovery has found [t1]. *)
Definition fresh : Process.State :=
  {| Process.service :=
       initialState [ {| feedKey := "trending"; topThreads := [t1] |} ];
     Process.monitor := Mentions.initialState |}.

End Scenario.

(** * Properties *)

(** ** Binary64 arithmetic on bounded magnitudes *)

Section Binary64.
Import Ieee.

Lemma fexp_eq k : SpecFloat.fexp prec emax k = Z.max (k - 53) (-1074).
Proof. reflexivity. Qed.

Lemma digits2_pos_size p : digits2_pos p = Pos.size p.
Proof. induction p as [p IH | p IH |]; cbn; congruence. Qed.

Lemma Zdigits2_log2 p : Zdigits2 (Zpos p) = Z.log2 (Zpos p) + 1.
Proof.
  cbn [Zdigits2]. rewrite digits2_pos_size.
  destruct p; cbn [Pos.size Z.log2]; lia.
Qed.

Lemma Zdigits2_nonneg z : 0 <= Zdigits2 z.
Proof. destruct z; cbn; lia. Qed.

Lemma Zdigits2_pos p : 1 <= Zdigits2 (Zpos p).
Proof. cbn. lia. Qed.

(** [z] has at most [k] binary digits iff [z < 2^k]. *)
Lemma Zdigits2_le z k : 0 <= z -> 0 <= k -> (Zdigits2 z <= k <-> z < 2 ^ k).
Proof.
  intros Hz Hk. destruct z as [|p|p]; [| |lia].
  - cbn. split; [intros _; apply Z.pow_pos_nonneg; lia | intros _; exact Hk].
  - rewrite Zdigits2_log2, Z.log2_lt_pow2 by lia. lia.
Qed.

Lemma Zdigits2_ge z k : 0 < z -> (k <= Zdigits2 z <-> 2 ^ (k - 1) <= z).
Proof.
  intros Hz. destruct z as [|p|p]; try lia.
  rewrite Zdigits2_log2.
  destruct (Z.le_gt_cases 0 (k - 1)) as [Hk|Hk].
  - rewrite Z.log2_le_pow2 by lia. lia.
  - rewrite Z.pow_neg_r by lia. pose proof (Z.log2_nonneg (Zpos p)). lia.
Qed.

Lemma Zdigits2_mono a b : 0 <= a <= b -> Zdigits2 a <= Zdigits2 b.
Proof.
  intros [Ha Hab].
  apply Zdigits2_le; [lia | apply Zdigits2_nonneg|].
  eapply Z.le_lt_trans; [exact Hab|].
  apply Zdigits2_le; [lia | apply Zdigits2_nonneg | lia].
Qed.

Lemma Zdigits2_succ a : 0 <= a -> Zdigits2 (a + 1) <= Zdigits2 a + 1.
Proof.
  intros Ha. pose proof (Zdigits2_nonneg a).
  apply Zdigits2_le; [lia | lia |].
  assert (a < 2 ^ Zdigits2 a) by (apply Zdigits2_le; lia).
  rewrite Z.pow_add_r by lia. lia.
Qed.

Lemma Zdigits2_div_pow2 a n :
  0 <= a -> 0 <= n -> Zdigits2 (a / 2 ^ n) <= Z.max 0 (Zdigits2 a - n).
Proof.
  intros Ha Hn. pose proof (Zdigits2_nonneg a).
  assert (Hp : 0 < 2 ^ n) by (apply Z.pow_pos_nonneg; lia).
  assert (Hq : 0 <= a / 2 ^ n) by (apply Z.div_pos; lia).
  apply Zdigits2_le; [exact Hq | lia |].
  assert (Hlt : a < 2 ^ Zdigits2 a) by (apply Zdigits2_le; lia).
  apply Z.div_lt_upper_bound; [exact Hp|].
  rewrite <- Z.pow_add_r by lia.
  eapply Z.lt_le_trans; [exact Hlt|].
  apply Z.pow_le_mono_r; lia.
Qed.


Lemma Zdigits2_mul_pow2 a n :
  0 < a -> 0 <= n -> Zdigits2 (a * 2 ^ n) = Zdigits2 a + n.
Proof.
  intros Ha Hn.
  assert (Hp : 0 < a * 2 ^ n)
    by (apply Z.mul_pos_pos; [lia | apply Z.pow_pos_nonneg; lia]).
  destruct a as [|p|p]; try lia.
  destruct (Zpos p * 2 ^ n) as [|q|q] eqn:E; try lia.
  rewrite !Zdigits2_log2, <- E, Z.log2_mul_pow2 by lia. lia.
Qed.

Lemma Zdigits2_mul a b :
  0 < a -> 0 < b ->
  Zdigits2 a + Zdigits2 b - 1 <= Zdigits2 (a * b) <= Zdigits2 a + Zdigits2 b.
Proof.
  intros Ha Hb.
  assert (Hp : 0 < a * b) by (apply Z.mul_pos_pos; lia).
  pose proof (Z.log2_mul_below a b Ha Hb).
  pose proof (Z.log2_mul_above a b ltac:(lia) ltac:(lia)).
  destruct a as [|p|p], b as [|q|q]; try lia.
  destruct (Zpos p * Zpos q) as [|r|r] eqn:E; try lia.
  rewrite !Zdigits2_log2. lia.
Qed.




(** *** Rounding: the shifts and the final test of [binary_round_aux] *)

Lemma shr_1_m mrs : 0 <= shr_m mrs -> shr_m (shr_1 mrs) = shr_m mrs / 2.
Proof.
  destruct mrs as [m r s]. cbn [shr_m]. intros Hm.
  rewrite <- Z.div2_div.
  destruct m as [|[p|p|]|]; try reflexivity; lia.
Qed.

Lemma iter_pos_shr_1 p : forall mrs,
  0 <= shr_m mrs ->
  shr_m (SpecFloat.iter_pos shr_1 p mrs) = shr_m mrs / 2 ^ Zpos p.
Proof.
  induction p as [p IH | p IH |]; intros mrs Hm; cbn [SpecFloat.iter_pos].
  - assert (H1 : 0 <= shr_m (shr_1 mrs))
      by (rewrite shr_1_m by exact Hm; apply Z.div_pos; lia).
    assert (Hp : 0 < 2 ^ Zpos p) by (apply Z.pow_pos_nonneg; lia).
    assert (H2 : 0 <= shr_m (SpecFloat.iter_pos shr_1 p (shr_1 mrs)))
      by (rewrite IH by exact H1; apply Z.div_pos; lia).
    rewrite IH, IH, shr_1_m by assumption.
    rewrite !Z.div_div by lia. f_equal.
    replace (Zpos p~1) with (1 + Zpos p + Zpos p) by lia.
    rewrite !Z.pow_add_r by lia. change (2 ^ 1) with 2. lia.
  - assert (Hp : 0 < 2 ^ Zpos p) by (apply Z.pow_pos_nonneg; lia).
    assert (H2 : 0 <= shr_m (SpecFloat.iter_pos shr_1 p mrs))
      by (rewrite IH by exact Hm; apply Z.div_pos; lia).
    rewrite IH, IH by assumption.
    rewrite !Z.div_div by lia. f_equal.
    replace (Zpos p~0) with (Zpos p + Zpos p) by lia.
    rewrite Z.pow_add_r by lia. lia.
  - rewrite shr_1_m by exact Hm. reflexivity.
Qed.

Lemma shr_spec mrs e n :
  0 <= shr_m mrs ->
  shr_m (shr mrs e n).1 = shr_m mrs / 2 ^ Z.max 0 n
  /\ (shr mrs e n).2 = e + Z.max 0 n.
Proof.
  intros Hm. destruct n as [|p|p]; cbn [shr fst snd].
  - rewrite Z.div_1_r. split; [reflexivity | lia].
  - rewrite iter_pos_shr_1 by exact Hm. split; [reflexivity | lia].
  - rewrite Z.div_1_r. split; [reflexivity | lia].
Qed.

Lemma shr_m_of_loc m l : shr_m (shr_record_of_loc m l) = m.
Proof. destruct l as [|[]]; reflexivity. Qed.

Lemma shr_fexp_spec m e l :
  0 <= m ->
  let n := Z.max 0 (SpecFloat.fexp prec emax (Zdigits2 m + e) - e) in
  shr_m (shr_fexp prec emax m e l).1 = m / 2 ^ n
  /\ (shr_fexp prec emax m e l).2 = e + n.
Proof.
  intros Hm. unfold shr_fexp.
  pose proof (shr_spec (shr_record_of_loc m l) e
                (SpecFloat.fexp prec emax (Zdigits2 m + e) - e)) as H.
  rewrite shr_m_of_loc in H. apply H. exact Hm.
Qed.

Lemma round_nearest_even_range m l :
  0 <= m -> m <= round_nearest_even m l <= m + 1.
Proof.
  intros Hm. unfold round_nearest_even.
  destruct l as [|[]]; try destruct (Z.even m); lia.
Qed.

(** The mantissa and exponent [binary_round_aux] tests at its end. *)
Lemma binary_round_aux_shape sx mx ex lx :
  0 <= mx ->
  exists m2 e2,
    0 <= m2
    /\ binary_round_aux prec emax sx mx ex lx
       = match m2 with
         | Z0 => S754_zero sx
         | Zpos m => if e2 <=? emax - prec then S754_finite sx m e2
                     else S754_infinity sx
         | Zneg _ => S754_nan
         end
    /\ let e1 := ex + Z.max 0 (SpecFloat.fexp prec emax (Zdigits2 mx + ex) - ex) in
       let m1 := mx / 2 ^ (e1 - ex) in
       exists r, m1 <= r <= m1 + 1
         /\ e2 = e1 + Z.max 0 (SpecFloat.fexp prec emax (Zdigits2 r + e1) - e1)
         /\ m2 = r / 2 ^ (e2 - e1).
Proof.
  intros Hm. unfold binary_round_aux.
  destruct (shr_fexp_spec mx ex lx Hm) as [Hm1 He1].
  destruct (shr_fexp prec emax mx ex lx) as [mrs1 e1]. cbn [fst snd] in *.
  set (r := round_nearest_even (shr_m mrs1) (loc_of_shr_record mrs1)).
  assert (Hm1' : 0 <= shr_m mrs1).
  { rewrite Hm1. apply Z.div_pos; [lia | apply Z.pow_pos_nonneg; lia]. }
  pose proof (round_nearest_even_range (shr_m mrs1) (loc_of_shr_record mrs1)
                Hm1') as Hr. fold r in Hr.
  assert (Hr0 : 0 <= r) by lia.
  destruct (shr_fexp_spec r e1 loc_Exact Hr0) as [Hm2 He2].
  destruct (shr_fexp prec emax r e1 loc_Exact) as [mrs2 e2].
  cbn [fst snd] in *.
  exists (shr_m mrs2), e2. split; [|split].
  - rewrite Hm2. apply Z.div_pos; [lia | apply Z.pow_pos_nonneg; lia].
  - reflexivity.
  - cbn zeta. exists r. rewrite <- He1.
    replace (e1 - ex) with
      (Z.max 0 (SpecFloat.fexp prec emax (Zdigits2 mx + ex) - ex)) by lia.
    rewrite <- Hm1. split; [exact Hr|]. split; [exact He2|].
    rewrite Hm2. f_equal. f_equal. lia.
Qed.


Lemma binary_round_aux_signed sx mx ex lx :
  0 <= mx -> signed sx (binary_round_aux prec emax sx mx ex lx).
Proof.
  intros Hm.
  destruct (binary_round_aux_shape sx mx ex lx Hm) as (m2 & e2 & H2 & -> & _).
  destruct m2 as [|m|m]; [reflexivity | | lia].
  destruct (e2 <=? emax - prec); reflexivity.
Qed.

(** A mantissa with at least working precision and a value below
    [2^K] rounds to a finite number below [2^(K+1)]. *)
Lemma binary_round_aux_below mx ex lx K :
  0 <= mx ->
  ex <= SpecFloat.fexp prec emax (Zdigits2 mx + ex) ->
  Zdigits2 mx + ex <= K -> -1074 <= K <= 1023 ->
  below (K + 1) (binary_round_aux prec emax false mx ex lx).
Proof.
  intros Hm Hprec HK Hrange.
  destruct (binary_round_aux_shape false mx ex lx Hm)
    as (m2 & e2 & H2 & -> & r & Hr & He2 & Hm2).
  cbn zeta in *. rewrite !fexp_eq in *.
  set (e1 := ex + Z.max 0 (Z.max (Zdigits2 mx + ex - 53) (-1074) - ex)) in *.
  set (m1 := mx / 2 ^ (e1 - ex)) in *.
  pose proof (Zdigits2_nonneg mx) as Hd0.
  assert (Hm1 : 0 <= m1)
    by (apply Z.div_pos; [lia | apply Z.pow_pos_nonneg; lia]).
  assert (Hd1 : Zdigits2 m1 <= Z.max 0 (Zdigits2 mx - (e1 - ex)))
    by (apply Zdigits2_div_pow2; lia).
  assert (Hdr : Zdigits2 r <= Zdigits2 m1 + 1).
  { etransitivity; [apply (Zdigits2_mono r (m1 + 1)); lia|].
    apply Zdigits2_succ. exact Hm1. }
  pose proof (Zdigits2_nonneg r) as Hdr0.
  assert (Hd2 : Zdigits2 m2 <= Z.max 0 (Zdigits2 r - (e2 - e1)))
    by (rewrite Hm2; apply Zdigits2_div_pow2; lia).
  destruct m2 as [|m|m]; [exact I | | lia].
  pose proof (Zdigits2_pos m) as Hpos.
  assert (He : e2 <= 971) by lia.
  change (emax - prec) with 971.
  destruct (Z.leb_spec e2 971); [|lia].
  cbn [below]. lia.
Qed.


(** *** The operations on numbers below a power of two *)

Lemma valid_finite s m e :
  valid_binary (S754_finite s m e) = true ->
  e = Z.max (Zdigits2 (Zpos m) + e - 53) (-1074) /\ e <= 971.
Proof.
  unfold valid_binary, SpecFloat.valid_binary, bounded, canonical_mantissa.
  rewrite andb_true_iff, Z.eqb_eq, Z.leb_le, fexp_eq. cbn [Zdigits2].
  change (emax - prec) with 971. lia.
Qed.

Lemma below_weaken K K' x : K <= K' -> below K x -> below K' x.
Proof. intros HK. destruct x as [| | |[] m e]; cbn; try tauto. lia. Qed.

Lemma SFmul_finite mx ex my ey :
  SF64mul (S754_finite false mx ex) (S754_finite false my ey)
  = binary_round_aux prec emax false (Zpos mx * Zpos my) (ex + ey) loc_Exact.
Proof. reflexivity. Qed.

Lemma SFmul_below x y A B :
  valid_binary x = true -> valid_binary y = true ->
  below A x -> below B y -> -1074 <= A + B <= 1023 ->
  below (A + B + 1) (SF64mul x y).
Proof.
  intros Vx Vy Hx Hy HK.
  destruct x as [sx | sx | | [] mx ex], y as [sy | sy | | [] my ey];
    cbn [below atLeast] in Hx, Hy; try contradiction; try exact I.
  apply valid_finite in Vx, Vy.
  pose proof (Zdigits2_mul (Zpos mx) (Zpos my) ltac:(lia) ltac:(lia)) as Hd.
  pose proof (Zdigits2_pos mx). pose proof (Zdigits2_pos my).
  rewrite SFmul_finite.
  apply binary_round_aux_below; rewrite ?fexp_eq; lia.
Qed.

Lemma digits_iter_xO m d :
  Zdigits2 (Zpos (Pos.iter xO m d)) = Zdigits2 (Zpos m) + Zpos d.
Proof.
  induction d as [|d IH] using Pos.peano_ind.
  - cbn. lia.
  - rewrite Pos.iter_succ. cbn [Zdigits2 digits2_pos] in *. lia.
Qed.

Lemma shl_align_spec mx ex ex' :
  Zdigits2 (Zpos (shl_align mx ex ex').1) + (shl_align mx ex ex').2
  = Zdigits2 (Zpos mx) + ex
  /\ (shl_align mx ex ex').2 = Z.min ex ex'.
Proof.
  unfold shl_align. destruct (ex' - ex) as [|d|d] eqn:E; cbn [fst snd].
  - lia.
  - lia.
  - rewrite digits_iter_xO. lia.
Qed.

Lemma binary_round_below m e K :
  Zdigits2 (Zpos m) + e <= K -> -1074 <= K <= 1023 ->
  below (K + 1) (binary_round prec emax false m e).
Proof.
  intros HK Hrange. unfold binary_round.
  pose proof (shl_align_spec m e
                (SpecFloat.fexp prec emax (Zpos (digits2_pos m) + e))) as [Hd He].
  destruct (shl_align m e _) as [mz ez]. cbn [fst snd] in *.
  apply binary_round_aux_below; rewrite ?fexp_eq in *;
    cbn [Zdigits2] in *; lia.
Qed.

Lemma SFadd_finite mx ex my ey :
  SF64add (S754_finite false mx ex) (S754_finite false my ey)
  = binary_normalize prec emax
      (Zpos (shl_align mx ex (Z.min ex ey)).1
       + Zpos (shl_align my ey (Z.min ex ey)).1)
      (Z.min ex ey) false.
Proof. reflexivity. Qed.


Lemma SFdiv_finite sx mx ex sy my ey :
  SF64div (S754_finite sx mx ex) (S754_finite sy my ey)
  = let d1 := Zdigits2 (Zpos mx) in
    let d2 := Zdigits2 (Zpos my) in
    let e' := Z.min (Z.max (d1 + ex - (d2 + ey) - 53) (-1074)) (ex - ey) in
    let s := ex - ey - e' in
    let m' := match s with
              | 0 => Zpos mx
              | Zpos _ => Z.shiftl (Zpos mx) s
              | Zneg _ => 0
              end in
    let '(q, r) := Z.div_eucl m' (Zpos my) in
    binary_round_aux prec emax (xorb sx sy) q e' (new_location (Zpos my) r).
Proof.
  cbn zeta. unfold SF64div, SFdiv, SFdiv_core_binary.
  match goal with
  | |- context [Z.div_eucl ?a ?b] =>
      change (Z.div_eucl a b)
        with (Z.div_eucl
                match ex - ey
                      - Z.min (Z.max (Zdigits2 (Zpos mx) + ex
                                      - (Zdigits2 (Zpos my) + ey) - 53)
                                 (-1074)) (ex - ey) with
                | 0 => Zpos mx
                | Zpos _ =>
                    Z.shiftl (Zpos mx)
                      (ex - ey
                       - Z.min (Z.max (Zdigits2 (Zpos mx) + ex
                                       - (Zdigits2 (Zpos my) + ey) - 53)
                                  (-1074)) (ex - ey))
                | Zneg _ => 0
                end (Zpos my))
  end.
  destruct (Z.div_eucl _ _) as [q r]. reflexivity.
Qed.





(** *** Numbers that stay numbers *)

Lemma signed_number s x : signed s x -> x <> S754_nan.
Proof. destruct x; cbn; congruence. Qed.

Lemma below_number K x : below K x -> x <> S754_nan.
Proof. destruct x; cbn; congruence. Qed.



(** *** From comparisons to bounds and back *)

Lemma between_below x mb eb :
  valid_binary x = true ->
  SFleb (S754_zero false) x = true ->
  SFleb x (S754_finite false mb eb) = true ->
  below (53 + eb) x.
Proof.
  intros Vx H0 Hb.
  destruct x as [sx | sx | | sx mx ex]; try exact I; try discriminate.
  - destruct sx; discriminate.
  - destruct sx; [discriminate|].
    apply valid_finite in Vx. cbn [below].
    unfold SFleb, SFcompare in Hb.
    destruct (Z.compare_spec ex eb); try discriminate; lia.
Qed.



Lemma SFcompare_antisym x y :
  SFcompare y x = option_map CompOpp (SFcompare x y).
Proof.
  destruct x as [sx | sx | | sx mx ex], y as [sy | sy | | sy my ey];
    try reflexivity;
    try (destruct sx; reflexivity); try (destruct sy; reflexivity);
    try (destruct sx, sy; reflexivity).
  assert (Hm : Pos.compare_cont Eq my mx = CompOpp (Pos.compare_cont Eq mx my))
    by (rewrite Pos.compare_cont_antisym; reflexivity).
  assert (He : (ey ?= ex) = CompOpp (ex ?= ey)) by apply Z.compare_antisym.
  cbn [SFcompare option_map]. rewrite He, Hm.
  destruct sx, sy, (ex ?= ey); cbn [CompOpp]; try reflexivity;
    destruct (Pos.compare_cont Eq mx my); reflexivity.
Qed.

End Binary64.

(** ** Trend scorer *)

Section TrendScorer.
Import Analytics Scenario.
Local Open Scope float_scope.

(** Two floats whose bit-level comparison fails are different. *)
Lemma float_neq (a b : float) : Leibniz.eqb a b = false -> a <> b.
Proof.
  intros H E. apply Leibniz.eqb_spec in E. congruence.
Qed.

(** The result record of one thread that passes both filters. *)
Lemma detect_single now options t :
  inWindow now options t = true ->
  enoughEngagement options (scoreThread now options t) = true ->
  detectTrendingThreads now options [t]
  = [setRank 0 (scoreThread now options t)].
Proof.
  intros Hw He. unfold detectTrendingThreads.
  rewrite filter_cons_True by exact Hw.
  rewrite filter_nil. cbn [map].
  rewrite filter_cons_True by exact He.
  rewrite filter_nil. reflexivity.
Qed.

(** C1 (as the code computes it): with 10 likes, 5 reposts, 2 replies,
    0 bookmarks, an age of exactly two hours and the default weights,
    the weighted engagement is 23, the velocity is 23 / 2 = 11.5 and
    the score is 11.5 × √23, which lies between 55.15 and 55.16. *)
Theorem scenarioA_velocity_and_score (now : float) (t : ArenaThread) :
  now - createdDate t = 7200000 ->
  likeCount t = 10 -> repostCount t = 5 -> answerCount t = 2 ->
  bookmarkCount t = Some 0 ->
  exists s,
    detectTrendingThreads now None [t] = [s]
    /\ thread s = t /\ rank s = 1%nat
    /\ totalEngagement (metrics s) = 23
    /\ ageHours (metrics s) = 2
    /\ engagementPerHour (metrics s) = 11.5
    /\ velocityScore s = 11.5
    /\ score s = 11.5 * PrimFloat.sqrt 23
    /\ (55.15 <? score s) = true /\ (score s <? 55.16) = true.
Proof.
  intros Hage Hl Hr Ha Hb.
  exists (setRank 0 (scoreThread now None t)).
  assert (Hs : scoreThread now None t
               = {| thread := t; score := 11.5 * PrimFloat.sqrt 23;
                    velocityScore := 11.5; rank := 0;
                    metrics := {| totalEngagement := 23;
                                  engagementPerHour := 11.5;
                                  ageHours := 2 |} |}).
  { unfold scoreThread. rewrite Hage, Hl, Hr, Ha, Hb.
    vm_compute. reflexivity. }
  split.
  - apply detect_single.
    + unfold inWindow. rewrite Hage. vm_compute. reflexivity.
    + rewrite Hs. unfold enoughEngagement, rawEngagement. cbn [thread].
      rewrite Hl, Hr, Ha, Hb. vm_compute. reflexivity.
  - rewrite Hs. cbn [setRank thread rank metrics velocityScore score
                     totalEngagement ageHours engagementPerHour].
    repeat split; vm_compute; reflexivity.
Qed.

Lemma scenarioA_velocity_and_score_witness :
  exists s,
    detectTrendingThreads 1700000000000 None [scenarioA 1699992800000] = [s]
    /\ velocityScore s = 11.5
    /\ score s = 11.5 * PrimFloat.sqrt 23.
Proof.
  destruct (scenarioA_velocity_and_score 1700000000000
              (scenarioA 1699992800000))
    as (s & H1 & _ & _ & _ & _ & _ & H2 & H3 & _);
    try (vm_compute; reflexivity).
  exists s. auto.
Defined.

(** C1 (as the specification words it) is refuted: for scenario A the
    scorer returns neither a velocity of 13.0 nor a score near 62.3. *)
Lemma scenarioA_not_13 :
  let r := detectTrendingThreads 7200000 None [scenarioA 0] in
  ~ (exists s, r = [s] /\ velocityScore s = 13
               /\ (62.25 <=? score s) = true /\ (score s <=? 62.35) = true).
Proof.
  intros r (s & Hr & Hv & _).
  assert (Hs : velocityScore s = 11.5).
  { vm_compute in Hr. injection Hr as <-. reflexivity. }
  rewrite Hs in Hv. revert Hv. apply float_neq. vm_compute. reflexivity.
Qed.

(** *** Ranking *)

(** Two finite floats compare equal only when they are the same. *)
Lemma SFeqb_finite s1 m1 e1 s2 m2 e2 :
  SFeqb (S754_finite s1 m1 e1) (S754_finite s2 m2 e2) = true ->
  s1 = s2 /\ m1 = m2 /\ e1 = e2.
Proof.
  unfold SFeqb, SFcompare. intros H.
  assert (Hs : s1 = s2).
  { destruct s1, s2; try reflexivity; discriminate. }
  subst s2.
  assert (He : e1 = e2).
  { apply Z.compare_eq. destruct s1, (e1 ?= e2)%Z; try reflexivity;
      discriminate. }
  subst e2.
  assert (Hm : m1 = m2).
  { apply Pos.compare_eq. rewrite Z.compare_refl in H.
    unfold Pos.compare.
    destruct s1, (Pos.compare_cont Eq m1 m2); try reflexivity;
      discriminate. }
  auto.
Qed.

(** Two floats equal to a third one are equal to each other. *)
Lemma SFeqb_join (x y z : spec_float) :
  SFeqb x z = true -> SFeqb y z = true -> SFeqb x y = true.
Proof.
  destruct x as [sx | sx | | sx mx ex], z as [sz | sz | | sz mz ez];
    try discriminate;
    destruct y as [sy | sy | | sy my ey]; try discriminate;
    try (destruct sx, sz; discriminate);
    try (destruct sy, sz; discriminate);
    try (destruct sx, sy, sz; (discriminate || reflexivity)).
  intros Hx Hy.
  apply SFeqb_finite in Hx as (-> & -> & ->).
  pose proof Hy as Hy'. apply SFeqb_finite in Hy' as (-> & -> & ->).
  exact Hy.
Qed.

(** The comparator [b.score - a.score] is not positive on equal
    scores: the difference is a zero, or NaN for two infinities. *)
Lemma equal_scores_compare_zero (a b : float) :
  (a =? b) = true -> (0 <? b - a) = false.
Proof.
  rewrite FloatAxioms.eqb_spec, FloatAxioms.ltb_spec, FloatAxioms.sub_spec.
  change (Prim2SF 0) with (S754_zero false).
  destruct (Prim2SF a) as [sa | sa | | sa ma ea],
           (Prim2SF b) as [sb | sb | | sb mb eb];
    try discriminate;
    try (destruct sa, sb; try discriminate; intros _; reflexivity).
  intros H. apply SFeqb_finite in H as (-> & -> & ->).
  unfold SF64sub, SFsub. rewrite Z.min_id.
  unfold shl_align. rewrite Z.sub_diag. cbn [fst].
  destruct sb; cbn [cond_Zopp]; rewrite ?Z.sub_diag; reflexivity.
Qed.

(** An item is never moved behind one whose score equals its own. *)
Lemma tie_not_passed (x y v : float) :
  (x =? v) = true -> (y =? v) = true -> (0 <? y - x) = false.
Proof.
  intros Hx Hy. apply equal_scores_compare_zero.
  rewrite FloatAxioms.eqb_spec in *. eapply SFeqb_join; eassumption.
Qed.

(** The sort leaves a list alone when all its scores are equal. *)
Lemma sort_all_tied (l : list TrendingThread) :
  (forall a b, a ∈ l -> b ∈ l -> (score a =? score b) = true) ->
  Js.sort byScoreDesc l = l.
Proof.
  induction l as [|x l IH]; intros Htie; [reflexivity|].
  cbn [Js.sort foldr]. fold (Js.sort byScoreDesc l).
  rewrite IH by (intros a b Ha Hb; apply Htie; set_solver).
  destruct l as [|y l']; [reflexivity|].
  cbn [Js.sort_insert]. unfold byScoreDesc.
  rewrite equal_scores_compare_zero by (apply Htie; set_solver).
  reflexivity.
Qed.

(** When the items that pass both filters all have the same score,
    they are ranked in their input order. *)
Lemma all_tied_input_order now options (threads : list ArenaThread) :
  let scored :=
    filter (fun s => enoughEngagement options s = true)
      (map (scoreThread now options)
         (filter (fun t => inWindow now options t = true) threads)) in
  (forall a b, a ∈ scored -> b ∈ scored -> (score a =? score b) = true) ->
  detectTrendingThreads now options threads = imap setRank scored.
Proof.
  intros scored Htie. unfold detectTrendingThreads. fold scored.
  rewrite sort_all_tied by exact Htie. reflexivity.
Qed.

Lemma all_tied_input_order_example :
  map (fun s => (id (thread s), rank s))
    (detectTrendingThreads 28800000 None [older; fresher])
  = [("older"%string, 1%nat); ("fresher"%string, 2%nat)].
Proof.
  rewrite (all_tied_input_order 28800000 None [older; fresher]).
  - vm_compute. reflexivity.
  - intros a b Ha Hb. vm_compute in Ha, Hb.
    apply elem_of_cons in Ha as [-> | Ha];
      [| apply elem_of_cons in Ha as [-> | Ha];
         [| apply elem_of_nil in Ha; contradiction]];
    (apply elem_of_cons in Hb as [-> | Hb];
      [| apply elem_of_cons in Hb as [-> | Hb];
         [| apply elem_of_nil in Hb; contradiction]]);
    vm_compute; reflexivity.
Qed.

(** Inserting an item does not reorder the items of one score. *)
Lemma sort_insert_stable (v : float) (x : TrendingThread)
    (l : list TrendingThread) :
  filter (fun s => (score s =? v) = true) (Js.sort_insert byScoreDesc x l)
  = filter (fun s => (score s =? v) = true) (x :: l).
Proof.
  induction l as [|y l IH]; [reflexivity|].
  cbn [Js.sort_insert]. unfold byScoreDesc at 1.
  destruct (0 <? score y - score x) eqn:E; [|reflexivity].
  rewrite filter_cons, IH, !filter_cons.
  destruct (decide ((score y =? v) = true)) as [Hy|Hy],
           (decide ((score x =? v) = true)) as [Hx|Hx];
    try reflexivity.
  rewrite (tie_not_passed _ _ _ Hx Hy) in E. discriminate.
Qed.

Lemma sort_stable (v : float) (l : list TrendingThread) :
  filter (fun s => (score s =? v) = true) (Js.sort byScoreDesc l)
  = filter (fun s => (score s =? v) = true) l.
Proof.
  induction l as [|x l IH]; [reflexivity|].
  cbn [Js.sort foldr]. fold (Js.sort byScoreDesc l).
  rewrite sort_insert_stable, !filter_cons, IH. reflexivity.
Qed.

(** Numbering the ranks changes neither thread nor score. *)
Lemma ranked_threads (v : float) (f : nat -> TrendingThread -> TrendingThread)
    (l : list TrendingThread) :
  (forall i s, thread (f i s) = thread s /\ score (f i s) = score s) ->
  map thread (filter (fun s => (score s =? v) = true) (imap f l))
  = map thread (filter (fun s => (score s =? v) = true) l).
Proof.
  revert f. induction l as [|x l IH]; intros f Hf; [reflexivity|].
  cbn [imap]. rewrite !filter_cons.
  destruct (Hf 0%nat x) as [Ht Hs]. rewrite Hs.
  destruct (decide ((score x =? v) = true)); cbn [map];
    rewrite IH by (intros i s; apply Hf); congruence.
Qed.

(** C3 (as the code ranks): the sort compares scores only, and it is
    stable.  When no score is NaN, then for every score value the
    items with that score appear in the ranking in the order they had
    in the input, whatever their creation timestamps.  (With a NaN
    score the comparator is inconsistent and the order is the
    engine's choice.) *)
Theorem equal_scores_keep_input_order now options
    (threads : list ArenaThread) (v : float) :
  (forall t, t ∈ threads ->
             is_nan (score (scoreThread now options t)) = false) ->
  let scored :=
    filter (fun s => enoughEngagement options s = true)
      (map (scoreThread now options)
         (filter (fun t => inWindow now options t = true) threads)) in
  map thread
    (filter (fun s => (score s =? v) = true)
       (detectTrendingThreads now options threads))
  = map thread (filter (fun s => (score s =? v) = true) scored).
Proof.
  intros _ scored. unfold detectTrendingThreads. fold scored.
  rewrite ranked_threads by (intros i s; split; reflexivity).
  rewrite sort_stable. reflexivity.
Qed.

Lemma equal_scores_keep_input_order_witness :
  map thread
    (filter (fun s => (score s =? 8) = true)
       (detectTrendingThreads 28800000 None
          [older; scenarioA 21600000; fresher]))
  = [older; fresher].
Proof.
  rewrite (equal_scores_keep_input_order 28800000 None
             [older; scenarioA 21600000; fresher] 8).
  - vm_compute. reflexivity.
  - intros t Hin.
    repeat (apply elem_of_cons in Hin as [->|Hin];
            [vm_compute; reflexivity|]).
    apply elem_of_nil in Hin. contradiction.
Defined.

(** C3 (as the specification words it) is refuted: [older] and
    [fresher] have the same score 8 and different creation times, yet
    the older one is ranked first when it comes first in the input,
    and the ranking follows the input order. *)
Lemma older_ranked_first :
  exists a b,
    detectTrendingThreads 28800000 None [older; fresher] = [a; b]
    /\ score a = score b
    /\ (createdDate (thread a) <? createdDate (thread b)) = true
    /\ rank a = 1%nat /\ rank b = 2%nat
    /\ map (fun s => id (thread s))
         (detectTrendingThreads 28800000 None [fresher; older])
       = [id (thread b); id (thread a)].
Proof.
  eexists _, _. split; [vm_compute; reflexivity|].
  repeat split; vm_compute; reflexivity.
Qed.

End TrendScorer.

(** ** Range of the trend score *)

Section ScoreRange.
Import Ieee Analytics Scenario.
Local Open Scope float_scope.





Lemma safeCount_below c : Js.safeCount c = true -> below 54 (Prim2SF c).
Proof.
  unfold Js.safeCount. rewrite andb_true_iff, !leb_spec. intros [H0 Hb].
  apply (between_below _ 4503599627370496 1 (Prim2SF_valid c)); assumption.
Qed.



Lemma SFcompare_refl x : x <> S754_nan -> SFcompare x x = Some Eq.
Proof.
  destruct x as [s | s | | s m e]; intros Hx; try congruence; cbn.
  - reflexivity.
  - destruct s; reflexivity.
  - rewrite Z.compare_refl, Pos.compare_cont_refl. destruct s; reflexivity.
Qed.










End ScoreRange.

(** ** Dedup ledger *)

Section Ledger.
Import Arena Scenario.

Lemma recordEngagement_run now threadId act auth s :
  recordEngagement now threadId act auth s
  = (Returned tt,
     withEngaged
       (let m := <[engagementKey threadId act :=
                    {| action := act; timestamp := now; author := auth |}]>
                   (engagedThreads s) in
        if (1000 <? size m)%nat
        then filter (fun kv => ¬ (maxAge < now - timestamp kv.2)) m
        else m) s).
Proof.
  unfold recordEngagement, setEngaged, modify, get, mbind, M_bind. cbn.
  case_match; reflexivity.
Qed.

Lemma recordEngagement_counters now threadId act auth s :
  engagementCounters (recordEngagement now threadId act auth s).2
  = engagementCounters s.
Proof. rewrite recordEngagement_run. reflexivity. Qed.

Lemma recordEngagement_trace now threadId act auth s :
  trace (recordEngagement now threadId act auth s).2 = trace s.
Proof. rewrite recordEngagement_run. reflexivity. Qed.

(** A fresh record survives the cleanup of its own call. *)
Lemma recordEngagement_lookup now threadId act auth s :
  engagedThreads (recordEngagement now threadId act auth s).2
    !! engagementKey threadId act
  = Some {| action := act; timestamp := now; author := auth |}.
Proof.
  rewrite recordEngagement_run. cbn.
  case_match.
  - apply map_lookup_filter_Some. split.
    + apply lookup_insert_eq.
    + cbn. unfold maxAge. lia.
  - apply lookup_insert_eq.
Qed.

Lemma hasAlreadyEngaged_fresh q threadId act s e :
  engagedThreads s !! engagementKey threadId act = Some e ->
  q - timestamp e <= maxAge ->
  hasAlreadyEngaged q threadId act s = (Returned true, s).
Proof.
  intros Hl Hq.
  unfold hasAlreadyEngaged, get, mbind, M_bind. cbn. rewrite Hl.
  destruct (Z.ltb_spec maxAge (q - timestamp e)); [lia | reflexivity].
Qed.

(** A map lists exactly one entry under a key it holds. *)
Lemma one_entry_per_key (m : gmap string Engagement) key e :
  m !! key = Some e ->
  filter (fun kv => kv.1 = key) (map_to_list m) = [(key, e)].
Proof.
  intros Hl. apply Permutation_singleton_r.
  rewrite <- (insert_delete_id m key e Hl) at 1.
  rewrite map_to_list_insert by apply lookup_delete_eq.
  rewrite filter_cons_True by reflexivity.
  apply Permutation_cons; [reflexivity|].
  assert (Hnil : filter (fun kv : string * Engagement => kv.1 = key)
                   (map_to_list (delete key m)) = []).
  { destruct (filter _ (map_to_list (delete key m))) as [|[k v] l'] eqn:E;
      [reflexivity|].
    assert (Hin : (k, v) ∈ filter (fun kv : string * Engagement => kv.1 = key)
                             (map_to_list (delete key m)))
      by (rewrite E; left).
    apply list_elem_of_filter in Hin as [Hk Hin]. cbn in Hk. subst k.
    apply elem_of_map_to_list in Hin.
    rewrite lookup_delete_eq in Hin. discriminate. }
  rewrite Hnil. reflexivity.
Qed.

(** C4 (as the code records): [recordEngagement] writes with
    [Map.set].  Recording the same target and action twice leaves
    exactly one record under the key, and it holds the timestamp and
    author of the latest call; [hasAlreadyEngaged] answers true after
    either call, as long as it is asked within 48 hours of it. *)
Theorem record_twice_keeps_latest (s : State) (threadId act a1 a2 : string)
    (n1 n2 q1 q2 : Z) :
  let key := engagementKey threadId act in
  let s1 := (recordEngagement n1 threadId act a1 s).2 in
  let s2 := (recordEngagement n2 threadId act a2 s1).2 in
  q1 - n1 <= maxAge -> q2 - n2 <= maxAge ->
  engagedThreads s2 !! key
  = Some {| action := act; timestamp := n2; author := a2 |}
  /\ length (filter (fun kv => kv.1 = key) (map_to_list (engagedThreads s2)))
     = 1%nat
  /\ hasAlreadyEngaged q1 threadId act s1 = (Returned true, s1)
  /\ hasAlreadyEngaged q2 threadId act s2 = (Returned true, s2).
Proof.
  intros key s1 s2 H1 H2.
  pose proof (recordEngagement_lookup n1 threadId act a1 s) as L1.
  pose proof (recordEngagement_lookup n2 threadId act a2 s1) as L2.
  fold s1 in L1. fold s2 in L2. fold key in L1, L2.
  repeat split.
  - exact L2.
  - rewrite (one_entry_per_key _ _ _ L2). reflexivity.
  - eapply hasAlreadyEngaged_fresh; [exact L1 | exact H1].
  - eapply hasAlreadyEngaged_fresh; [exact L2 | exact H2].
Qed.

Lemma record_twice_keeps_latest_witness :
  let s1 := (recordEngagement 1000 "t1" "like" "Alice" (initialState [])).2 in
  let s2 := (recordEngagement 5000 "t1" "like" "Alice" s1).2 in
  engagedThreads s2 !! "t1:like"
  = Some {| action := "like"; timestamp := 5000; author := "Alice" |}
  /\ hasAlreadyEngaged 2000 "t1" "like" s1 = (Returned true, s1)
  /\ hasAlreadyEngaged 6000 "t1" "like" s2 = (Returned true, s2).
Proof.
  destruct (record_twice_keeps_latest (initialState []) "t1" "like"
              "Alice" "Alice" 1000 5000 2000 6000)
    as (H1 & _ & H2 & H3);
    [vm_compute; discriminate | vm_compute; discriminate |].
  repeat split; assumption.
Defined.

(** C4 (as the specification words it) is refuted: the second call is
    not a no-op, it replaces the stored timestamp. *)
Lemma second_record_overwrites :
  let s1 := (recordEngagement 1000 "t1" "like" "Alice" (initialState [])).2 in
  let s2 := (recordEngagement 5000 "t1" "like" "Alice" s1).2 in
  s2 <> s1
  /\ timestamp <$> engagedThreads s1 !! "t1:like" = Some 1000
  /\ timestamp <$> engagedThreads s2 !! "t1:like" = Some 5000.
Proof.
  intros s1 s2.
  assert (H1 : timestamp <$> engagedThreads s1 !! "t1:like" = Some 1000)
    by (vm_compute; reflexivity).
  assert (H2 : timestamp <$> engagedThreads s2 !! "t1:like" = Some 5000)
    by (vm_compute; reflexivity).
  split; [|split; [exact H1 | exact H2]].
  intros E. rewrite E in H2. congruence.
Qed.

End Ledger.

(** ** Executing decisions *)

Section Execution.
Import Arena Scenario.

Lemma getCounter_setCounter cs key key' c :
  getCounter (setCounter cs key c) key'
  = if decide (key = key') then c else getCounter cs key'.
Proof. destruct key, key'; reflexivity. Qed.

Lemma hasAlreadyEngaged_run now threadId act s :
  hasAlreadyEngaged now threadId act s
  = match engagedThreads s !! engagementKey threadId act with
    | None => (Returned false, s)
    | Some e =>
        if maxAge <? now - timestamp e
        then (Returned false,
              withEngaged (delete (engagementKey threadId act)
                             (engagedThreads s)) s)
        else (Returned true, s)
    end.
Proof.
  unfold hasAlreadyEngaged, setEngaged, modify, get, mbind, M_bind. cbn.
  repeat case_match; reflexivity.
Qed.

Lemma atCeiling_true n c : atCeiling n c = true <-> (c <= inject_Z n)%Q.
Proof. apply Qle_bool_iff. Qed.

Lemma atCeiling_false n c : atCeiling n c = false <-> (inject_Z n < c)%Q.
Proof.
  unfold atCeiling. split.
  - intros H. apply Qnot_le_lt. intros Hle.
    apply Qle_bool_iff in Hle. congruence.
  - intros H. apply not_true_is_false. intros Hle.
    apply Qle_bool_iff in Hle. exact (Qlt_not_le _ _ H Hle).
Qed.

Lemma evicted_refl now key m : evicted now key m m.
Proof. left. reflexivity. Qed.

(** The dedup check never throws, touches neither counters nor trace,
    and changes the ledger only by dropping the expired record it was
    asked about. *)
Lemma hasAlreadyEngaged_state now threadId act s :
  exists b s',
    hasAlreadyEngaged now threadId act s = (Returned b, s')
    /\ engagementCounters s' = engagementCounters s
    /\ trace s' = trace s
    /\ evicted now (engagementKey threadId act)
         (engagedThreads s) (engagedThreads s').
Proof.
  rewrite hasAlreadyEngaged_run.
  destruct (engagedThreads s !! engagementKey threadId act) as [e|] eqn:El;
    [destruct (Z.ltb_spec maxAge (now - timestamp e))|];
    eexists _, _; (split; [reflexivity|]); cbn;
    repeat split; try apply evicted_refl.
  right. exists e. auto.
Qed.

(** An eviction is not seen by a later dedup check: the records still
    honoured at the clock of the check are the same. *)
Lemma evicted_live now key m m' :
  evicted now key m m' -> live now m' = live now m.
Proof.
  intros [-> | (e & Hl & Hold & ->)]; [reflexivity|].
  unfold live. apply map_eq. intros k.
  apply option_eq. intros x.
  rewrite !map_lookup_filter_Some. cbn.
  destruct (decide (k = key)) as [->|Hk].
  - rewrite lookup_delete_eq, Hl. split.
    + intros [? _]. discriminate.
    + intros [Hx Hn]. injection Hx as <-. contradiction.
  - rewrite lookup_delete_ne by congruence. reflexivity.
Qed.

(** Recording after an eviction under the same key gives the ledger
    that recording alone gives. *)
Lemma recordEngagement_evicted q now threadId act auth s s1 :
  evicted q (engagementKey threadId act)
    (engagedThreads s) (engagedThreads s1) ->
  engagedThreads (recordEngagement now threadId act auth s1).2
  = engagedThreads (recordEngagement now threadId act auth s).2.
Proof.
  intros Hev. rewrite !recordEngagement_run.
  cbn [snd withEngaged engagedThreads].
  destruct Hev as [-> | (e & _ & _ & ->)]; [reflexivity|].
  rewrite insert_delete_eq. reflexivity.
Qed.

Lemma attempt_run t cfg c key dedupId act nd d call s :
  attempt t cfg c key dedupId act nd d call s
  = if atCeiling (count (getCounter (engagementCounters s) key))
         (ceiling cfg key)
    then (Returned tt, withEvent (EvSkip BudgetExhausted act (cand_id c)) s)
    else
      let '(engaged, s1) := hasAlreadyEngaged (nowDedup t) dedupId act s in
      match engaged with
      | Returned true =>
          (Returned tt, withEvent (EvSkip AlreadyEngaged act (cand_id c)) s1)
      | Returned false =>
          if (nd && noDraft d)%bool
          then (Returned tt, withEvent (EvSkip NoDraft act (cand_id c)) s1)
          else if clientOk t
          then
            let s2 := withEvent (EvClient call true) s1 in
            let cs := engagementCounters s2 in
            let s3 := withCounters
                        (setCounter cs key
                           {| count := count (getCounter cs key) + 1;
                              resetAt := resetAt (getCounter cs key) |}) s2 in
            let s4 := (recordEngagement (nowRecord t) dedupId act
                         (cand_author c) s3).2 in
            (Returned tt, withEvent (EvLogEngagement act (cand_id c)) s4)
          else (Thrown, withEvent (EvClient call false) s1)
      | Thrown => (Thrown, s1)
      end.
Proof.
  unfold attempt. unfold mbind at 1. unfold M_bind at 1. unfold get at 1.
  destruct (atCeiling _ _); [reflexivity|].
  unfold mbind at 1. unfold M_bind at 1.
  rewrite hasAlreadyEngaged_run.
  destruct (engagedThreads s !! engagementKey dedupId act) as [e|];
    [destruct (maxAge <? nowDedup t - timestamp e)|];
    try reflexivity;
    (destruct (nd && noDraft d)%bool; [reflexivity|]);
    unfold client, emit, logEngagement, incrementCount, setCounters,
      modify, throw, get, mbind, M_bind, mret, M_ret;
    destruct (clientOk t); cbn; rewrite ?recordEngagement_run; reflexivity.
Qed.

(** Every gated attempt either resolves its platform call and is
    charged, or leaves counters and ledger as they were. *)
Lemma attempt_cases `{host : Js.LowerCase} t cfg c act nd d call s :
  budgetKey act = Some (budgetOf call) ->
  let r := attempt t cfg c (budgetOf call) (dedupId c act) act nd d call s in
  (r.1 = Returned tt /\ charged t cfg c act call s r.2)
  \/ ((clientOk t = false \/ r.1 = Returned tt)
      /\ untouched t (dedupKey c act) s r.2).
Proof.
  intros Hkey. cbn zeta. rewrite attempt_run.
  destruct (atCeiling _ _) eqn:Hroom.
  { right. split; [right; reflexivity|]. repeat split.
    - apply evicted_refl.
    - eexists. split; [reflexivity|]. reflexivity. }
  apply atCeiling_false in Hroom.
  destruct (hasAlreadyEngaged_state (nowDedup t) (dedupId c act) act s)
    as (b & s1 & -> & Hcs & Htr & Hexp).
  destruct b.
  { right. split; [right; reflexivity|]. repeat split; cbn.
    - exact Hcs.
    - exact Hexp.
    - eexists. rewrite Htr. split; reflexivity. }
  destruct (nd && noDraft d)%bool.
  { right. split; [right; reflexivity|]. repeat split; cbn.
    - exact Hcs.
    - exact Hexp.
    - eexists. rewrite Htr. split; reflexivity. }
  destruct (clientOk t) eqn:Hok.
  - left. split; [reflexivity|]. unfold charged.
    cbn [snd withEvent engagementCounters trace engagedThreads].
    rewrite recordEngagement_counters, recordEngagement_trace.
    cbn [snd withEvent withCounters engagementCounters trace].
    rewrite Hcs, Htr, <- app_assoc.
    repeat split; try assumption.
    + rewrite !recordEngagement_run.
      cbn [snd withEngaged withCounters withEvent engagedThreads].
      destruct Hexp as [-> | (e & _ & _ & ->)]; [reflexivity|].
      rewrite insert_delete_eq. reflexivity.
    + apply recordEngagement_lookup.
  - right. split; [left; reflexivity|]. repeat split; cbn.
    + exact Hcs.
    + exact Hexp.
    + eexists. rewrite Htr. split; reflexivity.
Qed.

Lemma executeEngagementDecision_cases `{host : Js.LowerCase} t cfg c d s :
  let r := executeEngagementDecision t cfg c d s in
  (r.1 = Returned tt
   /\ exists call, charged t cfg c (dec_action d) call s r.2)
  \/ ((clientOk t = false \/ r.1 = Returned tt)
      /\ untouched t (dedupKey c (dec_action d)) s r.2).
Proof.
  cbn zeta. unfold executeEngagementDecision.
  repeat case_decide;
    try match goal with
        | H : dec_action d = ?act
          |- context [attempt _ _ _ _ _ _ ?nd _ ?call] =>
            rewrite H;
            destruct (attempt_cases t cfg c act nd d call s eq_refl)
              as [[Hr Hc] | Hu];
            [left; split; [exact Hr | exists call; exact Hc]
            | right; exact Hu]
        end.
  right. split; [right; reflexivity|]. repeat split.
  - apply evicted_refl.
  - eexists. split; reflexivity.
Qed.

(** C10: the counter is incremented and the dedup record inserted
    only after the platform call resolved.  An execution either shows
    the resolved call in the trace, with the counter one higher and
    the record in the ledger, or leaves every counter as it was and
    inserts nothing.  When the call throws it is the latter: every
    counter is unchanged and the ledger, as the dedup check reads it,
    is unchanged; the stored map is the same too, unless the dedup
    check that precedes the call has dropped this candidate's own
    record because it was older than 48 hours. *)
Theorem charge_and_record_follow_the_call `{host : Js.LowerCase} t cfg c d s :
  let r := executeEngagementDecision t cfg c d s in
  let key := dedupKey c (dec_action d) in
  ((exists call, charged t cfg c (dec_action d) call s r.2)
   \/ untouched t key s r.2)
  /\ (clientOk t = false ->
      engagementCounters r.2 = engagementCounters s
      /\ live (nowDedup t) (engagedThreads r.2)
         = live (nowDedup t) (engagedThreads s)
      /\ evicted (nowDedup t) key (engagedThreads s) (engagedThreads r.2)
      /\ forall k, engagedThreads s !! k = None ->
                   engagedThreads r.2 !! k = None).
Proof.
  cbn zeta.
  destruct (executeEngagementDecision_cases t cfg c d s)
    as [[_ [call Hc]] | [_ Hu]].
  - split; [left; eauto|].
    intros Hko. destruct Hc as [Hok _]. congruence.
  - split; [right; exact Hu|].
    intros _. destruct Hu as (Hcs & Hexp & _).
    split; [exact Hcs|]. split; [exact (evicted_live _ _ _ _ Hexp)|].
    split; [exact Hexp|].
    intros k Hk. destruct Hexp as [-> | (e & _ & _ & ->)]; [exact Hk|].
    destruct (decide (k = dedupKey c (dec_action d))) as [->|Hne].
    + apply lookup_delete_eq.
    + rewrite lookup_delete_ne by congruence. exact Hk.
Qed.

Lemma charge_and_record_follow_the_call_witness :
  engagementCounters
    (executeEngagementDecision (offline 1000 likeIt 0) defaultConfig t1
       likeIt (initialState [snapshot12])).2
  = initialCounters.
Proof.
  exact (proj1 (proj2 (charge_and_record_follow_the_call
                         (offline 1000 likeIt 0) defaultConfig t1 likeIt
                         (initialState [snapshot12])) eq_refl)).
Defined.

(** The one case in which a failed call leaves another stored map:
    after a pass that liked [t1] at clock 1000, a like on [t1] is
    attempted 48 hours and one second later while the platform is
    down.  The dedup check drops the expired record of [t1] before
    the call throws; a dedup check at that clock answers the same
    before and after. *)
Lemma failed_call_evicts_expired_record :
  let s1 := (engagementTick defaultConfig true (calm 1000 likeIt)
               (initialState [snapshot12])).2 in
  let r := executeEngagementDecision (offline 172802000 likeIt 0)
             defaultConfig t1 likeIt s1 in
  r.1 = Thrown
  /\ engagedThreads s1 !! "t1:like"
     = Some {| action := "like"; timestamp := 1000; author := "Alice" |}
  /\ engagedThreads r.2 !! "t1:like" = None
  /\ live 172802000 (engagedThreads r.2) = live 172802000 (engagedThreads s1).
Proof.
  intros s1 r.
  split; [vm_compute; reflexivity|].
  split; [vm_compute; reflexivity|].
  split; [vm_compute; reflexivity|].
  apply (evicted_live 172802000 "t1:like"). right.
  eexists. split; [vm_compute; reflexivity|].
  split; [vm_compute; reflexivity|].
  vm_compute. reflexivity.
Qed.

End Execution.

(** ** The engagement pass *)

Section Pass.
Import Arena Scenario.

(** C2 (evaluated on the code): the oracle wants a like on both
    candidates and the platform call for the first one throws.  The
    exception leaves [runEngagementPass]: the pass ends with [Thrown]
    after the failed call, the second candidate is never evaluated,
    and only the timer callback catches the error. *)
Theorem failed_action_aborts_pass :
  let s0 := initialState [snapshot12] in
  let r := runEngagementPass defaultConfig true
             (firstCallFails 1000 likeIt) s0 in
  r.1 = Thrown
  /\ trace r.2 = [EvEvaluate "t1"; EvClient (likeThread "t1") false]
  /\ (engagementTick defaultConfig true (firstCallFails 1000 likeIt) s0).1
     = Returned tt
  /\ trace (engagementTick defaultConfig true
              (firstCallFails 1000 likeIt) s0).2
     = trace r.2.
Proof. repeat split; vm_compute; reflexivity. Qed.

Lemma ensureEngagementRoom_run roomOk s :
  ensureEngagementRoom roomOk s
  = if engagementRoomReady s then (Returned tt, s)
    else if roomOk then (Returned tt, withRoomReady true s)
    else (Thrown, s).
Proof.
  unfold ensureEngagementRoom, get, setRoomReady, modify, throw,
    mbind, M_bind, mret, M_ret.
  destruct (engagementRoomReady s); [|destruct roomOk]; reflexivity.
Qed.

(** Whatever follows a candidate whose execution throws is never
    looked at. *)
Lemma thrown_action_skips_the_rest `{host : Js.LowerCase} cfg world i c rest s :
  (passLoop cfg world i [c] s).1 = Thrown ->
  passLoop cfg world i (c :: rest) s = passLoop cfg world i [c] s.
Proof.
  cbn [passLoop]. unfold mbind, M_bind, mret, M_ret, emit, modify.
  destruct (exceededEngagementBudget (nowBudget (world i)) cfg s)
    as [[[|] |] s1]; try reflexivity.
  destruct (decision (world i)) as [d|]; [|discriminate].
  case_decide; [discriminate|].
  destruct (executeEngagementDecision (world i) cfg c d _) as [[[]|] s3];
    [discriminate | reflexivity].
Qed.

End Pass.

(** ** Hourly budgets *)

Section Budget.
Import Arena Scenario.

Lemma getCounter_resetIfNeeded now key key' cs :
  getCounter (resetIfNeeded now key cs) key'
  = if decide (key = key')
    then (if resetAt (getCounter cs key) <? now
          then {| count := 0; resetAt := now + hourMs |}
          else getCounter cs key)
    else getCounter cs key'.
Proof.
  unfold resetIfNeeded.
  destruct (resetAt (getCounter cs key) <? now).
  - apply getCounter_setCounter.
  - case_decide; congruence.
Qed.

(** What the budget check does to one counter. *)
Lemma exceededEngagementBudget_counter now cfg s key :
  getCounter (engagementCounters (exceededEngagementBudget now cfg s).2) key
  = if resetAt (getCounter (engagementCounters s) key) <? now
    then {| count := 0; resetAt := now + hourMs |}
    else getCounter (engagementCounters s) key.
Proof.
  unfold exceededEngagementBudget, setCounters, modify, get,
    mbind, M_bind, mret, M_ret.
  cbn [snd withCounters engagementCounters].
  rewrite !getCounter_resetIfNeeded.
  destruct key; repeat case_decide; try congruence; reflexivity.
Qed.

Lemma exceededEngagementBudget_rest now cfg s :
  let r := exceededEngagementBudget now cfg s in
  trace r.2 = trace s /\ engagedThreads r.2 = engagedThreads s.
Proof. split; reflexivity. Qed.

(** The check answers whether all four counters sit at their
    ceilings after the resets. *)
Lemma exceededEngagementBudget_verdict now cfg s :
  let r := exceededEngagementBudget now cfg s in
  r.1 = Returned
          (forallb (fun key =>
                      atCeiling
                        (count (getCounter (engagementCounters r.2) key))
                        (ceiling cfg key))
             [likes; reposts; replies; follows]).
Proof.
  cbn [forallb]. rewrite andb_true_r, !andb_assoc. reflexivity.
Qed.











(** The pass of the witness, evaluated: the like budget was used up
    (10 of 10) and its window ended at clock 3601000; at clock
    3601001 both candidates are liked and the counter stands at 2 in
    a window that ends at 7201001. *)
Lemma expired_window_pass_example :
  let r := runEngagementPass defaultConfig true (calm 3601001 likeIt)
             likesExhausted in
  getCounter (engagementCounters likesExhausted) likes
  = {| count := 10; resetAt := 3601000 |}
  /\ r.1 = Returned tt
  /\ trace r.2 = [EvEvaluate "t1"; EvClient (likeThread "t1") true;
                  EvLogEngagement "like" "t1";
                  EvEvaluate "t2"; EvClient (likeThread "t2") true;
                  EvLogEngagement "like" "t2"]
  /\ getCounter (engagementCounters r.2) likes
     = {| count := 2; resetAt := 7201001 |}.
Proof. vm_compute. repeat split. Qed.


Lemma successes_app key tr1 tr2 :
  successes key (tr1 ++ tr2) = (successes key tr1 + successes key tr2)%nat.
Proof. unfold successes. rewrite filter_app, length_app. reflexivity. Qed.

(** One step inside a window of [key]: the window end stays, the
    count grows by the resolved calls charged to [key], and a call
    was charged only while the count was below the ceiling. *)
Lemma runOp_in_window `{host : Js.LowerCase} cfg key R o s :
  (forall now, o = OpCheck now -> now <= R) ->
  resetAt (getCounter (engagementCounters s) key) = R ->
  let s' := runOp cfg s o in
  resetAt (getCounter (engagementCounters s') key) = R
  /\ exists tr,
       trace s' = trace s ++ tr
       /\ count (getCounter (engagementCounters s') key)
          = count (getCounter (engagementCounters s) key)
            + Z.of_nat (successes key tr)
       /\ (successes key tr = 0%nat
           \/ (successes key tr = 1%nat
               /\ (inject_Z (count (getCounter (engagementCounters s) key))
                   < ceiling cfg key)%Q)).
Proof.
  intros Hnow HR. destruct o as [now | t c d]; cbn [runOp].
  - rewrite exceededEngagementBudget_counter.
    specialize (Hnow now eq_refl).
    destruct (Z.ltb_spec (resetAt (getCounter (engagementCounters s) key))
                now); [lia|].
    split; [exact HR|].
    exists []. rewrite app_nil_r. split; [reflexivity|].
    split; [cbn; lia | left; reflexivity].
  - destruct (executeEngagementDecision_cases t cfg c d s)
      as [[_ [call Hc]] | [_ Hu]].
    + destruct Hc as (_ & _ & Hroom & Hcs & Htr & _).
      rewrite Hcs, getCounter_setCounter.
      destruct (decide (budgetOf call = key)) as [Hk|Hk].
      * subst key. cbn [count resetAt].
        split; [exact HR|].
        eexists. split; [exact Htr|].
        unfold successes.
        rewrite filter_cons_True
          by (cbn; apply bool_decide_eq_true; reflexivity).
        rewrite filter_cons_False by (cbn; discriminate).
        split; [cbn; lia|]. right. split; [reflexivity | exact Hroom].
      * split; [exact HR|].
        eexists. split; [exact Htr|].
        unfold successes.
        rewrite filter_cons_False
          by (cbn; rewrite bool_decide_eq_false_2 by exact Hk;
              discriminate).
        rewrite filter_cons_False by (cbn; discriminate).
        split; [cbn; lia | left; reflexivity].
    + destruct Hu as (Hcs & _ & ev & Htr & Hno).
      rewrite Hcs. split; [exact HR|].
      eexists. split; [exact Htr|].
      unfold successes.
      rewrite filter_cons_False by (rewrite Hno; discriminate).
      split; [cbn; lia | left; reflexivity].
Qed.

Lemma runOps_in_window `{host : Js.LowerCase} cfg key R ops : forall s,
  (forall now, OpCheck now ∈ ops -> now <= R) ->
  resetAt (getCounter (engagementCounters s) key) = R ->
  let s' := runOps cfg ops s in
  exists tr,
    trace s' = trace s ++ tr
    /\ count (getCounter (engagementCounters s') key)
       = count (getCounter (engagementCounters s) key)
         + Z.of_nat (successes key tr)
    /\ (successes key tr = 0%nat
        \/ (inject_Z (count (getCounter (engagementCounters s') key))
            < ceiling cfg key + 1)%Q).
Proof.
  induction ops as [|o ops IH]; intros s Hnow HR; cbn zeta.
  - exists []. rewrite app_nil_r.
    split; [reflexivity|]. split; [cbn; lia | left; reflexivity].
  - cbn [runOps foldl]. fold (runOps cfg ops (runOp cfg s o)).
    destruct (runOp_in_window cfg key R o s)
      as (HR1 & tr1 & Ht1 & Hc1 & Hs1); try assumption.
    { intros now ->. apply Hnow. left. }
    destruct (IH (runOp cfg s o)) as (tr2 & Ht2 & Hc2 & Hs2);
      try assumption.
    { intros now Hin. apply Hnow. right. exact Hin. }
    exists (tr1 ++ tr2). rewrite Ht2, Ht1, app_assoc, successes_app.
    split; [reflexivity|]. split; [lia|].
    destruct Hs2 as [H0 | Hlt]; [|right; exact Hlt].
    destruct Hs1 as [H0' | [H1 Hroom]]; [left; lia|].
    right. rewrite Hc2, Hc1, H0, H1.
    replace (count (getCounter (engagementCounters s) key)
             + Z.of_nat 1 + Z.of_nat 0)
      with (count (getCounter (engagementCounters s) key) + 1) by lia.
    rewrite inject_Z_plus. apply Qplus_lt_l. exact Hroom.
Qed.

(** C7 (as the code counts): take any sequence of budget checks and
    decision executions that stays inside one window of a counter (no
    check reads a clock past its [resetAt]), starting with that
    counter at 0.  The counter then equals the number of resolved
    platform calls charged to it (quotes are charged to the repost
    counter).  A call is charged only while the counter is below the
    ceiling, so the counter stays below the ceiling plus one; under a
    whole-number ceiling [n] it is at most [n] (at most 0 for a
    negative one).  Calls that throw are not counted. *)
Theorem hourly_budget_respected `{host : Js.LowerCase} cfg key ops s :
  (forall now, OpCheck now ∈ ops ->
               now <= resetAt (getCounter (engagementCounters s) key)) ->
  count (getCounter (engagementCounters s) key) = 0 ->
  let s' := runOps cfg ops s in
  let executed := successes key (drop (length (trace s)) (trace s')) in
  count (getCounter (engagementCounters s') key) = Z.of_nat executed
  /\ (executed = 0%nat
      \/ (inject_Z (Z.of_nat executed) < ceiling cfg key + 1)%Q)
  /\ (forall n : Z, (ceiling cfg key == inject_Z n)%Q ->
                    Z.of_nat executed <= Z.max 0 n).
Proof.
  intros Hnow H0 s' executed.
  destruct (runOps_in_window cfg key _ ops s Hnow eq_refl)
    as (tr & Htr & Hc & Hs).
  fold s' in Htr, Hc, Hs.
  assert (He : executed = successes key tr).
  { unfold executed. rewrite Htr, drop_app_length. reflexivity. }
  assert (Hcount : count (getCounter (engagementCounters s') key)
                   = Z.of_nat executed) by (rewrite He; lia).
  assert (Hbound : executed = 0%nat
                   \/ (inject_Z (Z.of_nat executed) < ceiling cfg key + 1)%Q).
  { destruct Hs as [H | H]; [left; congruence|].
    right. rewrite <- Hcount. exact H. }
  split; [exact Hcount|]. split; [exact Hbound|].
  intros n Hn. destruct Hbound as [-> | Hlt]; [cbn; lia|].
  rewrite Hn in Hlt. change 1%Q with (inject_Z 1) in Hlt.
  rewrite <- inject_Z_plus, <- Zlt_Qlt in Hlt. lia.
Qed.

Lemma hourly_budget_respected_witness :
  let s0 := (exceededEngagementBudget 1000 twoReposts
               (initialState [])).2 in
  let s' := runOps twoReposts
              [OpExecute (calm 1001 repostIt 0) t1 repostIt;
               OpCheck 2000;
               OpExecute (calm 2001 quoteIt 0) t2 quoteIt;
               OpCheck 3000;
               OpExecute (calm 3001 repostIt 0) t3 repostIt] s0 in
  count (getCounter (engagementCounters s') reposts) = 2
  /\ trace s' = [EvClient (repostThread "t1") true;
                 EvLogEngagement "repost" "t1";
                 EvClient (quoteThread "t2" "Worth a look.") true;
                 EvLogEngagement "quote" "t2";
                 EvSkip BudgetExhausted "repost" "t3"].
Proof.
  intros s0 s'.
  destruct (hourly_budget_respected twoReposts reposts
              [OpExecute (calm 1001 repostIt 0) t1 repostIt;
               OpCheck 2000;
               OpExecute (calm 2001 quoteIt 0) t2 quoteIt;
               OpCheck 3000;
               OpExecute (calm 3001 repostIt 0) t3 repostIt] s0)
    as (H1 & _ & _).
  - intros now Hin.
    repeat (apply elem_of_cons in Hin as [Hin|Hin];
            [try discriminate; injection Hin as ->; vm_compute;
             discriminate|]).
    apply elem_of_nil in Hin. contradiction.
  - reflexivity.
  - split; [|vm_compute; reflexivity].
    fold s' in H1. rewrite H1. vm_compute. reflexivity.
Defined.

(** C7 (as the specification words it) is refuted.  The ceilings are
    read as any finite number: under a like ceiling of 2.5 three
    likes resolve inside one window, which leaves the counter at 3,
    above the ceiling; the fourth attempt is refused. *)
Lemma fractional_ceiling_is_exceeded :
  let s0 := (exceededEngagementBudget 1000 fractional (initialState [])).2 in
  let s' := runOps fractional
              [OpExecute (calm 1001 likeIt 0) t1 likeIt;
               OpCheck 2000;
               OpExecute (calm 2001 likeIt 0) t2 likeIt;
               OpCheck 3000;
               OpExecute (calm 3001 likeIt 0) t3 likeIt;
               OpCheck 4000;
               OpExecute (calm 4001 likeIt 0) t1 likeIt] s0 in
  resetAt (getCounter (engagementCounters s0) likes) = 3601000
  /\ getCounter (engagementCounters s') likes
     = {| count := 3; resetAt := 3601000 |}
  /\ successes likes (trace s') = 3%nat
  /\ (ceiling fractional likes < inject_Z 3)%Q
  /\ last (trace s') = Some (EvSkip BudgetExhausted "like" "t1").
Proof. vm_compute. repeat split. Qed.

(** What the ceiling bounds is the resolved calls.  A call that throws
    is not charged, so the budget check admits the next attempt of the
    kind: under a ceiling of one like the platform sees two like calls
    in one window, the first of which failed; the third attempt is
    refused. *)
Lemma thrown_call_is_not_charged :
  let s0 := (exceededEngagementBudget 1000 oneLike (initialState [])).2 in
  let s' := runOps oneLike
              [OpExecute (offline 1001 likeIt 0) t1 likeIt;
               OpExecute (calm 2001 likeIt 0) t1 likeIt;
               OpExecute (calm 3001 likeIt 0) t2 likeIt] s0 in
  trace s' = [EvClient (likeThread "t1") false;
              EvClient (likeThread "t1") true;
              EvLogEngagement "like" "t1";
              EvSkip BudgetExhausted "like" "t2"]
  /\ count (getCounter (engagementCounters s') likes) = 1.
Proof. vm_compute. split; reflexivity. Qed.

(** Under any ceiling that lets a like through, any number of like
    calls that throw pass the budget check of one window. *)
Lemma thrown_calls_are_not_bounded `{host : Js.LowerCase} cfg s (n : nat) :
  (inject_Z (count (getCounter (engagementCounters s) likes))
   < ceiling cfg likes)%Q ->
  engagedThreads s !! dedupKey t1 "like" = None ->
  let s' := runOps cfg
              (replicate n (OpExecute (offline 1001 likeIt 0) t1 likeIt)) s in
  trace s' = trace s ++ replicate n (EvClient (likeThread "t1") false)
  /\ engagementCounters s' = engagementCounters s.
Proof.
  intros Hroom Hfree. cbn zeta. revert s Hroom Hfree.
  induction n as [|n IH]; intros s Hroom Hfree.
  - cbn. rewrite app_nil_r. split; reflexivity.
  - cbn [replicate].
    change (runOps cfg (?o :: ?l) s) with (runOps cfg l (runOp cfg s o)).
    set (s1 := runOp cfg s (OpExecute (offline 1001 likeIt 0) t1 likeIt)).
    assert (H1 : trace s1 = trace s ++ [EvClient (likeThread "t1") false]
                 /\ engagementCounters s1 = engagementCounters s
                 /\ engagedThreads s1 = engagedThreads s).
    { unfold s1. cbn [runOp]. unfold executeEngagementDecision.
      rewrite decide_True by reflexivity. rewrite attempt_run.
      apply atCeiling_false in Hroom. rewrite Hroom.
      rewrite hasAlreadyEngaged_run.
      change (engagementKey (cand_id t1) "like") with (dedupKey t1 "like").
      rewrite Hfree. cbn. repeat split. }
    destruct H1 as (Ht1 & Hc1 & Hl1).
    destruct (IH s1) as (Ht & Hc).
    + rewrite Hc1. exact Hroom.
    + rewrite Hl1. exact Hfree.
    + rewrite Ht, Ht1, Hc, Hc1, <- app_assoc. split; reflexivity.
Qed.

End Budget.

(** ** Reply dedup across the two services *)

Section TwoLedgers.
Import Arena Scenario.

(** The monitor does not touch a thread it has marked as replied. *)
Lemma processMention_skips_replied t m (s : Mentions.State) threadId :
  Mentions.threadIdOf m = Some threadId ->
  Mentions.hasRepliedToThread s threadId = true ->
  Mentions.processMention t m s = s.
Proof.
  intros Hid Hrep. unfold Mentions.processMention.
  rewrite Hid, Hrep. reflexivity.
Qed.

(** C6 (evaluated on the code): the two pipelines do not gate each
    other, in either direction.  The monitor replies to [t1] and
    marks it in [repliedThreads], the set the repository's reply and
    quote actions consult as their duplicate guard; the engagement
    service consults only its own [engagedThreads], answers "not
    engaged" for [(t1, reply)], and its next pass posts a second
    reply to [t1].  In the other order, the engagement service
    replies to [t1] and records it; the monitor consults only
    [repliedThreads], answers "not replied", and posts its own reply
    to [t1]. *)
Theorem reply_ledgers_are_not_shared :
  let p1 := Process.mentionScan replying [mentionOnT1] fresh in
  let p2 := Process.engagementTick defaultConfig true
              (calm 1000 replyIt) p1 in
  let q1 := Process.engagementTick defaultConfig true
              (calm 1000 replyIt) fresh in
  let q2 := Process.mentionScan replying [mentionOnT1] q1 in
  (Mentions.posted (Process.monitor p1) = ["t1"]
   /\ Mentions.hasRepliedToThread (Process.monitor p1) "t1" = true
   /\ (hasAlreadyEngaged 1000 "t1" "reply" (Process.service p1)).1
      = Returned false
   /\ trace (Process.service p2)
      = [EvEvaluate "t1"; EvClient (replyToThread "t1" "Agreed.") true;
         EvLogEngagement "reply" "t1"])
  /\ (trace (Process.service q1)
      = [EvEvaluate "t1"; EvClient (replyToThread "t1" "Agreed.") true;
         EvLogEngagement "reply" "t1"]
      /\ (hasAlreadyEngaged 1000 "t1" "reply" (Process.service q1)).1
         = Returned true
      /\ Mentions.hasRepliedToThread (Process.monitor q1) "t1" = false
      /\ Mentions.posted (Process.monitor q2) = ["t1"]).
Proof. repeat split; vm_compute; reflexivity. Qed.

End TwoLedgers.

(** ** Timer discipline *)

Section TimerDiscipline.
Import Timers.

Lemma step_keeps_single t l t' :
  (armed t + inFlight t <= 1)%nat ->
  step l t = Some t' ->
  (armed t' + inFlight t' <= 1)%nat.
Proof.
  intros Hinv. destruct t as [st a f], l; cbn in *.
  - destruct a; [discriminate|]. intros [= <-]. cbn. lia.
  - destruct f; [discriminate|]. unfold scheduleNext. cbn.
    destruct st; intros [= <-]; cbn; lia.
  - intros [= <-]. cbn. lia.
Qed.

Lemma run_keeps_single ls : forall t t',
  (armed t + inFlight t <= 1)%nat ->
  run ls t = Some t' ->
  (armed t' + inFlight t' <= 1)%nat.
Proof.
  induction ls as [|l ls IH]; intros t t' Hinv; cbn.
  - intros [= <-]. exact Hinv.
  - destruct (step l t) as [t1|] eqn:Es; [|discriminate].
    apply IH. eapply step_keeps_single; eassumption.
Qed.

(** C5 (as the code schedules): for the posting, discovery and
    engagement tasks of [ArenaService], in every state reachable by
    timer firings, body completions and [stop()], at most one body is
    in flight, no timeout is armed while a body runs, and the
    completion of the body, by success or failure, is what arms the
    next timeout (unless the service is stopping). *)
Theorem self_rescheduling_never_overlaps (t0 t : Task) (ls : list Label) :
  t0 = started \/ t0 = startedImmediately ->
  run ls t0 = Some t ->
  (inFlight t <= 1)%nat
  /\ ((0 < inFlight t)%nat -> armed t = 0%nat)
  /\ (forall t', step Settle t = Some t' ->
                 inFlight t' = 0%nat
                 /\ armed t' = if stopping t then 0%nat else 1%nat).
Proof.
  intros Hinit Hrun.
  assert (Hinv : (armed t + inFlight t <= 1)%nat).
  { eapply run_keeps_single; [|exact Hrun].
    destruct Hinit as [-> | ->]; cbn; lia. }
  split; [lia|]. split; [lia|].
  intros t'. destruct t as [st a f]. cbn in *.
  destruct f; [discriminate|]. unfold scheduleNext. cbn.
  destruct st; intros [= <-]; cbn; split; lia.
Qed.

Lemma self_rescheduling_never_overlaps_witness :
  run [Fire; Settle; Fire] started
  = Some {| stopping := false; armed := 0; inFlight := 1 |}
  /\ (1 <= 1)%nat.
Proof.
  split; [reflexivity|].
  exact (proj1 (self_rescheduling_never_overlaps started _
                  [Fire; Settle; Fire] (or_introl eq_refl) eq_refl)).
Defined.

(** C5 (as the specification words it) is refuted for mention
    scanning: the interval timer fires on a fixed cadence whether or
    not the previous scan has settled, so two scans are in flight
    after two firings, with the interval still armed. *)
Lemma mention_scans_overlap :
  mrun [IntervalFire; IntervalFire] monitoring
  = Some {| firstScan := true; interval := true; scans := 2 |}.
Proof. reflexivity. Qed.

End TimerDiscipline.

(** * Further properties of the code *)

(** ** The dedup ledger in use *)

Section LedgerUse.
Import Arena Observe Scenario.

(** Writing a record leaves every other key as it was, except that an
    expired record may be dropped, and only when the ledger has grown
    past 1000 entries. *)
Lemma recordEngagement_other_key now threadId act auth s k :
  k <> engagementKey threadId act ->
  let m := engagedThreads s in
  let m' := engagedThreads (recordEngagement now threadId act auth s).2 in
  m' !! k = m !! k
  \/ (m' !! k = None
      /\ (1000 < size (<[engagementKey threadId act :=
                          {| action := act; timestamp := now;
                             author := auth |}]> m))%nat
      /\ exists e, m !! k = Some e /\ maxAge < now - timestamp e).
Proof.
  intros Hk m m'. unfold m'. rewrite recordEngagement_run.
  cbn [snd withEngaged engagedThreads]. fold m.
  destruct (Nat.ltb_spec 1000
              (size (<[engagementKey threadId act :=
                        {| action := act; timestamp := now;
                           author := auth |}]> m))) as [Hbig|Hsmall].
  - destruct (m !! k) as [e|] eqn:El.
    + destruct (Z_lt_dec maxAge (now - timestamp e)) as [Hold|Hyoung].
      * right. split; [|split; [exact Hbig | eauto]].
        apply map_lookup_filter_None. right. intros e' He'.
        rewrite lookup_insert_ne in He' by congruence.
        assert (e' = e) by congruence. subst e'. cbn. tauto.
      * left. apply map_lookup_filter_Some. split.
        -- rewrite lookup_insert_ne by congruence. exact El.
        -- exact Hyoung.
    + left. apply map_lookup_filter_None. left.
      rewrite lookup_insert_ne by congruence. exact El.
  - left. apply lookup_insert_ne. congruence.
Qed.

(** X3: [recordEngagement] never drops a record that is younger than
    48 hours, never drops anything while the ledger holds at most
    1000 records, and never adds a record under another key; once the
    ledger has grown past 1000 records, the write leaves no record
    older than 48 hours behind. *)
Theorem recordEngagement_keeps_unexpired now threadId act auth s :
  let key := engagementKey threadId act in
  let fresh := {| action := act; timestamp := now; author := auth |} in
  let m := engagedThreads s in
  let m' := engagedThreads (recordEngagement now threadId act auth s).2 in
  (forall k e, k <> key -> m !! k = Some e ->
               now - timestamp e <= maxAge -> m' !! k = Some e)
  /\ ((size (<[key := fresh]> m) <= 1000)%nat -> m' = <[key := fresh]> m)
  /\ (forall k e, k <> key -> m' !! k = Some e -> m !! k = Some e)
  /\ ((1000 < size (<[key := fresh]> m))%nat ->
      forall k e, m' !! k = Some e -> now - timestamp e <= maxAge).
Proof.
  intros key fresh m m'.
  split; [|split; [|split]].
  - intros k e Hk El Hyoung.
    destruct (recordEngagement_other_key now threadId act auth s k Hk)
      as [Heq | (_ & _ & e' & El' & Hold)].
    + unfold m, m' in *. congruence.
    + unfold m in *. assert (e' = e) by congruence. subst e'. lia.
  - intros Hsmall. unfold m'. rewrite recordEngagement_run.
    cbn [snd withEngaged engagedThreads]. fold m key fresh.
    destruct (Nat.ltb_spec 1000 (size (<[key := fresh]> m)));
      [lia | reflexivity].
  - intros k e Hk El'.
    destruct (recordEngagement_other_key now threadId act auth s k Hk)
      as [Heq | (Hnone & _)]; unfold m, m' in *; congruence.
  - intros Hbig k e El'. unfold m' in El'.
    rewrite recordEngagement_run in El'.
    cbn [snd withEngaged engagedThreads] in El'. fold m key fresh in El'.
    destruct (Nat.ltb_spec 1000 (size (<[key := fresh]> m))); [|lia].
    apply map_lookup_filter_Some in El' as [_ Hyoung]. cbn in Hyoung. lia.
Qed.

Lemma recordEngagement_keeps_unexpired_witness :
  engagedThreads
    (recordEngagement 5000 "t2" "like" "Bob"
       (recordEngagement 1000 "t1" "like" "Alice" (initialState [])).2).2
    !! "t1:like"
  = Some {| action := "like"; timestamp := 1000; author := "Alice" |}.
Proof.
  apply (proj1 (recordEngagement_keeps_unexpired 5000 "t2" "like" "Bob"
                  (recordEngagement 1000 "t1" "like" "Alice"
                     (initialState [])).2)).
  - vm_compute. discriminate.
  - vm_compute. reflexivity.
  - vm_compute. discriminate.
Defined.

(** X2: a record is found again for exactly 48 hours.  After
    [recordEngagement] at clock [t0], [hasAlreadyEngaged] asked at
    clock [q] answers true iff [q - t0 <= 48h]; a true answer leaves
    the state alone, a false one has deleted the record. *)
Theorem record_found_for_48_hours s t0 q threadId act auth :
  let s1 := (recordEngagement t0 threadId act auth s).2 in
  let r := hasAlreadyEngaged q threadId act s1 in
  r.1 = Returned (bool_decide (q - t0 <= maxAge))
  /\ (if bool_decide (q - t0 <= maxAge)
      then r.2 = s1
      else engagedThreads r.2
           = delete (engagementKey threadId act) (engagedThreads s1)).
Proof.
  intros s1 r.
  pose proof (recordEngagement_lookup t0 threadId act auth s) as El.
  fold s1 in El. unfold r. rewrite hasAlreadyEngaged_run, El.
  cbn [timestamp].
  destruct (Z.ltb_spec maxAge (q - t0)) as [Hold|Hyoung].
  - rewrite bool_decide_eq_false_2 by lia. split; reflexivity.
  - rewrite bool_decide_eq_true_2 by lia. split; reflexivity.
Qed.

End LedgerUse.

(** ** No repeated engagement *)

Section NoRepeat.
Import Arena Observe Scenario.

(** One gated attempt against a ledger that holds a record under
    [key] which is younger than 48 hours at both clock readings: the
    record stays, and no platform call is issued under that key. *)
Lemma attempt_keeps_fresh `{host : Js.LowerCase} t cfg c ckey dedupId act nd d call s key e :
  engagedThreads s !! key = Some e ->
  nowDedup t - timestamp e <= maxAge ->
  nowRecord t - timestamp e <= maxAge ->
  ledgerKeyOf call = engagementKey dedupId act ->
  let r := attempt t cfg c ckey dedupId act nd d call s in
  engagedThreads r.2 !! key = Some e
  /\ exists tr,
       trace r.2 = trace s ++ tr
       /\ forall call' ok, EvClient call' ok ∈ tr -> ledgerKeyOf call' <> key.
Proof.
  intros El Hd Hr Hcall. cbn zeta. rewrite attempt_run.
  assert (Hskip : forall why a i call' ok,
             EvClient call' ok ∈ [EvSkip why a i] ->
             ledgerKeyOf call' <> key).
  { intros why a i call' ok Hin.
    apply list_elem_of_singleton in Hin. discriminate. }
  destruct (atCeiling _ _).
  { split; [exact El|]. eexists. split; [reflexivity|]. apply Hskip. }
  rewrite hasAlreadyEngaged_run.
  destruct (decide (engagementKey dedupId act = key)) as [Hsame|Hother].
  - rewrite Hsame, El.
    destruct (Z.ltb_spec maxAge (nowDedup t - timestamp e)); [lia|].
    split; [exact El|]. eexists. split; [reflexivity|]. apply Hskip.
  - set (s1 := match engagedThreads s !! engagementKey dedupId act with
               | Some e0 =>
                   if maxAge <? nowDedup t - timestamp e0
                   then (Returned false,
                         withEngaged (delete (engagementKey dedupId act)
                                        (engagedThreads s)) s)
                   else (Returned true, s)
               | None => (Returned false, s)
               end).
    assert (H1 : engagedThreads s1.2 !! key = Some e /\ trace s1.2 = trace s).
    { unfold s1.
      destruct (engagedThreads s !! engagementKey dedupId act) as [e0|];
        [destruct (maxAge <? nowDedup t - timestamp e0)|];
        cbn; split; try reflexivity; try exact El.
      rewrite lookup_delete_ne by exact Hother. exact El. }
    destruct H1 as [El1 Htr1].
    assert (Hb : exists b, s1.1 = Returned b).
    { unfold s1.
      destruct (engagedThreads s !! engagementKey dedupId act) as [e0|];
        [destruct (maxAge <? nowDedup t - timestamp e0)|]; eauto. }
    destruct Hb as [b Hb]. destruct s1 as [o s1']. cbn in Hb, El1, Htr1.
    subst o. destruct b.
    { cbn. split; [exact El1|]. rewrite Htr1.
      eexists. split; [reflexivity|]. apply Hskip. }
    destruct (nd && noDraft d)%bool.
    { cbn. split; [exact El1|]. rewrite Htr1.
      eexists. split; [reflexivity|]. apply Hskip. }
    destruct (clientOk t).
    + cbn [snd withEvent engagedThreads trace]. split.
      * match goal with
        | |- engagedThreads (recordEngagement ?n ?i ?a ?au ?st).2 !! _ = _ =>
            destruct (recordEngagement_other_key n i a au st key)
              as [Heq | (_ & _ & e' & El' & Hold)]
        end.
        -- congruence.
        -- rewrite Heq. exact El1.
        -- cbn in El'. assert (e' = e) by congruence. subst e'. lia.
      * rewrite recordEngagement_trace.
        cbn [withCounters withEvent trace]. rewrite Htr1, <- app_assoc.
        eexists. split; [reflexivity|].
        intros call' ok Hin.
        apply elem_of_cons in Hin as [Hin|Hin].
        -- injection Hin as -> _. congruence.
        -- apply list_elem_of_singleton in Hin. discriminate.
    + cbn. split; [exact El1|]. rewrite Htr1.
      eexists. split; [reflexivity|].
      intros call' ok Hin. apply list_elem_of_singleton in Hin.
      injection Hin as -> _. congruence.
Qed.

Lemma execute_keeps_fresh `{host : Js.LowerCase} t cfg c d s key e :
  engagedThreads s !! key = Some e ->
  nowDedup t - timestamp e <= maxAge ->
  nowRecord t - timestamp e <= maxAge ->
  let r := executeEngagementDecision t cfg c d s in
  engagedThreads r.2 !! key = Some e
  /\ exists tr,
       trace r.2 = trace s ++ tr
       /\ forall call' ok, EvClient call' ok ∈ tr -> ledgerKeyOf call' <> key.
Proof.
  intros El Hd Hr. cbn zeta. unfold executeEngagementDecision.
  repeat case_decide;
    try (apply attempt_keeps_fresh; [assumption..|reflexivity]).
  cbn. split; [exact El|]. eexists. split; [reflexivity|].
  intros call' ok Hin. apply list_elem_of_singleton in Hin. discriminate.
Qed.

(** X1: once an engagement is on record, it is not repeated while the
    record is younger than 48 hours.  Through any sequence of budget
    checks and decision executions whose clocks stay within 48 hours
    of the record's timestamp, the record stays in the ledger as it
    is, and no platform call is issued for its target and action: a
    thread is not liked, reposted, replied to or quoted a second
    time, an author is not followed a second time. *)
Theorem engaged_target_is_not_repeated `{host : Js.LowerCase} cfg ops s key e :
  engagedThreads s !! key = Some e ->
  (forall t c d, OpExecute t c d ∈ ops ->
                 nowDedup t - timestamp e <= maxAge
                 /\ nowRecord t - timestamp e <= maxAge) ->
  let s' := runOps cfg ops s in
  engagedThreads s' !! key = Some e
  /\ forall call ok,
       EvClient call ok ∈ drop (length (trace s)) (trace s') ->
       ledgerKeyOf call <> key.
Proof.
  intros El Hclock. cbn zeta.
  assert (Hgen : engagedThreads (runOps cfg ops s) !! key = Some e
                 /\ exists tr,
                      trace (runOps cfg ops s) = trace s ++ tr
                      /\ forall call ok, EvClient call ok ∈ tr ->
                                         ledgerKeyOf call <> key).
  { revert s El Hclock.
    induction ops as [|o ops IH]; intros s El Hclock.
    - split; [exact El|]. exists []. rewrite app_nil_r.
      split; [reflexivity|]. intros call ok Hin.
      apply elem_of_nil in Hin. contradiction.
    - cbn [runOps foldl]. fold (runOps cfg ops (runOp cfg s o)).
      assert (Hstep : engagedThreads (runOp cfg s o) !! key = Some e
                      /\ exists tr,
                           trace (runOp cfg s o) = trace s ++ tr
                           /\ forall call ok, EvClient call ok ∈ tr ->
                                              ledgerKeyOf call <> key).
      { destruct o as [now | t c d]; cbn [runOp].
        - split; [exact El|]. exists []. rewrite app_nil_r.
          split; [reflexivity|]. intros call ok Hin.
          apply elem_of_nil in Hin. contradiction.
        - destruct (Hclock t c d) as [Hd Hr]; [left|].
          apply execute_keeps_fresh; assumption. }
      destruct Hstep as (El1 & tr1 & Htr1 & Hno1).
      destruct (IH (runOp cfg s o) El1) as (El2 & tr2 & Htr2 & Hno2).
      { intros t c d Hin. apply (Hclock t c d). right. exact Hin. }
      split; [exact El2|]. exists (tr1 ++ tr2).
      rewrite Htr2, Htr1, app_assoc. split; [reflexivity|].
      intros call ok Hin. apply elem_of_app in Hin as [Hin|Hin]; eauto. }
  destruct Hgen as (El' & tr & Htr & Hno).
  split; [exact El'|]. rewrite Htr, drop_app_length. exact Hno.
Qed.

Lemma engaged_target_is_not_repeated_witness :
  let s1 := (executeEngagementDecision (calm 1000 likeIt 0) defaultConfig
               t1 likeIt (initialState [])).2 in
  let s' := runOps defaultConfig
              [OpExecute (calm 2000 likeIt 0) t1 likeIt;
               OpCheck 3600000;
               OpExecute (calm 172801000 likeIt 0) t1 likeIt] s1 in
  engagedThreads s' !! "t1:like"
  = Some {| action := "like"; timestamp := 1000; author := "Alice" |}
  /\ trace s' = [EvClient (likeThread "t1") true;
                 EvLogEngagement "like" "t1";
                 EvSkip AlreadyEngaged "like" "t1";
                 EvSkip AlreadyEngaged "like" "t1"].
Proof.
  intros s1 s'.
  destruct (engaged_target_is_not_repeated defaultConfig
              [OpExecute (calm 2000 likeIt 0) t1 likeIt;
               OpCheck 3600000;
               OpExecute (calm 172801000 likeIt 0) t1 likeIt] s1
              "t1:like"
              {| action := "like"; timestamp := 1000; author := "Alice" |})
    as [H _].
  - vm_compute. reflexivity.
  - intros t c d Hin.
    repeat (apply elem_of_cons in Hin as [Hin|Hin];
            [try discriminate; injection Hin as -> _ _;
             vm_compute; split; discriminate|]).
    apply elem_of_nil in Hin. contradiction.
  - split; [exact H | vm_compute; reflexivity].
Defined.

End NoRepeat.

(** ** Counters across executions *)

Section Counters.
Import Arena Observe Scenario.

(** X7: executing a decision moves no window end and touches no
    counter but the one its action is charged to (a quote draws on
    the repost counter); that one stays as it is or grows by one. *)
Theorem execution_charges_only_its_kind `{host : Js.LowerCase} t cfg c d s key :
  let cs := engagementCounters s in
  let cs' := engagementCounters (executeEngagementDecision t cfg c d s).2 in
  resetAt (getCounter cs' key) = resetAt (getCounter cs key)
  /\ (budgetKey (dec_action d) <> Some key ->
      getCounter cs' key = getCounter cs key)
  /\ (count (getCounter cs' key) = count (getCounter cs key)
      \/ count (getCounter cs' key) = count (getCounter cs key) + 1).
Proof.
  cbn zeta.
  destruct (executeEngagementDecision_cases t cfg c d s)
    as [[_ [call Hc]] | [_ Hu]].
  - destruct Hc as (_ & Hk & _ & Hcs & _).
    rewrite Hcs, getCounter_setCounter.
    destruct (decide (budgetOf call = key)) as [<-|Hne]; cbn.
    + split; [reflexivity|]. split; [congruence | right; reflexivity].
    + split; [reflexivity|]. split; [reflexivity | left; reflexivity].
  - destruct Hu as (Hcs & _). rewrite Hcs.
    split; [reflexivity|]. split; [reflexivity | left; reflexivity].
Qed.

Lemma execution_charges_only_its_kind_witness :
  getCounter
    (engagementCounters
       (executeEngagementDecision (calm 1000 quoteIt 0) defaultConfig t1
          quoteIt (initialState [])).2) likes
  = getCounter initialCounters likes.
Proof.
  apply (proj1 (proj2 (execution_charges_only_its_kind
                         (calm 1000 quoteIt 0) defaultConfig t1 quoteIt
                         (initialState []) likes))).
  vm_compute. discriminate.
Defined.

(** One step keeps a counter non-negative and does not move its
    window end back. *)
Lemma runOp_counter_grows `{host : Js.LowerCase} cfg o s key :
  0 <= count (getCounter (engagementCounters s) key) ->
  0 <= count (getCounter (engagementCounters (runOp cfg s o)) key)
  /\ resetAt (getCounter (engagementCounters s) key)
     <= resetAt (getCounter (engagementCounters (runOp cfg s o)) key).
Proof.
  intros H0. destruct o as [now | t c d]; cbn [runOp].
  - rewrite exceededEngagementBudget_counter.
    destruct (Z.ltb_spec (resetAt (getCounter (engagementCounters s) key))
                now); cbn; unfold hourMs; lia.
  - destruct (executeEngagementDecision_cases t cfg c d s)
      as [[_ [call Hc]] | [_ Hu]].
    + destruct Hc as (_ & _ & _ & Hcs & _).
      rewrite Hcs, getCounter_setCounter.
      destruct (decide (budgetOf call = key)) as [<-|Hne]; cbn; lia.
    + destruct Hu as (Hcs & _). rewrite Hcs. lia.
Qed.

(** X8: through any sequence of budget checks and decision
    executions a counter never becomes negative and its window end
    never moves back. *)
Theorem window_end_never_moves_back `{host : Js.LowerCase} cfg ops s key :
  0 <= count (getCounter (engagementCounters s) key) ->
  let s' := runOps cfg ops s in
  0 <= count (getCounter (engagementCounters s') key)
  /\ resetAt (getCounter (engagementCounters s) key)
     <= resetAt (getCounter (engagementCounters s') key).
Proof.
  cbn zeta. revert s.
  induction ops as [|o ops IH]; intros s H0; [cbn; lia|].
  cbn [runOps foldl]. fold (runOps cfg ops (runOp cfg s o)).
  destruct (runOp_counter_grows cfg o s key H0) as [H1 H2].
  destruct (IH _ H1) as [H3 H4]. lia.
Qed.

Lemma window_end_never_moves_back_witness :
  3601000
  <= resetAt (getCounter
                (engagementCounters
                   (runOps defaultConfig
                      [OpCheck 3601001;
                       OpExecute (calm 3601002 likeIt 0) t1 likeIt]
                      likesExhausted)) likes).
Proof.
  apply (proj2 (window_end_never_moves_back defaultConfig
                  [OpCheck 3601001;
                   OpExecute (calm 3601002 likeIt 0) t1 likeIt]
                  likesExhausted likes ltac:(vm_compute; discriminate))).
Defined.

End Counters.

(** ** Shape of an engagement pass *)

Section PassShape.
Import Arena Observe Scenario.

Lemma evaluations_app tr1 tr2 :
  evaluations (tr1 ++ tr2) = (evaluations tr1 + evaluations tr2)%nat.
Proof. unfold evaluations. rewrite filter_app, length_app. reflexivity. Qed.

Lemma platformCalls_app tr1 tr2 :
  platformCalls (tr1 ++ tr2)
  = (platformCalls tr1 + platformCalls tr2)%nat.
Proof. unfold platformCalls. rewrite filter_app, length_app. reflexivity. Qed.

(** What one gated attempt appends to the trace. *)
Lemma attempt_appends t cfg c key dedupId act nd d call s :
  exists tr,
    trace (attempt t cfg c key dedupId act nd d call s).2 = trace s ++ tr
    /\ ((exists why, tr = [EvSkip why act (cand_id c)])
        \/ tr = [EvClient call true; EvLogEngagement act (cand_id c)]
        \/ tr = [EvClient call false]).
Proof.
  rewrite attempt_run.
  destruct (atCeiling _ _).
  { eexists. split; [reflexivity|]. left. eauto. }
  destruct (hasAlreadyEngaged_state (nowDedup t) dedupId act s)
    as (b & s1 & -> & _ & Htr & _).
  destruct b; [|destruct (nd && noDraft d)%bool; [|destruct (clientOk t)]];
    cbn [snd withEvent withCounters trace];
    rewrite ?recordEngagement_trace;
    cbn [snd withEvent withCounters trace];
    rewrite Htr, <- ?app_assoc;
    eexists; (split; [reflexivity|]); eauto.
Qed.

(** Executing one decision consults no oracle and issues at most one
    platform call. *)
Lemma execute_one_call `{host : Js.LowerCase} t cfg c d s :
  exists tr,
    trace (executeEngagementDecision t cfg c d s).2 = trace s ++ tr
    /\ evaluations tr = 0%nat /\ (platformCalls tr <= 1)%nat.
Proof.
  assert (Hcount : forall tr act call,
             (exists why, tr = [EvSkip why act (cand_id c)])
             \/ tr = [EvClient call true; EvLogEngagement act (cand_id c)]
             \/ tr = [EvClient call false] ->
             evaluations tr = 0%nat /\ (platformCalls tr <= 1)%nat).
  { intros tr act call [[why ->] | [-> | ->]];
      split; vm_compute; try reflexivity; lia. }
  unfold executeEngagementDecision.
  repeat case_decide;
    try match goal with
        | |- context [attempt ?t ?cfg ?c ?key ?id ?act ?nd ?d ?call ?s] =>
            destruct (attempt_appends t cfg c key id act nd d call s)
              as (tr & Htr & Hshape);
            exists tr; split; [exact Htr | exact (Hcount _ _ _ Hshape)]
        end.
  eexists. split; [reflexivity|]. split; vm_compute; [reflexivity | lia].
Qed.

Lemma passLoop_bounded `{host : Js.LowerCase} cfg world candidates : forall i s,
  exists tr,
    trace (passLoop cfg world i candidates s).2 = trace s ++ tr
    /\ (evaluations tr <= length candidates)%nat
    /\ (platformCalls tr <= length candidates)%nat.
Proof.
  induction candidates as [|c rest IH]; intros i s.
  - exists []. rewrite app_nil_r. cbn. repeat split; lia.
  - cbn [passLoop]. unfold mbind at 1. unfold M_bind at 1.
    pose proof (exceededEngagementBudget_verdict (nowBudget (world i)) cfg s)
      as Hv.
    pose proof (exceededEngagementBudget_rest (nowBudget (world i)) cfg s)
      as [Ht0 _].
    cbn zeta in Hv, Ht0.
    destruct (exceededEngagementBudget (nowBudget (world i)) cfg s)
      as [o s0]. cbn [fst snd] in Hv, Ht0. subst o.
    destruct (forallb _ _).
    { cbn. rewrite Ht0. eexists. split; [reflexivity|].
      change (evaluations [EvBudgetsExhausted]) with 0%nat.
      change (platformCalls [EvBudgetsExhausted]) with 0%nat. lia. }
    unfold mbind at 1. unfold M_bind at 1.
    unfold emit at 1. unfold modify at 1.
    set (s1 := withEvent (EvEvaluate (cand_id c)) s0).
    assert (Ht1 : trace s1 = trace s ++ [EvEvaluate (cand_id c)])
      by (cbn; rewrite Ht0; reflexivity).
    assert (Hrest : forall s2 tr2,
               trace s2 = trace s1 ++ tr2 ->
               evaluations tr2 = 0%nat -> (platformCalls tr2 <= 1)%nat ->
               exists tr,
                 trace (passLoop cfg world (S i) rest s2).2 = trace s ++ tr
                 /\ (evaluations tr <= length (c :: rest))%nat
                 /\ (platformCalls tr <= length (c :: rest))%nat).
    { intros s2 tr2 Ht2 He2 Hp2.
      destruct (IH (S i) s2) as (tr3 & Ht3 & He3 & Hp3).
      exists ([EvEvaluate (cand_id c)] ++ tr2 ++ tr3).
      rewrite Ht3, Ht2, Ht1, <- !app_assoc. split; [reflexivity|].
      rewrite !evaluations_app, !platformCalls_app, He2.
      change (evaluations [EvEvaluate (cand_id c)]) with 1%nat.
      change (platformCalls [EvEvaluate (cand_id c)]) with 0%nat.
      cbn [length]. lia. }
    destruct (decision (world i)) as [d|].
    + case_decide.
      * apply (Hrest s1 []); [rewrite app_nil_r; reflexivity | reflexivity
                             | vm_compute; lia].
      * unfold mbind at 1. unfold M_bind at 1.
        destruct (execute_one_call (world i) cfg c d s1)
          as (tr2 & Ht2 & He2 & Hp2).
        destruct (executeEngagementDecision (world i) cfg c d s1)
          as [[[]|] s2]; cbn [snd] in Ht2.
        -- apply (Hrest s2 tr2); assumption.
        -- cbn [snd]. exists ([EvEvaluate (cand_id c)] ++ tr2).
           rewrite Ht2, Ht1, <- app_assoc. split; [reflexivity|].
           rewrite evaluations_app, platformCalls_app, He2.
           change (evaluations [EvEvaluate (cand_id c)]) with 1%nat.
           change (platformCalls [EvEvaluate (cand_id c)]) with 0%nat.
           cbn [length]. lia.
    + apply (Hrest s1 []); [rewrite app_nil_r; reflexivity | reflexivity
                           | vm_compute; lia].
Qed.

(** X4: whatever the size of the snapshot and whatever the oracle
    answers, one engagement pass consults the oracle for at most five
    candidates and issues at most five platform calls. *)
Theorem pass_handles_at_most_five `{host : Js.LowerCase} cfg roomOk world s :
  exists tr,
    trace (runEngagementPass cfg roomOk world s).2 = trace s ++ tr
    /\ (evaluations tr <= 5)%nat /\ (platformCalls tr <= 5)%nat.
Proof.
  assert (Hnil : exists tr : list Event,
             trace s = trace s ++ tr
             /\ (evaluations tr <= 5)%nat /\ (platformCalls tr <= 5)%nat).
  { exists []. rewrite app_nil_r. cbn. repeat split; lia. }
  unfold runEngagementPass. unfold mbind at 1. unfold M_bind at 1.
  unfold get at 1.
  destruct (negb (enableEngagement cfg)); [exact Hnil|].
  destruct (List.find _ _) as [snapshot|]; [|exact Hnil].
  unfold mbind at 1. unfold M_bind at 1. rewrite ensureEngagementRoom_run.
  assert (Hlen : (length (take 5 (topThreads snapshot)) <= 5)%nat)
    by (rewrite length_take; lia).
  destruct (engagementRoomReady s); [|destruct roomOk]; cbn [fst snd].
  - destruct (passLoop_bounded cfg world (take 5 (topThreads snapshot)) 0 s)
      as (tr & Ht & He & Hp).
    exists tr. repeat split; [exact Ht | lia | lia].
  - destruct (passLoop_bounded cfg world (take 5 (topThreads snapshot)) 0
                (withRoomReady true s)) as (tr & Ht & He & Hp).
    exists tr. repeat split; [exact Ht | lia | lia].
  - exact Hnil.
Qed.

Lemma find_none_all_empty (snapshots : list DiscoverySnapshot) :
  (forall sn, sn ∈ snapshots -> topThreads sn = []) ->
  List.find (fun sn => negb (length (topThreads sn) =? 0)%nat) snapshots
  = None.
Proof.
  induction snapshots as [|sn l IH]; intros Hall; [reflexivity|].
  cbn. rewrite (Hall sn) by left. cbn.
  apply IH. intros sn' Hin. apply Hall. right. exact Hin.
Qed.

(** X5: with engagement switched off, or without a discovery
    snapshot that lists a thread, a pass returns at once: it sets up
    no room, reads no clock, consults no oracle and changes nothing. *)
Theorem idle_pass_changes_nothing `{host : Js.LowerCase} cfg roomOk world s :
  enableEngagement cfg = false
  \/ (forall sn, sn ∈ lastDiscoverySnapshots s -> topThreads sn = []) ->
  runEngagementPass cfg roomOk world s = (Returned tt, s).
Proof.
  intros Hidle. unfold runEngagementPass.
  unfold mbind at 1. unfold M_bind at 1. unfold get at 1.
  destruct (enableEngagement cfg) eqn:Hen; [|reflexivity].
  destruct Hidle as [Hoff|Hempty]; [discriminate|].
  cbn [negb]. rewrite (find_none_all_empty _ Hempty). reflexivity.
Qed.

Lemma idle_pass_changes_nothing_witness :
  runEngagementPass defaultConfig false (calm 1000 likeIt)
    (initialState [ {| feedKey := "home"; topThreads := [] |} ])
  = (Returned tt,
     initialState [ {| feedKey := "home"; topThreads := [] |} ]).
Proof.
  apply idle_pass_changes_nothing. right.
  intros sn Hin. apply list_elem_of_singleton in Hin. subst sn. reflexivity.
Defined.

(** X6: when every counter sits at or above its ceiling and no
    window has ended at the clock of the first budget check, a pass
    over a snapshot that lists threads stops before its first
    candidate: no oracle is consulted, no platform call issued, and
    counters and ledger stay as they are. *)
Theorem exhausted_budgets_stop_the_pass `{host : Js.LowerCase} cfg world s :
  enableEngagement cfg = true ->
  (exists sn, sn ∈ lastDiscoverySnapshots s /\ topThreads sn <> []) ->
  engagementRoomReady s = true ->
  (forall key,
      nowBudget (world 0%nat) <= resetAt (getCounter (engagementCounters s) key)
      /\ (ceiling cfg key
          <= inject_Z (count (getCounter (engagementCounters s) key)))%Q) ->
  let r := runEngagementPass cfg true world s in
  r.1 = Returned tt
  /\ trace r.2 = trace s ++ [EvBudgetsExhausted]
  /\ engagementCounters r.2 = engagementCounters s
  /\ engagedThreads r.2 = engagedThreads s.
Proof.
  intros Hen (sn & Hin & Hne) Hroom Hfull r.
  pose proof (exceededEngagementBudget_verdict (nowBudget (world 0%nat)) cfg s)
    as Hv.
  assert (Hcs : engagementCounters
                  (exceededEngagementBudget (nowBudget (world 0%nat)) cfg s).2
                = engagementCounters s).
  { assert (Hall : forall key,
               getCounter
                 (engagementCounters
                    (exceededEngagementBudget (nowBudget (world 0%nat))
                       cfg s).2) key
               = getCounter (engagementCounters s) key).
    { intros key. rewrite exceededEngagementBudget_counter.
      destruct (Hfull key) as [Hw _].
      destruct (Z.ltb_spec
                  (resetAt (getCounter (engagementCounters s) key))
                  (nowBudget (world 0%nat))); [lia | reflexivity]. }
    pose proof (Hall likes) as Hl. pose proof (Hall reposts) as Hrp.
    pose proof (Hall replies) as Hre. pose proof (Hall follows) as Hf.
    cbn [getCounter] in Hl, Hrp, Hre, Hf.
    destruct (engagementCounters (exceededEngagementBudget _ cfg s).2),
      (engagementCounters s). cbn in *. congruence. }
  pose proof (exceededEngagementBudget_rest (nowBudget (world 0%nat)) cfg s)
    as [Ht He].
  cbn zeta in Hv, Ht, He.
  assert (Hr : r = (Returned tt,
                    withEvent EvBudgetsExhausted
                      (exceededEngagementBudget (nowBudget (world 0%nat))
                         cfg s).2)).
  { unfold r, runEngagementPass. unfold mbind at 1. unfold M_bind at 1.
    unfold get at 1. rewrite Hen. cbn [negb].
    destruct (List.find _ _) as [snapshot|] eqn:Ef.
    2:{ exfalso. apply list_elem_of_In in Hin.
        pose proof (find_none _ _ Ef _ Hin) as Hz. cbn in Hz.
        destruct (topThreads sn); [congruence | discriminate]. }
    apply find_some in Ef as [_ Hs].
    destruct (topThreads snapshot) as [|c rest] eqn:Et; [discriminate|].
    unfold mbind at 1. unfold M_bind at 1.
    rewrite ensureEngagementRoom_run, Hroom.
    cbn [take passLoop]. unfold mbind at 1. unfold M_bind at 1.
    destruct (exceededEngagementBudget (nowBudget (world 0%nat)) cfg s)
      as [o s0]. cbn [fst snd] in Hv, Hcs |- *. subst o.
    assert (Hall : forallb
                     (fun key =>
                        atCeiling
                          (count (getCounter (engagementCounters s0) key))
                          (ceiling cfg key))
                     [likes; reposts; replies; follows] = true).
    { apply forallb_forall. intros key _. rewrite Hcs.
      apply atCeiling_true. apply Hfull. }
    rewrite Hall. reflexivity. }
  rewrite Hr. cbn [fst snd withEvent trace engagementCounters engagedThreads].
  rewrite Ht. repeat split; assumption.
Qed.

Lemma exhausted_budgets_stop_the_pass_witness :
  trace (runEngagementPass allSpent true (calm 1000 likeIt)
           spentState).2
  = [EvBudgetsExhausted].
Proof.
  apply (exhausted_budgets_stop_the_pass allSpent (calm 1000 likeIt)
           spentState).
  - reflexivity.
  - exists snapshot12. split; [left | discriminate].
  - reflexivity.
  - intros key. destruct key; vm_compute; split; discriminate.
Defined.

End PassShape.

(** ** Stopping the services *)

Section Stopping.
Import Timers Observe.

Lemma stopped_task_stays_idle (ls : list Label) : forall t t',
  stopping t = true -> armed t = 0%nat ->
  run ls t = Some t' ->
  (Fire ∉ ls) /\ stopping t' = true /\ armed t' = 0%nat
  /\ (inFlight t' <= inFlight t)%nat.
Proof.
  induction ls as [|l ls IH]; intros t t' Hs Ha Hrun.
  - injection Hrun as <-. repeat split; auto. apply not_elem_of_nil.
  - cbn [run] in Hrun. destruct (step l t) as [t1|] eqn:Es; [|discriminate].
    assert (Hcons : l <> Fire -> (Fire ∉ ls) -> Fire ∉ l :: ls).
    { intros Hl Hf Hin. apply elem_of_cons in Hin as [Hin|Hin];
        [congruence | contradiction]. }
    destruct t as [st a f]. cbn in Hs, Ha. subst st a.
    destruct l; cbn in Es.
    + discriminate.
    + destruct f; [discriminate|]. injection Es as <-.
      apply IH in Hrun as (Hf & Hs' & Ha' & Hi); [|reflexivity..].
      cbn [inFlight] in Hi |- *.
      split; [apply Hcons; [discriminate | exact Hf]|].
      split; [exact Hs'|]. split; [exact Ha' | lia].
    + injection Es as <-.
      apply IH in Hrun as (Hf & Hs' & Ha' & Hi); [|reflexivity..].
      cbn [inFlight] in Hi |- *.
      split; [apply Hcons; [discriminate | exact Hf]|].
      split; [exact Hs'|]. split; [exact Ha' | exact Hi].
Qed.

(** X9: [stop()] ends a self-rescheduling task of [ArenaService].
    From any state the posting, discovery or engagement task can
    reach, once [stop()] has run no timeout fires and no body starts
    any more: whatever happens afterwards, nothing is armed again,
    and a body that was in flight settles without a successor. *)
Theorem stop_ends_rescheduling (t0 t t' : Task) (ls ls' : list Label) :
  t0 = started \/ t0 = startedImmediately ->
  run ls t0 = Some t ->
  run (Stop :: ls') t = Some t' ->
  (Fire ∉ ls') /\ armed t' = 0%nat /\ stopping t' = true
  /\ (inFlight t' <= 1)%nat.
Proof.
  intros Hinit Hrun Hstop.
  assert (Hinv : (armed t + inFlight t <= 1)%nat).
  { eapply run_keeps_single; [|exact Hrun].
    destruct Hinit as [-> | ->]; cbn; lia. }
  cbn [run step] in Hstop.
  apply stopped_task_stays_idle in Hstop as (Hf & Hs & Ha & Hi);
    [|reflexivity | cbn; lia].
  cbn in Hi. repeat split; auto. lia.
Qed.

Lemma stop_ends_rescheduling_witness :
  run [Stop; Settle] {| stopping := false; armed := 0; inFlight := 1 |}
  = Some {| stopping := true; armed := 0; inFlight := 0 |}
  /\ (Fire ∉ [Settle]).
Proof.
  split; [reflexivity|].
  exact (proj1 (stop_ends_rescheduling started _ _ [Fire] [Settle]
                  (or_introl eq_refl) eq_refl eq_refl)).
Defined.

Lemma stopped_monitor (ls : list MLabel) : forall m m',
  interval m = false ->
  mrun ls m = Some m' ->
  (IntervalFire ∉ ls) /\ interval m' = false
  /\ (firstScans ls <= if firstScan m then 1 else 0)%nat.
Proof.
  induction ls as [|l ls IH]; intros m m' Hi Hrun.
  - injection Hrun as <-. repeat split; auto; [apply not_elem_of_nil|].
    change (firstScans []) with 0%nat. destruct (firstScan m); lia.
  - cbn [mrun] in Hrun. destruct (mstep l m) as [m1|] eqn:Es; [|discriminate].
    assert (Hcons : l <> IntervalFire -> (IntervalFire ∉ ls) ->
                    IntervalFire ∉ l :: ls).
    { intros Hl Hf Hin. apply elem_of_cons in Hin as [Hin|Hin];
        [congruence | contradiction]. }
    destruct m as [fs iv sc]. cbn in Hi. subst iv.
    unfold firstScans in *.
    destruct l; cbn in Es.
    + destruct fs; [|discriminate]. injection Es as <-.
      apply IH in Hrun as (Hf & Hi' & Hc); [|reflexivity].
      cbn [firstScan] in Hc |- *.
      split; [apply Hcons; [discriminate | exact Hf]|].
      split; [exact Hi'|].
      rewrite filter_cons_True by reflexivity. cbn [length]. lia.
    + discriminate.
    + destruct sc; [discriminate|]. injection Es as <-.
      apply IH in Hrun as (Hf & Hi' & Hc); [|reflexivity].
      cbn [firstScan] in Hc |- *.
      split; [apply Hcons; [discriminate | exact Hf]|].
      split; [exact Hi'|].
      rewrite filter_cons_False by discriminate. exact Hc.
    + injection Es as <-.
      apply IH in Hrun as (Hf & Hi' & Hc); [|reflexivity].
      cbn [firstScan] in Hc |- *.
      split; [apply Hcons; [discriminate | exact Hf]|].
      split; [exact Hi'|].
      rewrite filter_cons_False by discriminate. exact Hc.
Qed.

(** X10: [stop()] of the mention monitor clears the interval and
    nothing else.  After it the interval never fires again, but the
    5-second timeout of the first scan is not cancelled: at most one
    more scan can start, and it does start when [stop()] comes within
    the first five seconds. *)
Theorem monitor_stop_leaves_first_scan (m m' : Monitor) (ls : list MLabel) :
  mrun (MStop :: ls) m = Some m' ->
  (IntervalFire ∉ ls)
  /\ (firstScans ls <= 1)%nat
  /\ mrun [MStop; FirstFire] monitoring
     = Some {| firstScan := false; interval := false; scans := 1 |}.
Proof.
  intros Hrun. cbn [mrun mstep] in Hrun.
  apply stopped_monitor in Hrun as (Hf & _ & Hc); [|reflexivity].
  cbn [firstScan] in Hc. repeat split; auto.
  destruct (firstScan m); lia.
Qed.

Lemma monitor_stop_leaves_first_scan_witness :
  IntervalFire ∉ [FirstFire; ScanSettle].
Proof.
  exact (proj1 (monitor_stop_leaves_first_scan monitoring _
                  [FirstFire; ScanSettle] eq_refl)).
Defined.

End Stopping.

(** ** Replies of the mention monitor *)

Section MentionReplies.
Import Mentions MentionScan Scenario.

(** One mention: the caches only grow, a thread enters
    [repliedThreads] only together with a posted reply, and a reply
    is posted only to a thread that was not in [repliedThreads]. *)
Lemma processMention_step t m s :
  let s' := processMention t m s in
  processedMentions s ⊆ processedMentions s'
  /\ repliedThreads s ⊆ repliedThreads s'
  /\ ((posted s' = posted s /\ repliedThreads s' = repliedThreads s)
      \/ exists T, (T ∉ repliedThreads s)
                   /\ posted s' = posted s ++ [T]
                   /\ repliedThreads s' = {[ T ]} ∪ repliedThreads s).
Proof.
  cbn zeta. unfold processMention.
  destruct (threadIdOf m) as [T|]; [|repeat split; auto].
  unfold hasRepliedToThread. case_bool_decide as Hrep;
    [repeat split; auto|].
  destruct (threadOk t); cbn [negb].
  2:{ cbn. repeat split; auto. set_solver. }
  destruct (noText (replyText t)); [repeat split; auto|].
  destruct (replyOk t); [|repeat split; auto].
  cbn. split; [reflexivity|]. split; [set_solver|].
  right. exists T. auto.
Qed.

Lemma processMentions_grow world mentions : forall i s,
  let s' := processMentions world i mentions s in
  processedMentions s ⊆ processedMentions s'
  /\ repliedThreads s ⊆ repliedThreads s'
  /\ (forall T, T ∈ posted s -> T ∈ posted s')
  /\ (forall T, T ∈ repliedThreads s' ->
                T ∈ repliedThreads s \/ T ∈ posted s').
Proof.
  induction mentions as [|m rest IH]; intros i s; cbn zeta.
  - cbn. repeat split; auto.
  - cbn [processMentions].
    destruct (processMention_step (world i) m s) as (Hp & Hr & Hcase).
    destruct (IH (S i) (processMention (world i) m s))
      as (Hp' & Hr' & Hpost' & Hnew').
    cbn zeta in *.
    split; [etrans; eassumption|]. split; [etrans; eassumption|]. split.
    + intros T HT. apply Hpost'.
      destruct Hcase as [[-> _] | (T' & _ & -> & _)]; [exact HT|].
      apply elem_of_app. left. exact HT.
    + intros T HT. destruct (Hnew' T HT) as [Hin|Hin]; [|right; exact Hin].
      destruct Hcase as [[_ Heq] | (T' & _ & Hpo & Hre)].
      * left. rewrite <- Heq. exact Hin.
      * rewrite Hre in Hin. apply elem_of_union in Hin as [Hin|Hin];
          [|left; exact Hin].
        apply elem_of_singleton in Hin. subst T'.
        right. apply Hpost'. rewrite Hpo. apply elem_of_app. right. left.
Qed.

(** With no other task running, the iteration with awaits is the
    plain iteration. *)
Lemma processMentionsAwaiting_quiet world mentions : forall i s own,
  (processMentionsAwaiting world (fun _ => quiet) i mentions (s, own)).1
  = processMentions world i mentions s.
Proof.
  induction mentions as [|m rest IH]; intros i s own; [reflexivity|].
  cbn [processMentionsAwaiting processMentions].
  destruct (processMentionAwaiting (world i) quiet m (s, own))
    as [s1 own1] eqn:E.
  rewrite IH. f_equal.
  unfold processMentionAwaiting, processMention in *. cbn in E.
  destruct (threadIdOf m) as [T|]; [|congruence].
  destruct (hasRepliedToThread s T); [congruence|].
  destruct (threadOk (world i)); cbn [negb] in *; [|congruence].
  destruct (noText (replyText (world i))); [congruence|].
  destruct (replyOk (world i)); congruence.
Qed.

(** One iteration with awaits keeps the threads this call has
    answered apart and in [repliedThreads], as long as other tasks
    only add to that set. *)
Lemma processMentionAwaiting_own t o m s own :
  keepReplied o ->
  NoDup own -> (forall T, T ∈ own -> T ∈ repliedThreads s) ->
  let r := processMentionAwaiting t o m (s, own) in
  NoDup r.2 /\ (forall T, T ∈ r.2 -> T ∈ repliedThreads r.1).
Proof.
  intros (Hg & Hn & Hr & Hm) Hnd Hsub. cbn zeta.
  unfold processMentionAwaiting.
  destruct (threadIdOf m) as [T|]; [|auto].
  unfold hasRepliedToThread. case_bool_decide as Hrep; [auto|].
  assert (H1 : forall T0, T0 ∈ own ->
                          T0 ∈ repliedThreads (duringGetThread o s))
    by (intros T0 H0; apply Hg, Hsub, H0).
  destruct (threadOk t); cbn [negb]; [|auto].
  assert (H2 : forall T0, T0 ∈ own ->
                 T0 ∈ repliedThreads
                        (duringGenerate o (duringGetThread o s)))
    by (intros T0 H0; apply Hn, H1, H0).
  destruct (noText (replyText t)); [auto|].
  assert (H3 : forall T0, T0 ∈ own ->
                 T0 ∈ repliedThreads
                        (duringReply o
                           (duringGenerate o (duringGetThread o s))))
    by (intros T0 H0; apply Hr, H2, H0).
  destruct (replyOk t); [|auto].
  cbn [fst snd]. split.
  - apply NoDup_app. split; [exact Hnd|]. split; [|apply NoDup_singleton].
    intros x Hx Hx'. apply list_elem_of_singleton in Hx'. subst x.
    apply Hrep, Hsub, Hx.
  - intros T0 H0. apply Hm. cbn [markAsReplied post repliedThreads].
    apply elem_of_app in H0 as [H0|H0].
    + apply elem_of_union_r, H3, H0.
    + apply list_elem_of_singleton in H0. subst T0.
      apply elem_of_union_l, elem_of_singleton. reflexivity.
Qed.

(** X11: one call of [processMentions] answers a thread at most
    once, whatever other tasks do while it awaits, as long as they
    only add to [repliedThreads] (nothing in the repository removes
    from it): the threads the call has posted a reply to are
    distinct, and each of them is in [repliedThreads] at the end. *)
Theorem scan_replies_once_per_thread world others i mentions s own :
  (forall j, keepReplied (others j)) ->
  NoDup own -> (forall T, T ∈ own -> T ∈ repliedThreads s) ->
  let r := processMentionsAwaiting world others i mentions (s, own) in
  NoDup r.2 /\ (forall T, T ∈ r.2 -> T ∈ repliedThreads r.1).
Proof.
  intros Hothers. cbn zeta. revert i s own.
  induction mentions as [|m rest IH]; intros i s own Hnd Hsub; [auto|].
  cbn [processMentionsAwaiting].
  destruct (processMentionAwaiting_own (world i) (others i) m s own
              (Hothers i) Hnd Hsub) as [Hnd1 Hsub1].
  destruct (processMentionAwaiting (world i) (others i) m (s, own))
    as [s1 own1].
  apply IH; assumption.
Qed.

(** Another scan ([processMentions] over any list, in any world)
    only adds to [repliedThreads]. *)
Lemma processMentions_keepsReplied world i mentions :
  keepsReplied (processMentions world i mentions).
Proof.
  intros s. apply (processMentions_grow world mentions i s).
Qed.

Lemma scan_replies_once_per_thread_witness :
  let r := processMentionsAwaiting replying overlappingScan 0
             [mentionOnT1; mentionOnT1] (Mentions.initialState, []) in
  NoDup r.2 /\ (forall T, T ∈ r.2 -> T ∈ repliedThreads r.1).
Proof.
  apply (scan_replies_once_per_thread replying overlappingScan 0
           [mentionOnT1; mentionOnT1] Mentions.initialState []).
  - intros j. repeat split; try (intros s; reflexivity).
    apply processMentions_keepsReplied.
  - apply NoDup_nil_2.
  - intros T HT. apply elem_of_nil in HT. contradiction.
Defined.

(** Across overlapping scans a thread can be answered twice: the
    check and [repliedThreads.add] are separated by the awaits.  A
    second scan answers the mention on [t1] while the first one
    awaits [getThread]; the first one, which has passed its check,
    posts its reply too. *)
Lemma overlapping_scans_answer_twice :
  let r := processMentionsAwaiting replying overlappingScan 0
             [mentionOnT1] (Mentions.initialState, []) in
  posted r.1 = ["t1"; "t1"] /\ r.2 = ["t1"].
Proof. vm_compute. split; reflexivity. Qed.

Lemma processMentions_app world l1 l2 : forall i s,
  processMentions world i (l1 ++ l2) s
  = processMentions world (i + length l1) l2 (processMentions world i l1 s).
Proof.
  induction l1 as [|m l1 IH]; intros i s; cbn.
  - rewrite Nat.add_0_r. reflexivity.
  - rewrite IH. f_equal. lia.
Qed.

(** X12: a failure while one mention is processed does not cost the
    others their reply.  If, at its turn, the thread of a mention
    loads, a reply text is generated and posting resolves, then the
    thread is answered by the end of the list, whatever happened to
    the mentions before and after it: it is in [repliedThreads], and
    unless it already was there at the start, the reply has been
    posted. *)
Theorem answerable_mention_is_answered world i before m after s T :
  threadIdOf m = Some T ->
  threadOk (world (i + length before)%nat) = true ->
  noText (replyText (world (i + length before)%nat)) = false ->
  replyOk (world (i + length before)%nat) = true ->
  let s' := processMentions world i (before ++ m :: after) s in
  T ∈ repliedThreads s'
  /\ (T ∉ repliedThreads s -> T ∈ posted s').
Proof.
  intros HT Hok Htext Hreply. cbn zeta.
  rewrite processMentions_app. cbn [processMentions].
  set (s1 := processMentions world i before s).
  set (s2 := processMention (world (i + length before)%nat) m s1).
  destruct (processMentions_grow world before i s) as (_ & _ & _ & Hnew1).
  destruct (processMentions_grow world after (S (i + length before)) s2)
    as (_ & Hr3 & Hp3 & _).
  fold s1 in Hnew1. cbn zeta in Hr3, Hp3.
  assert (H2 : T ∈ repliedThreads s2
               /\ (T ∉ repliedThreads s1 -> T ∈ posted s2)
               /\ (forall x, x ∈ posted s1 -> x ∈ posted s2)).
  { unfold s2, processMention. rewrite HT.
    unfold hasRepliedToThread. case_bool_decide as Hrep.
    - split; [exact Hrep|]. split; [contradiction | auto].
    - rewrite Hok, Htext, Hreply. cbn.
      split; [set_solver|]. split.
      + intros _. apply elem_of_app. right. left.
      + intros x Hx. apply elem_of_app. left. exact Hx. }
  destruct H2 as (Hin2 & Hpost2 & Hmono2).
  split; [apply Hr3, Hin2|].
  intros Hnot. apply Hp3.
  destruct (decide (T ∈ repliedThreads s1)) as [Hin1|Hnot1].
  - destruct (Hnew1 T Hin1) as [?|Hposted]; [contradiction|].
    apply Hmono2, Hposted.
  - apply Hpost2, Hnot1.
Qed.

Lemma answerable_mention_is_answered_witness :
  "t1" ∈ posted (processMentions lateReply 0
                   [mentionOnT2; mentionOnT1] Mentions.initialState).
Proof.
  apply (answerable_mention_is_answered lateReply 0 [mentionOnT2]
           mentionOnT1 [] Mentions.initialState "t1");
    try reflexivity.
  apply not_elem_of_empty.
Defined.

Lemma storeMentions_processed (l : list Mention) : forall s n,
  n ∈ l \/ notif_id n ∈ processedMentions s ->
  notif_id n
  ∈ processedMentions (foldl (fun s n => storeMention n s) s l).
Proof.
  induction l as [|x l IH]; intros s n Hin; cbn.
  - destruct Hin as [Hin|Hin]; [apply elem_of_nil in Hin; contradiction|].
    exact Hin.
  - apply IH. destruct Hin as [Hin|Hin].
    + apply elem_of_cons in Hin as [->|Hin]; [right|left; exact Hin].
      cbn. set_solver.
    + right. cbn. set_solver.
Qed.

(** X13: a notification is handled in one scan only.  After a scan
    has handled a list of notifications, each of them is in
    [processedMentions], whether or not its reply went out, and a
    later scan over the same notifications changes nothing: a reply
    that failed is not tried again for that notification. *)
Theorem seen_notifications_are_left_alone world world' relevant s :
  let s1 := handleRelevant world relevant s in
  (forall n, n ∈ relevant -> notif_id n ∈ processedMentions s1)
  /\ handleRelevant world' relevant s1 = s1.
Proof.
  intros s1.
  assert (Hseen : forall n, n ∈ relevant ->
                            notif_id n ∈ processedMentions s1).
  { intros n Hn. unfold s1, handleRelevant.
    set (new := filter _ relevant).
    destruct (decide (notif_id n ∈ processedMentions s)) as [Hold|Hnew].
    - destruct (0 <? length new)%nat; [|exact Hold].
      apply (proj1 (processMentions_grow world new 0 _)).
      apply storeMentions_processed. right. exact Hold.
    - assert (Hin : n ∈ new).
      { apply list_elem_of_filter. split; [|exact Hn].
        unfold hasProcessedMention. apply bool_decide_eq_false_2, Hnew. }
      destruct new as [|x new']; [apply elem_of_nil in Hin; contradiction|].
      cbn [length Nat.ltb Nat.leb].
      apply (proj1 (processMentions_grow world (x :: new') 0 _)).
      apply storeMentions_processed. left. exact Hin. }
  split; [exact Hseen|].
  unfold handleRelevant at 1.
  assert (Hnil : filter
                   (fun n => hasProcessedMention s1 (notif_id n) = false)
                   relevant = []).
  { destruct (filter _ relevant) as [|x l] eqn:E; [reflexivity|].
    assert (Hx : x ∈ filter
                   (fun n => hasProcessedMention s1 (notif_id n) = false)
                   relevant) by (rewrite E; left).
    apply list_elem_of_filter in Hx as [Hx Hin].
    unfold hasProcessedMention in Hx.
    apply bool_decide_eq_false_1 in Hx. exfalso. apply Hx, Hseen, Hin. }
  rewrite Hnil. reflexivity.
Qed.

End MentionReplies.

(** ** Comparing binary64 values *)

Section FloatOrder.
Import Ieee IeeeOrder.

Lemma valid_magnitude s m e :
  valid_binary (S754_finite s m e) = true ->
  Zpos m < 2 ^ 53 /\ -1074 <= e <= 971.
Proof.
  intros V. apply valid_finite in V as [He Hmax].
  split; [|lia].
  apply Zdigits2_le; lia.
Qed.

Lemma magnitude_compare m1 e1 m2 e2 :
  Zpos m1 < 2 ^ 53 -> Zpos m2 < 2 ^ 53 ->
  match e1 ?= e2 with
  | Eq => Pos.compare_cont Eq m1 m2
  | Lt => Lt
  | Gt => Gt
  end = (magnitude m1 e1 ?= magnitude m2 e2).
Proof.
  intros H1 H2. unfold magnitude.
  generalize dependent (2 ^ 53). intros P H1 H2.
  destruct (Z.compare_spec e1 e2) as [->|Hlt|Hgt].
  - rewrite Z.add_compare_mono_l. reflexivity.
  - symmetry. apply Z.compare_lt_iff. nia.
  - symmetry. apply Z.compare_gt_iff. nia.
Qed.

Local Ltac order_by_key :=
  symmetry;
  first [ apply Z.compare_eq_iff; unfold magnitude; nia
        | apply Z.compare_lt_iff; unfold magnitude; nia
        | apply Z.compare_gt_iff; unfold magnitude; nia ].

Lemma SFcompare_key x y :
  valid_binary x = true -> valid_binary y = true ->
  x <> S754_nan -> y <> S754_nan ->
  SFcompare x y = Some (key x ?= key y).
Proof.
  intros Vx Vy Hx Hy.
  assert (HP : 0 < 2 ^ 53) by (apply Z.pow_pos_nonneg; lia).
  destruct x as [sx | sx | | sx mx ex]; [| |congruence|];
    (destruct y as [sy | sy | | sy my ey]; [| |congruence|]);
    try apply valid_magnitude in Vx as [Hmx Hex];
    try apply valid_magnitude in Vy as [Hmy Hey];
    cbn [SFcompare key]; f_equal;
    try (destruct sx; order_by_key);
    try (destruct sy; order_by_key);
    try (destruct sx, sy; order_by_key).
  destruct sx, sy; try order_by_key.
  - rewrite Z.compare_opp, <- (magnitude_compare my ey mx ex) by assumption.
    rewrite (Z.compare_antisym ey ex), Pos.compare_cont_antisym.
    destruct (ey ?= ex); cbn [CompOpp]; try reflexivity;
      destruct (Pos.compare_cont Eq my mx); reflexivity.
  - apply magnitude_compare; assumption.
Qed.

(** *** Rounding a non-zero value *)

Lemma shift_keeps_positive a e :
  0 < a -> -1074 <= e ->
  1 <= a / 2 ^ Z.max 0 (Z.max (Zdigits2 a + e - 53) (-1074) - e).
Proof.
  intros Ha He.
  assert (Hd : 1 <= Zdigits2 a) by (destruct a; try lia; apply Zdigits2_pos).
  assert (Hlow : 2 ^ (Zdigits2 a - 1) <= a) by (apply Zdigits2_ge; lia).
  set (n := Z.max 0 (Z.max (Zdigits2 a + e - 53) (-1074) - e)).
  assert (Hn : 0 <= n <= Zdigits2 a - 1) by lia.
  apply Z.div_le_lower_bound; [apply Z.pow_pos_nonneg; lia|].
  rewrite Z.mul_1_r. etransitivity; [|exact Hlow].
  apply Z.pow_le_mono_r; lia.
Qed.

Lemma binary_round_aux_nonzero sx mx ex lx :
  0 < mx -> -1074 <= ex ->
  (exists m e, binary_round_aux prec emax sx mx ex lx = S754_finite sx m e)
  \/ binary_round_aux prec emax sx mx ex lx = S754_infinity sx.
Proof.
  intros Hm He.
  destruct (binary_round_aux_shape sx mx ex lx ltac:(lia))
    as (m2 & e2 & H2 & -> & r & Hr & He2 & Hm2).
  cbn zeta in *. rewrite !fexp_eq in *.
  pose proof (shift_keeps_positive mx ex Hm He) as H1.
  replace (ex + Z.max 0 (Z.max (Zdigits2 mx + ex - 53) (-1074) - ex) - ex)
    with (Z.max 0 (Z.max (Zdigits2 mx + ex - 53) (-1074) - ex)) in Hr by lia.
  set (e1 := ex + Z.max 0 (Z.max (Zdigits2 mx + ex - 53) (-1074) - ex)) in *.
  assert (He1 : -1074 <= e1) by lia.
  assert (Hr0 : 0 < r) by lia.
  pose proof (shift_keeps_positive r e1 Hr0 He1) as H3.
  replace (e2 - e1)
    with (Z.max 0 (Z.max (Zdigits2 r + e1 - 53) (-1074) - e1)) in Hm2 by lia.
  destruct m2 as [|m|m]; [lia | | lia].
  destruct (e2 <=? emax - prec); eauto.
Qed.

Lemma shl_align_min mx ex ex' :
  -1074 <= ex -> -1074 <= ex' -> -1074 <= (shl_align mx ex ex').2.
Proof.
  intros. destruct (shl_align_spec mx ex ex') as [_ ->]. lia.
Qed.

Lemma binary_round_nonzero sx m e :
  -1074 <= e ->
  (exists m' e', binary_round prec emax sx m e = S754_finite sx m' e')
  \/ binary_round prec emax sx m e = S754_infinity sx.
Proof.
  intros He. unfold binary_round.
  pose proof (shl_align_min m e
                (SpecFloat.fexp prec emax (Zpos (digits2_pos m) + e)) He)
    as Hz.
  rewrite fexp_eq in Hz. specialize (Hz ltac:(lia)).
  rewrite fexp_eq.
  destruct (shl_align m e _) as [mz ez]. cbn [snd] in Hz.
  apply binary_round_aux_nonzero; lia.
Qed.

(** The sign of a rounded non-zero integer is the integer's sign. *)
Lemma binary_normalize_sign d e :
  -1074 <= e ->
  SFltb (S754_zero false) (binary_normalize prec emax d e false)
  = (0 <? d).
Proof.
  intros He. destruct d as [|p|p]; cbn [binary_normalize].
  - reflexivity.
  - destruct (binary_round_nonzero false p e He) as [(m' & e' & ->) | ->];
      reflexivity.
  - destruct (binary_round_nonzero true p e He) as [(m' & e' & ->) | ->];
      reflexivity.
Qed.

Lemma iter_xO_value m d : Zpos (Pos.iter xO m d) = Zpos m * 2 ^ Zpos d.
Proof.
  induction d as [|d IH] using Pos.peano_ind.
  - cbn. lia.
  - rewrite Pos.iter_succ, Pos2Z.inj_xO, IH, Pos2Z.inj_succ, Z.pow_succ_r by lia.
    lia.
Qed.

Lemma shl_align_value m e ez :
  ez <= e -> Zpos (shl_align m e ez).1 = Zpos m * 2 ^ (e - ez).
Proof.
  intros Hle. unfold shl_align.
  destruct (ez - e) as [|d|d] eqn:E; cbn [fst].
  - replace (e - ez) with 0 by lia. lia.
  - lia.
  - rewrite iter_xO_value. f_equal. f_equal. lia.
Qed.

Lemma SFsub_finite sx mx ex sy my ey :
  SF64sub (S754_finite sx mx ex) (S754_finite sy my ey)
  = binary_normalize prec emax
      (cond_Zopp sx (Zpos (shl_align mx ex (Z.min ex ey)).1)
       - cond_Zopp sy (Zpos (shl_align my ey (Z.min ex ey)).1))
      (Z.min ex ey) false.
Proof. reflexivity. Qed.

(** A valid number above the smallest exponent has a full mantissa. *)
Lemma valid_normal s m e :
  valid_binary (S754_finite s m e) = true ->
  -1074 < e -> 2 ^ 52 <= Zpos m.
Proof.
  intros V He. apply valid_finite in V as [Hc _].
  apply (Zdigits2_ge (Zpos m) 53); lia.
Qed.

Lemma aligned_difference_sign sx mx ex sy my ey :
  valid_binary (S754_finite sx mx ex) = true ->
  valid_binary (S754_finite sy my ey) = true ->
  (0 <? cond_Zopp sy (Zpos my * 2 ^ (ey - Z.min ey ex))
        - cond_Zopp sx (Zpos mx * 2 ^ (ex - Z.min ey ex)))
  = (key (S754_finite sx mx ex) <? key (S754_finite sy my ey)).
Proof.
  intros Vx Vy.
  pose proof (valid_magnitude _ _ _ Vx) as [Hmx Hex].
  pose proof (valid_magnitude _ _ _ Vy) as [Hmy Hey].
  assert (HP : 2 ^ 53 = 2 * 2 ^ 52) by reflexivity.
  cbn [key]. unfold magnitude.
  assert (Hpx : 0 < 2 ^ (ex - Z.min ey ex)) by (apply Z.pow_pos_nonneg; lia).
  assert (Hpy : 0 < 2 ^ (ey - Z.min ey ex)) by (apply Z.pow_pos_nonneg; lia).
  destruct (Z.lt_trichotomy ex ey) as [Hlt | [Heq | Hgt]].
  - pose proof (valid_normal _ _ _ Vy ltac:(lia)) as Hn.
    replace (ex - Z.min ey ex) with 0 by lia.
    replace (ey - Z.min ey ex) with (ey - ex) by lia.
    assert (H2 : 2 <= 2 ^ (ey - ex))
      by (change 2 with (2 ^ 1) at 1; apply Z.pow_le_mono_r; lia).
    change (2 ^ 0) with 1. rewrite Z.mul_1_r.
    destruct sx, sy; cbn [cond_Zopp];
      apply eq_true_iff_eq; rewrite !Z.ltb_lt; nia.
  - subst ey. replace (ex - Z.min ex ex) with 0 by lia.
    change (2 ^ 0) with 1. rewrite !Z.mul_1_r.
    destruct sx, sy; cbn [cond_Zopp];
      apply eq_true_iff_eq; rewrite !Z.ltb_lt; lia.
  - pose proof (valid_normal _ _ _ Vx ltac:(lia)) as Hn.
    replace (ey - Z.min ey ex) with 0 by lia.
    replace (ex - Z.min ey ex) with (ex - ey) by lia.
    assert (H2 : 2 <= 2 ^ (ex - ey))
      by (change 2 with (2 ^ 1) at 1; apply Z.pow_le_mono_r; lia).
    change (2 ^ 0) with 1. rewrite Z.mul_1_r.
    destruct sx, sy; cbn [cond_Zopp];
      apply eq_true_iff_eq; rewrite !Z.ltb_lt; nia.
Qed.


(** [y - x] is positive exactly when [x < y]. *)
Lemma SFsub_positive x y :
  valid_binary x = true -> valid_binary y = true ->
  SFltb (S754_zero false) (SF64sub y x) = SFltb x y.
Proof.
  intros Vx Vy.
  destruct x as [sx | sx | | sx mx ex], y as [sy | sy | | sy my ey];
    try reflexivity;
    try (destruct sx; reflexivity); try (destruct sy; reflexivity);
    try (destruct sx, sy; reflexivity).
  rewrite SFsub_finite.
  pose proof (valid_magnitude _ _ _ Vx) as [Hmx Hex].
  pose proof (valid_magnitude _ _ _ Vy) as [Hmy Hey].
  rewrite binary_normalize_sign by lia.
  unfold SFltb. rewrite SFcompare_key by (assumption || discriminate).
  rewrite !shl_align_value by lia.
  rewrite (aligned_difference_sign _ _ _ _ _ _ Vx Vy).
  unfold Z.ltb. reflexivity.
Qed.

(** The difference of two numbers [0 <= x <= y], [y] below [2^A], is
    a zero or a positive number below [2^(A+1)]. *)
Lemma SFsub_below x y A B :
  valid_binary x = true -> valid_binary y = true ->
  below B x -> below A y -> SFleb x y = true ->
  -1074 <= A <= 1023 ->
  below (A + 1) (SF64sub y x).
Proof.
  intros Vx Vy Hx Hy Hle HA.
  destruct y as [sy | sy | | [] my ey]; cbn [below] in Hy; try contradiction;
    destruct x as [sx | sx | | [] mx ex]; cbn [below] in Hx;
    try contradiction; try discriminate.
  - cbn. destruct sy, sx; exact I.
  - unfold SF64sub. cbn [SFsub below]. lia.
  - rewrite SFsub_finite.
    pose proof (aligned_difference_sign false my ey false mx ex Vy Vx) as Hs.
    unfold SFleb in Hle.
    rewrite SFcompare_key in Hle by (assumption || discriminate).
    assert (Hk : key (S754_finite false mx ex)
                 <= key (S754_finite false my ey)).
    { destruct (Z.compare_spec (key (S754_finite false mx ex))
                  (key (S754_finite false my ey))); try discriminate; lia. }
    destruct (Z.ltb_spec (key (S754_finite false my ey))
                (key (S754_finite false mx ex))) as [?|_]; [lia|].
    apply Z.ltb_ge in Hs. cbn [cond_Zopp] in Hs.
    pose proof (valid_magnitude _ _ _ Vx) as [Hmx Hex].
    pose proof (valid_magnitude _ _ _ Vy) as [Hmy Hey].
    rewrite !shl_align_value by lia. cbn [cond_Zopp].
    rewrite (Z.min_comm ey ex).
    set (py := Zpos my * 2 ^ (ey - Z.min ex ey)) in *.
    set (px := Zpos mx * 2 ^ (ex - Z.min ex ey)) in *.
    assert (Hpx : 0 < px)
      by (unfold px; apply Z.mul_pos_pos; [lia|apply Z.pow_pos_nonneg; lia]).
    assert (Hdy : Zdigits2 py + Z.min ex ey = Zdigits2 (Zpos my) + ey).
    { unfold py. rewrite <- (shl_align_value my ey (Z.min ex ey)) by lia.
      pose proof (shl_align_spec my ey (Z.min ex ey)) as [Hd He].
      rewrite He in Hd. replace (Z.min ey (Z.min ex ey)) with (Z.min ex ey) in Hd
        by lia. exact Hd. }
    destruct (py - px) as [|d|d] eqn:Ed; cbn [binary_normalize]; [exact I| |lia].
    apply binary_round_below; [|lia].
    assert (Hle2 : Zdigits2 (Zpos d) <= Zdigits2 py)
      by (apply Zdigits2_mono; lia).
    lia.
Qed.

Lemma shl_align_general m e e' :
  Zpos (shl_align m e e').1 = Zpos m * 2 ^ (e - Z.min e e')
  /\ (shl_align m e e').2 = Z.min e e'.
Proof.
  destruct (Z.le_gt_cases e' e) as [Hle|Hgt].
  - rewrite shl_align_value by exact Hle.
    destruct (shl_align_spec m e e') as [_ ->].
    replace (Z.min e e') with e' by lia. split; reflexivity.
  - unfold shl_align. destruct (e' - e) as [|d|d] eqn:E; cbn [fst snd];
      try lia; replace (e - Z.min e e') with 0 by lia;
      (split; [lia | lia]).
Qed.

(** Rounding a value that is at least a representable positive number
    gives at least that number. *)
Lemma binary_round_at_least n ez mx ex :
  valid_binary (S754_finite false mx ex) = true ->
  -1074 <= ez <= ex ->
  Zpos mx * 2 ^ (ex - ez) <= Zpos n ->
  key (S754_finite false mx ex) <= key (binary_round prec emax false n ez).
Proof.
  intros Vx Hez Hn.
  pose proof (valid_magnitude _ _ _ Vx) as [Hmx Hex].
  pose proof (valid_finite _ _ _ Vx) as [Hcan _].
  assert (HP : 0 < 2 ^ 53) by (apply Z.pow_pos_nonneg; lia).
  unfold binary_round.
  pose proof (shl_align_general n ez
                (SpecFloat.fexp prec emax (Zpos (digits2_pos n) + ez)))
    as [Hv He].
  pose proof (shl_align_spec n ez
                (SpecFloat.fexp prec emax (Zpos (digits2_pos n) + ez)))
    as [Hd _].
  rewrite fexp_eq in *.
  destruct (shl_align n ez _) as [nz ez']. cbn [fst snd] in *.
  change (Zpos (digits2_pos n)) with (Zdigits2 (Zpos n)) in *.
  assert (Hpow : 0 < 2 ^ (ex - ez)) by (apply Z.pow_pos_nonneg; lia).
  assert (Hdn : Zdigits2 (Zpos mx) + ex <= Zdigits2 (Zpos n) + ez).
  { assert (Hm : Zdigits2 (Zpos mx * 2 ^ (ex - ez)) <= Zdigits2 (Zpos n))
      by (apply Zdigits2_mono; lia).
    rewrite Zdigits2_mul_pow2 in Hm by lia. lia. }
  destruct (binary_round_aux_nonzero false (Zpos nz) ez' loc_Exact
              ltac:(lia) ltac:(lia)) as [(m & e & Hr) | ->].
  2:{ cbn [key]. unfold magnitude. nia. }
  destruct (binary_round_aux_shape false (Zpos nz) ez' loc_Exact ltac:(lia))
    as (m2 & e2 & H2 & Hres & r & Hrr & He2 & Hm2).
  cbn zeta in *. rewrite !fexp_eq in *.
  rewrite Hr in Hres.
  destruct m2 as [|m2|m2]; [discriminate| |discriminate].
  destruct (e2 <=? emax - prec); [|discriminate].
  injection Hres as -> ->. rewrite Hr. cbn [key]. unfold magnitude.
  rewrite Hd in Hrr, He2, Hm2.
  set (f := Z.max (Zdigits2 (Zpos n) + ez - 53) (-1074)) in *.
  replace (ez' + Z.max 0 (f - ez')) with f in * by lia.
  assert (Hf : ex <= f) by lia.
  destruct (Z.eq_dec f ex) as [Hfe|Hfne].
  - (* same exponent after the first shift *)
    assert (Hm1 : Zpos mx <= Zpos nz / 2 ^ (f - ez')).
    { apply Z.div_le_lower_bound; [apply Z.pow_pos_nonneg; lia|].
      rewrite Hv.
      replace (f - ez') with ((ex - ez) + (ez - ez')) by lia.
      rewrite Z.pow_add_r by lia.
      assert (0 < 2 ^ (ez - ez')) by (apply Z.pow_pos_nonneg; lia).
      replace (ez - Z.min ez f) with (ez - ez') by lia.
      replace (2 ^ (ex - ez) * 2 ^ (ez - ez') * Zpos mx)
        with (Zpos mx * 2 ^ (ex - ez) * 2 ^ (ez - ez')) by ring.
      apply Z.mul_le_mono_nonneg_r; lia. }
    destruct (Z.eq_dec e2 f) as [He2f|He2f].
    + rewrite He2f, Z.sub_diag, Z.div_1_r in Hm2. nia.
    + nia.
  - nia.
Qed.

(** Adding a number that is zero or positive does not go below the
    first operand. *)
Lemma SFadd_at_least x y A B :
  valid_binary x = true -> valid_binary y = true ->
  below A x -> below B y ->
  key x <= key (SF64add x y).
Proof.
  intros Vx Vy Hx Hy.
  assert (HP : 0 < 2 ^ 53) by (apply Z.pow_pos_nonneg; lia).
  destruct x as [sx | sx | | [] mx ex]; cbn [below] in Hx; try contradiction;
    destruct y as [sy | sy | | [] my ey]; cbn [below] in Hy;
    try contradiction.
  - destruct sx, sy; cbn; lia.
  - pose proof (valid_magnitude _ _ _ Vy) as [Hmy Hey].
    cbn. unfold magnitude. nia.
  - cbn. lia.
  - rewrite SFadd_finite.
    pose proof (valid_magnitude _ _ _ Vx) as [Hmx Hex].
    pose proof (valid_magnitude _ _ _ Vy) as [Hmy Hey].
    change (Zpos (shl_align mx ex (Z.min ex ey)).1
            + Zpos (shl_align my ey (Z.min ex ey)).1)
      with (Zpos ((shl_align mx ex (Z.min ex ey)).1
                  + (shl_align my ey (Z.min ex ey)).1)).
    cbn [binary_normalize].
    apply binary_round_at_least; [exact Vx | lia |].
    rewrite Pos2Z.inj_add, shl_align_value by lia. lia.
Qed.

Lemma not_nan_spec a : is_nan a = false -> Prim2SF a <> S754_nan.
Proof.
  unfold is_nan. rewrite FloatAxioms.eqb_spec. intros H E.
  rewrite E in H. discriminate.
Qed.

Lemma sub_positive (a b : float) : (0 <? b - a)%float = (a <? b)%float.
Proof.
  rewrite !ltb_spec, sub_spec.
  apply SFsub_positive; apply Prim2SF_valid.
Qed.

Lemma ltb_key (a b : float) :
  is_nan a = false -> is_nan b = false ->
  (a <? b)%float = (keyOf a <? keyOf b).
Proof.
  intros Ha Hb. rewrite ltb_spec. unfold SFltb, keyOf.
  rewrite SFcompare_key
    by (apply Prim2SF_valid || apply not_nan_spec; assumption).
  unfold Z.ltb. reflexivity.
Qed.

Lemma leb_key (a b : float) :
  is_nan a = false -> is_nan b = false ->
  (a <=? b)%float = (keyOf a <=? keyOf b).
Proof.
  intros Ha Hb. rewrite leb_spec. unfold SFleb, keyOf.
  rewrite SFcompare_key
    by (apply Prim2SF_valid || apply not_nan_spec; assumption).
  unfold Z.leb. destruct (_ ?= _); reflexivity.
Qed.

Lemma nan_spec a : Prim2SF a <> S754_nan -> is_nan a = false.
Proof.
  intros Ha. unfold is_nan. rewrite FloatAxioms.eqb_spec. unfold SFeqb.
  rewrite SFcompare_refl by exact Ha. reflexivity.
Qed.

Lemma add_at_least (a b : float) A B :
  below A (Prim2SF a) -> below B (Prim2SF b) ->
  (a <=? a + b)%float = true.
Proof.
  intros Ha Hb.
  pose proof (SFadd_at_least _ _ A B (Prim2SF_valid a) (Prim2SF_valid b)
                Ha Hb) as Hk.
  assert (Hsum : Prim2SF (a + b) <> S754_nan).
  { rewrite add_spec.
    destruct (Prim2SF a) as [sx | sx | | [] mx ex]; cbn [below] in Ha;
      try contradiction;
      destruct (Prim2SF b) as [sy | sy | | [] my ey]; cbn [below] in Hb;
      try contradiction; try discriminate.
    - destruct sx, sy; discriminate.
    - rewrite SFadd_finite.
      change (Zpos (shl_align mx ex (Z.min ex ey)).1
              + Zpos (shl_align my ey (Z.min ex ey)).1)
        with (Zpos ((shl_align mx ex (Z.min ex ey)).1
                    + (shl_align my ey (Z.min ex ey)).1)).
      cbn [binary_normalize]. unfold binary_round.
      destruct (shl_align _ _ _) as [mz ez].
      eapply signed_number, binary_round_aux_signed. lia. }
  rewrite leb_key; [| apply nan_spec; eapply below_number; exact Ha
                    | apply nan_spec; exact Hsum].
  apply Z.leb_le. unfold keyOf. rewrite add_spec. exact Hk.
Qed.

(** A number that is zero or positive, in specification form. *)
Lemma signed_false_leb x :
  signed false x -> SFleb (S754_zero false) x = true.
Proof. destruct x as [s | s | | s m e]; cbn; try tauto; intros ->; reflexivity. Qed.

Lemma SFltb_zero_signed x :
  SFltb (S754_zero false) x = true -> signed false x.
Proof.
  destruct x as [s | s | | s m e]; cbn; try discriminate;
    destruct s; try discriminate; reflexivity.
Qed.

Lemma SFmul_signed_false x my ey :
  signed false x ->
  signed false (SF64mul x (S754_finite false my ey)).
Proof.
  destruct x as [s | s | | s mx ex]; cbn [signed]; try tauto; intros ->.
  - reflexivity.
  - reflexivity.
  - rewrite SFmul_finite. apply binary_round_aux_signed. lia.
Qed.

Lemma mul_signed_false (x c : float) my ey :
  Prim2SF c = S754_finite false my ey ->
  signed false (Prim2SF x) -> signed false (Prim2SF (x * c)).
Proof.
  intros Hc Hx. rewrite mul_spec, Hc. apply SFmul_signed_false, Hx.
Qed.

(** [Math.max(0, m)] is [+0] or [m], and never negative. *)
Lemma Math_max_zero m :
  is_nan m = false ->
  signed false (Prim2SF (Js.Math_max 0 m))
  /\ ((m <=? 0)%float = true -> Prim2SF (Js.Math_max 0 m) = S754_zero false).
Proof.
  intros Hn. unfold Js.Math_max. rewrite Hn.
  change (is_nan 0) with false. cbn [orb].
  change (0 =? 0)%float with true. cbv iota.
  pose proof (not_nan_spec m Hn) as Hm.
  destruct (0 <? m)%float eqn:Epos.
  - rewrite ltb_spec in Epos. change (Prim2SF 0) with (S754_zero false) in Epos.
    split; [apply SFltb_zero_signed, Epos|].
    rewrite leb_spec. change (Prim2SF 0) with (S754_zero false).
    unfold SFltb in Epos. unfold SFleb.
    rewrite SFcompare_antisym.
    destruct (SFcompare (S754_zero false) (Prim2SF m)) as [[]|];
      try discriminate.
  - destruct (m <? 0)%float eqn:Eneg; [split; reflexivity|].
    rewrite ltb_spec in Epos, Eneg. rewrite add_spec.
    change (Prim2SF 0) with (S754_zero false) in *.
    destruct (Prim2SF m) as [s | s | | s mm em]; [| |congruence|];
      destruct s; try discriminate; split; reflexivity.
Qed.

End FloatOrder.

(** ** Order and content of the trending ranking *)

Section RankingOrder.
Import Analytics IeeeOrder Ranking Scenario.

Lemma sort_insert_perm {A} (cmp : A -> A -> float) x l :
  Js.sort_insert cmp x l ≡ₚ x :: l.
Proof.
  induction l as [|y l IH]; [reflexivity|].
  cbn [Js.sort_insert]. destruct (0 <? cmp x y)%float; [|reflexivity].
  rewrite IH. apply Permutation_swap.
Qed.

Lemma sort_perm {A} (cmp : A -> A -> float) l : Js.sort cmp l ≡ₚ l.
Proof.
  induction l as [|x l IH]; [reflexivity|].
  cbn [Js.sort foldr]. fold (Js.sort cmp l).
  rewrite sort_insert_perm, IH. reflexivity.
Qed.

Lemma sort_insert_sorted x l :
  is_nan (score x) = false ->
  Forall (fun s => is_nan (score s) = false) l ->
  descending l ->
  descending (Js.sort_insert byScoreDesc x l).
Proof.
  intros Hx Hl Hs. induction l as [|y l IH].
  - repeat constructor.
  - apply Forall_cons in Hl as [Hny Hl]. destruct Hs as [Hy Hs].
    cbn [Js.sort_insert]. unfold byScoreDesc at 1.
    rewrite sub_positive, ltb_key by assumption.
    destruct (Z.ltb_spec (keyOf (score x)) (keyOf (score y))) as [Hlt|Hge].
    + split; [|apply IH; assumption].
      rewrite sort_insert_perm. constructor; [unfold notBelow; lia|exact Hy].
    + split; [|split; assumption].
      constructor; [exact Hge|].
      eapply Forall_impl; [exact Hy|].
      unfold notBelow. intros z Hz. lia.
Qed.

Lemma sort_sorted l :
  Forall (fun s => is_nan (score s) = false) l ->
  descending (Js.sort byScoreDesc l).
Proof.
  induction l as [|x l IH]; intros Hl; [exact I|].
  apply Forall_cons in Hl as [Hx Hl].
  cbn [Js.sort foldr]. fold (Js.sort byScoreDesc l).
  apply sort_insert_sorted; [exact Hx | | apply IH; exact Hl].
  rewrite sort_perm. exact Hl.
Qed.

Lemma descending_lookup l :
  descending l ->
  forall i j a b,
    (i < j)%nat -> l !! i = Some a -> l !! j = Some b -> notBelow a b.
Proof.
  induction l as [|x l IH]; intros Hd i j a b Hij Ha Hb; [discriminate|].
  destruct Hd as [Hx Hs].
  - destruct j as [|j]; [lia|]. cbn in Hb.
    destruct i as [|i]; cbn in Ha.
    + injection Ha as <-. rewrite Forall_forall in Hx. apply Hx.
      eapply list_elem_of_lookup_2. exact Hb.
    + apply (IH Hs i j); [lia | assumption..].
Qed.

Lemma imap_threads (f : nat -> TrendingThread -> TrendingThread) l :
  (forall i s, thread (f i s) = thread s) ->
  map thread (imap f l) = map thread l.
Proof.
  revert f. induction l as [|x l IH]; intros f Hf; [reflexivity|].
  cbn [imap map]. rewrite Hf, IH by (intros; apply Hf). reflexivity.
Qed.

Lemma scored_threads now options threads :
  map thread
    (filter (fun s => enoughEngagement options s = true)
       (map (scoreThread now options)
          (filter (fun t => inWindow now options t = true) threads)))
  = filter (fun t => (inWindow now options t
                      && enoughEngagement options (scoreThread now options t))
                     = true) threads.
Proof.
  induction threads as [|t l IH]; [reflexivity|].
  rewrite !filter_cons.
  destruct (inWindow now options t) eqn:Hw; cbn [andb].
  - rewrite decide_True by reflexivity. cbn [map]. rewrite filter_cons.
    destruct (enoughEngagement options (scoreThread now options t)) eqn:He.
    + rewrite !decide_True by reflexivity. cbn [map]. rewrite IH. reflexivity.
    + rewrite !decide_False by discriminate. exact IH.
  - rewrite !decide_False by discriminate. exact IH.
Qed.

(** X14: the ranking lists each qualifying thread once and nothing
    else.  Its threads are, up to order, the input threads whose age
    is within the time window and whose raw engagement reaches
    [minEngagement] (with multiplicity); the item at position [i] is
    the scoring of its thread and carries rank [i + 1]. *)
Theorem ranking_lists_each_qualifying_thread_once now options threads :
  let out := detectTrendingThreads now options threads in
  map thread out
  ≡ₚ filter (fun t => (inWindow now options t
                       && enoughEngagement options (scoreThread now options t))
                      = true) threads
  /\ (forall i s, out !! i = Some s ->
                  rank s = S i
                  /\ s = setRank i (scoreThread now options (thread s))).
Proof.
  intros out. split.
  - unfold out, detectTrendingThreads.
    rewrite imap_threads by reflexivity.
    rewrite sort_perm. rewrite scored_threads. reflexivity.
  - intros i s Hi. unfold out, detectTrendingThreads in Hi.
    rewrite list_lookup_imap in Hi.
    destruct (Js.sort byScoreDesc _ !! i) as [s0|] eqn:E; [|discriminate].
    cbn in Hi. injection Hi as <-.
    split; [cbn; lia|].
    apply list_elem_of_lookup_2 in E. rewrite sort_perm in E.
    apply list_elem_of_filter in E as [_ E].
    apply list_elem_of_fmap in E as (t & -> & _). reflexivity.
Qed.

(** X15: the ranking is in descending order of score.  When no
    score is NaN, an item never stands behind an item with a smaller
    score: for positions [i < j] the score at [j] is at most the
    score at [i]. *)
Theorem ranking_is_by_descending_score now options threads :
  (forall t, t ∈ threads ->
             is_nan (score (scoreThread now options t)) = false) ->
  let out := detectTrendingThreads now options threads in
  forall i j a b,
    (i < j)%nat -> out !! i = Some a -> out !! j = Some b ->
    (score b <=? score a)%float = true.
Proof.
  intros Hnan out i j a b Hij Ha Hb.
  unfold out, detectTrendingThreads in Ha, Hb.
  rewrite list_lookup_imap in Ha, Hb.
  set (scored := filter (fun s => enoughEngagement options s = true)
                   (map (scoreThread now options)
                      (filter (fun t => inWindow now options t = true)
                         threads))) in *.
  assert (Hall : Forall (fun s => is_nan (score s) = false) scored).
  { apply Forall_forall. intros s Hs. unfold scored in Hs.
    apply list_elem_of_filter in Hs as [_ Hs].
    apply list_elem_of_fmap in Hs as (t & -> & Ht).
    apply list_elem_of_filter in Ht as [_ Ht]. apply Hnan, Ht. }
  destruct (Js.sort byScoreDesc scored !! i) as [a0|] eqn:Ea; [|discriminate].
  destruct (Js.sort byScoreDesc scored !! j) as [b0|] eqn:Eb; [|discriminate].
  cbn in Ha, Hb. injection Ha as <-. injection Hb as <-.
  cbn [setRank score].
  assert (Hin : forall k s, Js.sort byScoreDesc scored !! k = Some s ->
                            is_nan (score s) = false).
  { intros k s Hk. apply list_elem_of_lookup_2 in Hk.
    rewrite sort_perm in Hk. rewrite Forall_forall in Hall. apply Hall, Hk. }
  rewrite leb_key by eauto. apply Z.leb_le.
  exact (descending_lookup _ (sort_sorted scored Hall) i j a0 b0 Hij Ea Eb).
Qed.

Lemma ranking_is_by_descending_score_witness :
  (score (setRank 1 (scoreThread 28800000 None older))
   <=? score (setRank 0 (scoreThread 28800000 None (scenarioA 21600000))))%float
  = true.
Proof.
  apply (ranking_is_by_descending_score 28800000 None
           [older; scenarioA 21600000]) with (i := 0%nat) (j := 1%nat).
  - intros t Hin.
    repeat (apply elem_of_cons in Hin as [->|Hin];
            [vm_compute; reflexivity|]).
    apply elem_of_nil in Hin. contradiction.
  - lia.
  - vm_compute. reflexivity.
  - vm_compute. reflexivity.
Defined.

End RankingOrder.

(** ** Timer delays *)

Section Delays.
Import Ieee IeeeOrder Scheduling.

(** X16: the delay handed to [setTimeout] is never negative.  For
    every number of minutes (anything but NaN) [minutesToMs] returns
    a value that is at least 0, and it returns exactly 0 for a number
    of minutes that is zero or negative. *)
Theorem delay_is_never_negative (minutes : float) :
  is_nan minutes = false ->
  (0 <=? minutesToMs minutes)%float = true
  /\ ((minutes <=? 0)%float = true -> minutesToMs minutes = 0%float).
Proof.
  intros Hn. destruct (Math_max_zero minutes Hn) as [Hs Hz].
  unfold minutesToMs. split.
  - rewrite leb_spec. apply signed_false_leb.
    eapply mul_signed_false; [reflexivity|].
    eapply mul_signed_false; [reflexivity|]. exact Hs.
  - intros Hle. apply Prim2SF_inj.
    rewrite !mul_spec, (Hz Hle). reflexivity.
Qed.

Lemma delay_is_never_negative_witness : minutesToMs (-5)%float = 0%float.
Proof.
  apply (proj2 (delay_is_never_negative (-5)%float eq_refl)). reflexivity.
Defined.

(** X17: the jittered interval is never shorter than its lower
    bound.  For bounds [0 <= min <= max] up to [2^53] minutes and a
    random draw in [[0, 1)], [jitteredIntervalMinutes] returns at
    least [min], whatever rounding the interpolation goes through. *)
Theorem jitter_is_at_least_min (random mn mx : float)
    (fallback : option float) :
  Js.safeCount mn = true -> Js.safeCount mx = true ->
  (mn <=? mx)%float = true ->
  (0 <=? random)%float = true -> (random <? 1)%float = true ->
  (mn <=? jitteredIntervalMinutes random (Some mn) (Some mx) fallback)%float
  = true.
Proof.
  intros Hmn Hmx Hle Hr0 Hr1.
  pose proof (safeCount_below _ Hmn) as Bmn.
  pose proof (safeCount_below _ Hmx) as Bmx.
  unfold jitteredIntervalMinutes. rewrite Hle.
  destruct (mn =? mx)%float.
  - rewrite leb_spec. unfold SFleb.
    rewrite SFcompare_refl by (eapply below_number; exact Bmn). reflexivity.
  - assert (Bd : below 55 (Prim2SF (mx - mn))).
    { rewrite sub_spec.
      apply (SFsub_below _ _ 54 54); try apply Prim2SF_valid;
        try assumption; [|lia].
      rewrite <- leb_spec. exact Hle. }
    assert (Br : below 1 (Prim2SF random)).
    { rewrite leb_spec in Hr0.
      apply (between_below _ 4503599627370496 (-52));
        [apply Prim2SF_valid | exact Hr0 |].
      rewrite ltb_spec in Hr1. unfold SFltb in Hr1. unfold SFleb.
      change (Prim2SF 1) with (S754_finite false 4503599627370496 (-52)) in Hr1.
      destruct (SFcompare _ _) as [[]|]; try discriminate; reflexivity. }
    assert (Bx : below 57 (Prim2SF (random * (mx - mn)))).
    { rewrite mul_spec.
      apply (SFmul_below _ _ 1 55); try apply Prim2SF_valid;
        try assumption; lia. }
    exact (add_at_least mn _ 54 57 Bmn Bx).
Qed.

Lemma jitter_is_at_least_min_witness :
  (90 <=? jitteredIntervalMinutes 0.5 (Some 90) (Some 150) (Some 120))%float
  = true.
Proof.
  apply jitter_is_at_least_min; reflexivity.
Defined.

End Delays.

(** ** Discovery history *)

Section DiscoveryHistory.
Import Arena Discovery Scenario.

Lemma take_app_take {A} (n : nat) (l m : list A) :
  take n (l ++ take n m) = take n (l ++ m).
Proof.
  rewrite !take_app, take_take. f_equal. f_equal. lia.
Qed.

Lemma scanFeeds_history world feeds : forall i s,
  lastDiscoverySnapshots (scanFeeds world i feeds s)
  = match snapshotsTaken world i feeds with
    | [] => lastDiscoverySnapshots s
    | new => take 10 (rev new ++ lastDiscoverySnapshots s)
    end.
Proof.
  induction feeds as [|f rest IH]; intros i s; [reflexivity|].
  cbn [scanFeeds snapshotsTaken]. rewrite IH.
  destruct (world i) as [top|]; [|reflexivity].
  cbn [scanFeed withSnapshots lastDiscoverySnapshots].
  set (sn := {| feedKey := f; topThreads := top |}).
  destruct (snapshotsTaken world (S i) rest) as [|x new].
  - reflexivity.
  - rewrite take_app_take. cbn [rev]. rewrite <- !app_assoc. reflexivity.
Qed.

Lemma scanFeeds_frame world feeds : forall i s,
  engagementCounters (scanFeeds world i feeds s) = engagementCounters s
  /\ engagedThreads (scanFeeds world i feeds s) = engagedThreads s
  /\ trace (scanFeeds world i feeds s) = trace s.
Proof.
  induction feeds as [|f rest IH]; intros i s; [auto|].
  cbn [scanFeeds]. destruct (IH (S i) (scanFeed f (world i) s))
    as (-> & -> & ->).
  destruct (world i); auto.
Qed.

(** X18: a discovery scan keeps the ten newest snapshots, newest
    first.  A feed whose scan throws is skipped and the scan goes on
    with the next feed; the snapshots of the other feeds are put in
    front of the history in scan order and the history is cut to ten
    entries.  Counters, ledger and trace of the engagement side are
    not touched. *)
Theorem discovery_keeps_ten_newest world targetFeeds s :
  let s' := runDiscoveryScan world targetFeeds s in
  let new := snapshotsTaken world 0 (feedsToScan targetFeeds) in
  lastDiscoverySnapshots s'
  = match new with
    | [] => lastDiscoverySnapshots s
    | _ => take 10 (rev new ++ lastDiscoverySnapshots s)
    end
  /\ (length (lastDiscoverySnapshots s')
      <= Nat.max 10 (length (lastDiscoverySnapshots s)))%nat
  /\ engagementCounters s' = engagementCounters s
  /\ engagedThreads s' = engagedThreads s
  /\ trace s' = trace s.
Proof.
  intros s' new. unfold s', runDiscoveryScan.
  pose proof (scanFeeds_history world (feedsToScan targetFeeds) 0 s) as Hh.
  fold new in Hh.
  split; [rewrite Hh; destruct new; reflexivity|].
  split; [|apply scanFeeds_frame].
  rewrite Hh. destruct new; [lia|]. rewrite length_take. lia.
Qed.

End DiscoveryHistory.

(** ** Feed insights *)

Section Insights.
Import IeeeOrder FeedInsights Scenario.

(** Folding "take the current one if it is strictly larger" yields
    the first of the largest items. *)
Lemma pick_first_largest (v : FeedStats -> float) (l : list FeedStats) :
  forall x,
    (forall f, f ∈ x :: l -> is_nan (v f) = false) ->
    firstLargest v (x :: l)
      (foldl (fun best current =>
                if (v best <? v current)%float then current else best) x l).
Proof.
  induction l as [|y l IH] using rev_ind; intros x Hnan.
  - exists [], []. split; [reflexivity|].
    split; intros f Hf; apply elem_of_nil in Hf; contradiction.
  - rewrite foldl_app. cbn [foldl].
    set (b := foldl _ x l).
    assert (Hnan' : forall f, f ∈ x :: l -> is_nan (v f) = false).
    { intros f Hf. apply Hnan. rewrite app_comm_cons.
      apply elem_of_app. left. exact Hf. }
    destruct (IH x Hnan') as (before & after & Hsplit & Hb & Ha). fold b in Hsplit, Hb, Ha.
    assert (Hy : is_nan (v y) = false).
    { apply Hnan. rewrite app_comm_cons. apply elem_of_app. right. left. }
    assert (Hbn : is_nan (v b) = false).
    { apply Hnan'. rewrite Hsplit. apply elem_of_app. right. left. }
    rewrite ltb_key by assumption.
    destruct (Z.ltb_spec (keyOf (v b)) (keyOf (v y))) as [Hlt|Hge].
    + exists (x :: l), []. split; [rewrite app_comm_cons; reflexivity|].
      split; [|intros f Hf; apply elem_of_nil in Hf; contradiction].
      intros f Hf. pose proof (Hnan' f Hf) as Hfn.
      rewrite ltb_key by assumption. apply Z.ltb_lt.
      rewrite Hsplit in Hf. apply elem_of_app in Hf as [Hf|Hf].
      * specialize (Hb f Hf). rewrite ltb_key in Hb by assumption.
        apply Z.ltb_lt in Hb. lia.
      * apply elem_of_cons in Hf as [->|Hf]; [exact Hlt|].
        specialize (Ha f Hf). rewrite leb_key in Ha by assumption.
        apply Z.leb_le in Ha. lia.
    + exists before, (after ++ [y]).
      split; [rewrite app_comm_cons, Hsplit, <- app_assoc; reflexivity|].
      split; [exact Hb|].
      intros f Hf. apply elem_of_app in Hf as [Hf|Hf]; [apply Ha, Hf|].
      apply list_elem_of_singleton in Hf. subst f.
      rewrite leb_key by assumption. apply Z.leb_le. exact Hge.
Qed.

(** X19: what the feed comparison names.  Over an empty list of
    feeds the insights throw.  Otherwise "most engaging" is the first
    feed with the largest average engagement and "most active" the
    first feed with the largest thread count: a later feed replaces
    the best one so far only when it is strictly larger, so among
    equals the earliest in the list is named. *)
Theorem insights_name_the_first_best (log10 : float -> float)
    (feedData : list FeedStats) :
  (forall f, f ∈ feedData ->
             is_nan (avgEngagement f) = false
             /\ is_nan (threadCount f) = false) ->
  match insights log10 feedData with
  | None => feedData = []
  | Some found =>
      exists e a,
        mostEngaging found = name e /\ firstLargest avgEngagement feedData e
        /\ mostActive found = name a /\ firstLargest threadCount feedData a
  end.
Proof.
  intros Hnan. destruct feedData as [|x l]; [reflexivity|].
  cbn [insights reduce mbind option_bind].
  exists (foldl moreEngaging x l), (foldl moreActive x l).
  split; [reflexivity|]. split; [|split; [reflexivity|]].
  - apply (pick_first_largest avgEngagement). intros f Hf. apply Hnan, Hf.
  - apply (pick_first_largest threadCount). intros f Hf. apply Hnan, Hf.
Qed.

Lemma insights_name_the_first_best_witness :
  mostActive <$> insights (fun x => x) [homeFeed; trendingFeed] = Some "home"
  /\ mostEngaging <$> insights (fun x => x) [homeFeed; trendingFeed]
     = Some "trending".
Proof.
  pose proof (insights_name_the_first_best (fun x => x)
                [homeFeed; trendingFeed]) as H.
  cbn [insights reduce mbind option_bind] in H.
  destruct H as (e & a & He & _ & Ha & _).
  - intros f Hf.
    repeat (apply elem_of_cons in Hf as [->|Hf];
            [split; vm_compute; reflexivity|]).
    apply elem_of_nil in Hf. contradiction.
  - split; vm_compute; reflexivity.
Defined.

End Insights.

(** ** Posting-time recommendations *)

Section Posting.
Import Ieee IeeeOrder JsNum PostingTimes Scenario.

Lemma or_default_truthy (x : option float) (d : float) :
  Js.truthy d = true -> Js.truthy (Js.or_default x d) = true.
Proof.
  intros Hd. unfold Js.or_default.
  destruct x as [v|]; [|exact Hd].
  destruct (Js.truthy v) eqn:Hv; assumption.
Qed.

Lemma or_default_zero (d : float) :
  Js.or_default (Some 0%float) d = d.
Proof. reflexivity. Qed.

Lemma truthy_not_zero (x : float) :
  Js.truthy x = true -> (x =? 0)%float = false.
Proof.
  unfold Js.truthy. rewrite negb_true_iff, orb_false_iff. tauto.
Qed.

(** X20: the recommendation never names midnight or Sunday.  The
    best hour and the best day are taken with [||], which treats 0 as
    missing: when the best-scoring hour is 0 the recommended hour is
    12, when the best-scoring day is 0 (Sunday) the recommended day
    is 1 (Monday).  Whatever the input, the recommended hour and day
    are not 0 and the weekday named is not Sunday. *)
Theorem recommendation_avoids_midnight_and_sunday
    (log10 : float -> float) (minSampleSizeOption : option float)
    (threads : list Post) :
  let r := recommend log10 minSampleSizeOption threads in
  (bestHour r =? 0)%float = false
  /\ (bestDay r =? 0)%float = false
  /\ bestDayName r <> Some "Sunday"
  /\ (slot <$> head (optimal log10 minSampleSizeOption hour threads)
      = Some 0%float -> bestHour r = 12%float)
  /\ (slot <$> head (optimal log10 minSampleSizeOption day threads)
      = Some 0%float -> bestDay r = 1%float /\ bestDayName r = Some "Monday").
Proof.
  cbn zeta. unfold recommend.
  cbn [bestHour bestDay bestDayName].
  set (h := slot <$> head (optimal log10 minSampleSizeOption hour threads)).
  set (d := slot <$> head (optimal log10 minSampleSizeOption day threads)).
  assert (Hh : (Js.or_default h 12 =? 0)%float = false)
    by (apply truthy_not_zero, or_default_truthy; reflexivity).
  assert (Hd : (Js.or_default d 1 =? 0)%float = false)
    by (apply truthy_not_zero, or_default_truthy; reflexivity).
  split; [exact Hh|]. split; [exact Hd|]. split; [|split].
  - unfold dayName. rewrite Hd.
    repeat match goal with
           | |- context [if ?b then _ else _] => destruct b
           end; discriminate.
  - intros ->. reflexivity.
  - intros ->. split; reflexivity.
Qed.

Lemma recommendation_avoids_midnight_and_sunday_witness :
  bestHour (recommend (fun x => x) None
              [sundayMidnight; sundayMidnight; sundayMidnight])
  = 12%float.
Proof.
  apply (proj1 (proj2 (proj2 (proj2
           (recommendation_avoids_midnight_and_sunday (fun x => x) None
              [sundayMidnight; sundayMidnight; sundayMidnight]))))).
  vm_compute. reflexivity.
Defined.

(** *** The confidence *)

Lemma signed_false_key x :
  valid_binary x = true -> signed false x -> 0 <= key x.
Proof.
  intros V. destruct x as [s | s | | s m e]; cbn [signed key];
    try tauto; intros ->; try lia.
  apply valid_magnitude in V as [Hm He]. unfold magnitude. nia.
Qed.

Lemma SFadd_one_signed x :
  signed false x -> signed false (SF64add x (Prim2SF 1)).
Proof.
  change (Prim2SF 1) with (S754_finite false 4503599627370496 (-52)).
  destruct x as [s | s | | s m e]; cbn [signed]; try tauto; intros ->;
    try reflexivity.
  rewrite SFadd_finite.
  match goal with
  | |- context [binary_normalize _ _ (Zpos ?a + Zpos ?b)] =>
      change (Zpos a + Zpos b) with (Zpos (a + b))
  end.
  cbn [binary_normalize]. unfold binary_round.
  destruct (shl_align _ _ _) as [mz ez].
  apply binary_round_aux_signed. lia.
Qed.

Lemma add_one_signed (c : float) :
  signed false (Prim2SF c) -> signed false (Prim2SF (c + 1)).
Proof. rewrite add_spec. apply SFadd_one_signed. Qed.

Lemma bump_counted k e stats :
  Forall counted stats -> Forall counted (bump k e stats).
Proof.
  induction stats as [|[k' st] rest IH]; intros H.
  - cbn. constructor; [|constructor]. unfold counted. cbn. reflexivity.
  - apply Forall_cons in H as [Hst Hrest]. cbn [bump].
    destruct (sameValueZero k' k).
    + constructor; [|exact Hrest]. unfold counted in *. cbn [snd count] in *.
      apply add_one_signed, Hst.
    + constructor; [exact Hst | apply IH, Hrest].
Qed.

Lemma tally_counted key threads : Forall counted (tally key threads).
Proof.
  unfold tally.
  assert (H : forall stats, Forall counted stats ->
                Forall counted
                  (foldl (fun stats t => bump (key t) (engagement t) stats)
                     stats threads)).
  { induction threads as [|t l IH]; intros stats Hs; [exact Hs|].
    cbn [foldl]. apply IH, bump_counted, Hs. }
  apply H. constructor.
Qed.

(** The best slot of a non-empty ranking is one of the tallied
    entries, so there was a thread, and its sample size is a count. *)
Lemma head_optimal log10 opt key threads s :
  head (optimal log10 opt key threads) = Some s ->
  threads <> [] /\ signed false (Prim2SF (sampleSize s)).
Proof.
  intros Hh.
  assert (Hin : s ∈ optimal log10 opt key threads).
  { destruct (optimal log10 opt key threads) as [|x l]; [discriminate|].
    injection Hh as ->. left. }
  unfold optimal in Hin. rewrite sort_perm in Hin.
  apply list_elem_of_fmap in Hin as (entry & -> & Hin).
  apply list_elem_of_filter in Hin as [_ Hin].
  split.
  - intros ->. cbn in Hin. apply elem_of_nil in Hin. exact Hin.
  - pose proof (tally_counted key threads) as Hc.
    rewrite Forall_forall in Hc. apply (Hc entry Hin).
Qed.

(** The length of a non-empty array is a positive finite number. *)
Lemma lengthOf_positive {A} (l : list A) :
  l <> [] -> Z.of_nat (length l) < 2 ^ 63 ->
  exists m e, Prim2SF (lengthOf l) = S754_finite false m e.
Proof.
  intros Hne Hlen. unfold lengthOf.
  rewrite of_uint63_spec, Uint63.of_Z_spec.
  assert (Hpos : 0 < Z.of_nat (length l)) by (destruct l; [congruence|cbn; lia]).
  change Uint63Axioms.wB with (2 ^ 63).
  rewrite Z.mod_small by lia.
  destruct (Z.of_nat (length l)) as [|p|p] eqn:E; try lia.
  cbn [binary_normalize].
  destruct (binary_round_nonzero false p 0 ltac:(lia))
    as [(m & e & Hr) | Hinf]; [eauto|].
  exfalso.
  assert (Hb : below 64 (binary_round prec emax false p 0)).
  { apply (binary_round_below p 0 63); [|lia].
    assert (Zdigits2 (Zpos p) <= 63) by (apply Zdigits2_le; lia). lia. }
  rewrite Hinf in Hb. exact Hb.
Qed.

Lemma SFdiv_signed_false x my ey :
  signed false x -> signed false (SF64div x (S754_finite false my ey)).
Proof.
  destruct x as [s | s | | s mx ex]; cbn [signed]; try tauto; intros ->;
    try reflexivity.
  rewrite SFdiv_finite. cbn zeta.
  match goal with
  | |- context [Z.div_eucl ?a ?b] =>
      assert (Hq : 0 <= a / b);
      [apply Z.div_pos; [|lia] | unfold Z.div in Hq;
                                 destruct (Z.div_eucl a b) as [q r]]
  end.
  - match goal with
    | |- 0 <= match ?s with _ => _ end => destruct s
    end; try lia. apply Z.shiftl_nonneg. lia.
  - apply binary_round_aux_signed. exact Hq.
Qed.

(** A share [count / length * 2] is zero or positive. *)
Lemma share_signed (c n : float) m e :
  signed false (Prim2SF c) -> Prim2SF n = S754_finite false m e ->
  signed false (Prim2SF (c / n * 2)).
Proof.
  intros Hc Hn.
  eapply mul_signed_false; [reflexivity|].
  rewrite div_spec, Hn. apply SFdiv_signed_false, Hc.
Qed.

Lemma signed_not_nan (x : float) s :
  signed s (Prim2SF x) -> is_nan x = false.
Proof. intros H. apply nan_spec. eapply signed_number. exact H. Qed.

Lemma key_zero_iff (x : float) :
  is_nan x = false -> ((x =? 0)%float = true <-> keyOf x = 0).
Proof.
  intros Hx. unfold keyOf.
  rewrite FloatAxioms.eqb_spec. unfold SFeqb.
  rewrite SFcompare_key
    by (apply Prim2SF_valid || apply not_nan_spec; assumption || reflexivity).
  change (key (Prim2SF 0)) with 0.
  destruct (Z.compare_spec (key (Prim2SF x)) 0); split; lia || discriminate
    || reflexivity.
Qed.

(** [Math.min] of two numbers is a number at the smaller of their
    places. *)
Lemma Math_min_key (a b : float) :
  is_nan a = false -> is_nan b = false ->
  is_nan (Math_min a b) = false
  /\ keyOf (Math_min a b) = Z.min (keyOf a) (keyOf b).
Proof.
  intros Ha Hb. unfold Math_min. rewrite Ha, Hb. cbn [orb].
  rewrite !ltb_key by assumption.
  destruct (Z.ltb_spec (keyOf a) (keyOf b)) as [Hlt|Hge];
    [split; [exact Ha | lia]|].
  destruct (Z.ltb_spec (keyOf b) (keyOf a)) as [Hlt'|Hge'];
    [split; [exact Hb | lia]|].
  destruct (a =? 0)%float eqn:E0; [|split; [exact Ha | lia]].
  apply key_zero_iff in E0; [|exact Ha].
  assert (Hb0 : keyOf b = 0) by lia.
  assert (Hza : exists sa, Prim2SF a = S754_zero sa).
  { unfold keyOf in E0. pose proof (Prim2SF_valid a) as V.
    pose proof (not_nan_spec a Ha) as Hn.
    destruct (Prim2SF a) as [s | s | | s m e]; eauto; try congruence.
    - destruct s; cbn in E0; lia.
    - apply valid_magnitude in V as [Hm He].
      destruct s; cbn in E0; unfold magnitude in E0; nia. }
  assert (Hzb : exists sb, Prim2SF b = S754_zero sb).
  { unfold keyOf in Hb0. pose proof (Prim2SF_valid b) as V.
    pose proof (not_nan_spec b Hb) as Hn.
    destruct (Prim2SF b) as [s | s | | s m e]; eauto; try congruence.
    - destruct s; cbn in Hb0; lia.
    - apply valid_magnitude in V as [Hm He].
      destruct s; cbn in Hb0; unfold magnitude in Hb0; nia. }
  destruct Hza as [sa Hsa], Hzb as [sb Hsb].
  assert (Hr : exists s, Prim2SF (- (- a + - b)) = S754_zero s).
  { rewrite FloatAxioms.opp_spec, add_spec, !FloatAxioms.opp_spec, Hsa, Hsb.
    destruct sa, sb; cbn; eauto. }
  destruct Hr as [s Hr]. split.
  - apply nan_spec. rewrite Hr. discriminate.
  - unfold keyOf at 1. rewrite Hr. cbn. lia.
Qed.

(** X21: the confidence of the recommendation is a number between
    0 and 1, whatever the threads and their counters hold: never NaN,
    never negative, never above 1. *)
Theorem confidence_is_between_0_and_1
    (log10 : float -> float) (minSampleSizeOption : option float)
    (threads : list Post) :
  Z.of_nat (length threads) < 2 ^ 63 ->
  let c := confidence (recommend log10 minSampleSizeOption threads) in
  (0 <=? c)%float = true /\ (c <=? 1)%float = true.
Proof.
  intros Hlen. cbn zeta. unfold recommend. cbn [confidence].
  destruct (head (optimal log10 minSampleSizeOption hour threads))
    as [h|] eqn:Eh; [|split; reflexivity].
  destruct (head (optimal log10 minSampleSizeOption day threads))
    as [d|] eqn:Ed; [|split; reflexivity].
  destruct (head_optimal _ _ _ _ _ Eh) as [Hne Hsh].
  destruct (head_optimal _ _ _ _ _ Ed) as [_ Hsd].
  destruct (lengthOf_positive threads Hne Hlen) as (m & e & Hn).
  pose proof (share_signed _ _ _ _ Hsh Hn) as Sa.
  pose proof (share_signed _ _ _ _ Hsd Hn) as Sb.
  set (a := (sampleSize h / lengthOf threads * 2)%float) in *.
  set (b := (sampleSize d / lengthOf threads * 2)%float) in *.
  pose proof (signed_not_nan _ _ Sa) as Na.
  pose proof (signed_not_nan _ _ Sb) as Nb.
  destruct (Math_min_key a b Na Nb) as [Nab Kab].
  destruct (Math_min_key (Math_min a b) 1 Nab eq_refl) as [Nc Kc].
  pose proof (signed_false_key _ (Prim2SF_valid a) Sa) as Ka.
  pose proof (signed_false_key _ (Prim2SF_valid b) Sb) as Kb.
  fold (keyOf a) in Ka. fold (keyOf b) in Kb.
  assert (K1 : 0 < keyOf 1) by (vm_compute; reflexivity).
  rewrite !leb_key by (assumption || reflexivity).
  change (keyOf 0) with 0.
  split; apply Z.leb_le; lia.
Qed.

Lemma confidence_is_between_0_and_1_witness :
  (confidence (recommend (fun x => x) None
                 [sundayMidnight; sundayMidnight; sundayMidnight])
   <=? 1)%float = true.
Proof.
  apply (proj2 (confidence_is_between_0_and_1 (fun x => x) None
                  [sundayMidnight; sundayMidnight; sundayMidnight]
                  ltac:(vm_compute; reflexivity))).
Defined.

End Posting.

(** ** Content performance records *)

Section ContentRecords.
Import Analytics IeeeOrder Ranking Performance Scenario.

(** *** Sorting by a key *)

Section ByKey.
Context {A : Type} (cmp : A -> A -> float) (k : A -> Z) (P : A -> Prop).
Hypothesis cmp_key :
  forall x y, P x -> P y -> (0 <? cmp x y)%float = (k x <? k y).

Lemma sort_insert_descendingBy x l :
  P x -> Forall P l -> descendingBy k l ->
  descendingBy k (Js.sort_insert cmp x l).
Proof using cmp_key.
  intros Hx Hl Hs. induction l as [|y l IH].
  - repeat constructor.
  - apply Forall_cons in Hl as [Hy Hl]. destruct Hs as [Hyl Hs].
    cbn [Js.sort_insert]. rewrite cmp_key by assumption.
    destruct (Z.ltb_spec (k x) (k y)) as [Hlt|Hge].
    + split; [|apply IH; assumption].
      rewrite sort_insert_perm. constructor; [lia|exact Hyl].
    + split; [|split; assumption].
      constructor; [exact Hge|].
      eapply Forall_impl; [exact Hyl|]. cbn. intros z Hz. lia.
Qed.

Lemma sort_descendingBy l :
  Forall P l -> descendingBy k (Js.sort cmp l).
Proof using cmp_key.
  induction l as [|x l IH]; intros Hl; [exact I|].
  apply Forall_cons in Hl as [Hx Hl].
  cbn [Js.sort foldr]. fold (Js.sort cmp l).
  apply sort_insert_descendingBy; [exact Hx | | apply IH; exact Hl].
  rewrite sort_perm. exact Hl.
Qed.
End ByKey.

Lemma descendingBy_lookup {A} (k : A -> Z) l :
  descendingBy k l ->
  forall i j a b,
    (i < j)%nat -> l !! i = Some a -> l !! j = Some b -> k b <= k a.
Proof.
  induction l as [|x l IH]; intros Hd i j a b Hij Ha Hb; [discriminate|].
  destruct Hd as [Hx Hs].
  destruct j as [|j]; [lia|]. cbn in Hb.
  destruct i as [|i]; cbn in Ha.
  - injection Ha as <-. rewrite Forall_forall in Hx. apply Hx.
    eapply list_elem_of_lookup_2. exact Hb.
  - apply (IH Hs i j); [lia | assumption..].
Qed.

(** *** The store *)

Lemma read_all {A} (pre h : list A) :
  omap (fun r => (pre ++ h) !! r) (seq (length pre) (length h)) = h.
Proof.
  revert pre. induction h as [|x h IH]; intros pre; [reflexivity|].
  pose proof (list_lookup_middle pre h x (length pre) eq_refl) as Hx.
  cbn [length seq].
  change (omap ?f (?a :: ?l))
    with (match f a with Some y => y :: omap f l | None => omap f l end).
  cbv beta. rewrite Hx. f_equal.
  replace (pre ++ x :: h) with ((pre ++ [x]) ++ h)
    by (rewrite <- app_assoc; reflexivity).
  replace (S (length pre)) with (length (pre ++ [x]))
    by (rewrite length_app; cbn; lia).
  apply IH.
Qed.

Lemma scores_read (pre h : list ContentPerformance) :
  map (scoreAt (pre ++ h)) (seq (length pre) (length h)) = map score h.
Proof.
  revert pre. induction h as [|x h IH]; intros pre; [reflexivity|].
  assert (Hx : scoreAt (pre ++ x :: h) (length pre) = score x).
  { unfold scoreAt.
    rewrite (list_lookup_middle pre h x (length pre) eq_refl). reflexivity. }
  cbn [length seq map]. rewrite Hx. f_equal.
  replace (pre ++ x :: h) with ((pre ++ [x]) ++ h)
    by (rewrite <- app_assoc; reflexivity).
  replace (S (length pre)) with (length (pre ++ [x]))
    by (rewrite length_app; cbn; lia).
  apply IH.
Qed.

Lemma read_store {A} (h : list A) :
  omap (fun r => h !! r) (seq 0 (length h)) = h.
Proof. exact (read_all [] h). Qed.

Lemma read_scores (h : list ContentPerformance) :
  map (scoreAt h) (seq 0 (length h)) = map score h.
Proof. exact (scores_read [] h). Qed.

Lemma alter_each (g : ContentPerformance -> ContentPerformance)
    (refs : list nat) (h : list ContentPerformance) i :
  NoDup refs ->
  foldl (fun h r => alter g r h) h refs !! i
  = if decide (i ∈ refs) then g <$> h !! i else h !! i.
Proof.
  revert h. induction refs as [|r refs IH]; intros h Hnd.
  - cbn. rewrite decide_False by apply not_elem_of_nil. reflexivity.
  - apply NoDup_cons in Hnd as [Hr Hnd]. cbn [foldl].
    rewrite IH by exact Hnd.
    destruct (decide (i = r)) as [->|Hne].
    + rewrite decide_False by exact Hr.
      rewrite decide_True by left.
      apply list_lookup_alter_eq.
    + rewrite list_lookup_alter_ne by congruence.
      destruct (decide (i ∈ refs)) as [Hin|Hin].
      * rewrite decide_True by (right; exact Hin). reflexivity.
      * rewrite decide_False; [reflexivity|].
        intros [?|?]%elem_of_cons; [congruence|contradiction].
Qed.

Lemma alter_all (g : ContentPerformance -> ContentPerformance) (h : list ContentPerformance) :
  foldl (fun h r => alter g r h) h (seq 0 (length h)) = map g h.
Proof.
  apply list_eq. intros i.
  rewrite alter_each by apply NoDup_seq.
  rewrite list_lookup_fmap.
  destruct (decide (i ∈ seq 0 (length h))) as [Hin|Hin]; [reflexivity|].
  rewrite elem_of_seq in Hin.
  rewrite lookup_ge_None_2 by lia. reflexivity.
Qed.

Lemma assignRanks_other ranked index (h : list ContentPerformance) i :
  i ∉ ranked -> assignRanks ranked index h !! i = h !! i.
Proof.
  revert index h. induction ranked as [|r rest IH]; intros index h Hi.
  - reflexivity.
  - apply not_elem_of_cons in Hi as [Hne Hi]. cbn [assignRanks].
    rewrite IH by exact Hi. apply list_lookup_alter_ne. congruence.
Qed.

Lemma assignRanks_lookup ranked index (h : list ContentPerformance) k r :
  NoDup ranked -> ranked !! k = Some r ->
  assignRanks ranked index h !! r = setRank (index + k + 1) <$> h !! r.
Proof.
  revert index h k. induction ranked as [|r0 rest IH]; intros index h k Hnd Hk.
  - discriminate.
  - apply NoDup_cons in Hnd as [Hr0 Hnd]. cbn [assignRanks].
    destruct k as [|k]; cbn in Hk.
    + injection Hk as ->.
      rewrite assignRanks_other by exact Hr0.
      rewrite list_lookup_alter_eq. do 3 f_equal. lia.
    + rewrite (IH _ _ k) by assumption.
      rewrite list_lookup_alter_ne.
      * do 3 f_equal. lia.
      * intros ->. apply Hr0. eapply list_elem_of_lookup_2. exact Hk.
Qed.

Lemma assignRanks_read ranked index (h : list ContentPerformance) :
  NoDup ranked -> (forall r, r ∈ ranked -> (r < length h)%nat) ->
  rank <$> omap (fun r => assignRanks ranked index h !! r) ranked
  = Some <$> seq (index + 1) (length ranked).
Proof.
  revert index h. induction ranked as [|r rest IH]; intros index h Hnd Hlt.
  - reflexivity.
  - apply NoDup_cons in Hnd as [Hr Hnd].
    destruct (lookup_lt_is_Some_2 h r (Hlt r ltac:(left))) as [p Hp].
    assert (Hhead : assignRanks (r :: rest) index h !! r
                    = Some (setRank (index + 1) p)).
    { cbn [assignRanks]. rewrite assignRanks_other by exact Hr.
      rewrite list_lookup_alter_eq, Hp. reflexivity. }
    change (omap ?f (?a :: ?l))
      with (match f a with Some y => y :: omap f l | None => omap f l end).
    cbv beta. rewrite Hhead.
    cbn [length seq]. rewrite !fmap_cons. f_equal.
    replace (S (index + 1)) with (S index + 1)%nat by lia.
    rewrite <- (IH (S index) (alter (setRank (index + 1)) r h)).
    + reflexivity.
    + exact Hnd.
    + intros r' Hr'. rewrite length_alter. apply Hlt. right. exact Hr'.
Qed.

Lemma assignRanks_length ranked index (h : list ContentPerformance) :
  length (assignRanks ranked index h) = length h.
Proof.
  revert index h. induction ranked as [|r rest IH]; intros index h.
  - reflexivity.
  - cbn [assignRanks]. rewrite IH. apply length_alter.
Qed.

(** *** Positions in the sorted scores *)

Lemma below_none s l :
  Forall (fun y => (y <? s)%float = false) l -> below s l = 0%nat.
Proof.
  unfold below. induction 1 as [|y l Hy _ IH]; [reflexivity|].
  rewrite filter_cons, decide_False by congruence. exact IH.
Qed.

Lemma findIndex_sorted s l :
  is_nan s = false ->
  Forall (fun x => is_nan x = false) l ->
  descendingBy (fun x => - keyOf x) l ->
  (exists x, x ∈ l /\ keyOf s <= keyOf x) ->
  findIndex (fun x => (s <=? x)%float) l = Some (below s l).
Proof.
  intros Hs Hl Hd. induction l as [|x l IH]; intros (x0 & Hin & Hle).
  - apply elem_of_nil in Hin. contradiction.
  - apply Forall_cons in Hl as [Hx Hl]. destruct Hd as [Hxl Hd].
    cbn [findIndex]. rewrite leb_key by assumption.
    destruct (Z.leb_spec (keyOf s) (keyOf x)) as [Hsx|Hxs].
    + rewrite below_none; [reflexivity|].
      constructor.
      * rewrite ltb_key by assumption. apply Z.ltb_ge. exact Hsx.
      * rewrite Forall_forall in Hxl, Hl. apply Forall_forall.
        intros y Hy. rewrite ltb_key by auto.
        apply Z.ltb_ge. specialize (Hxl y Hy). cbn in Hxl. lia.
    + rewrite IH; [| exact Hl | exact Hd |].
      * unfold below. rewrite filter_cons, decide_True; [reflexivity|].
        rewrite ltb_key by assumption. apply Z.ltb_lt. exact Hxs.
      * apply elem_of_cons in Hin as [->|Hin]; [lia|].
        exists x0. split; assumption.
Qed.

Lemma below_sorted s (l : list float) :
  below s (Js.sort ascending l) = below s l.
Proof.
  unfold below. apply Permutation_length.
  rewrite sort_perm. reflexivity.
Qed.

Lemma percentileOf_sorted s (l : list float) :
  Forall (fun x => is_nan x = false) l -> s ∈ l ->
  percentileOf (Js.sort ascending l) s
  = (numberOf (below s l) / numberOf (length l) * 100)%float.
Proof.
  intros Hl Hs. unfold percentileOf.
  assert (Hns : is_nan s = false).
  { rewrite Forall_forall in Hl. apply Hl, Hs. }
  rewrite findIndex_sorted.
  - rewrite below_sorted.
    rewrite (Permutation_length (sort_perm ascending l)). reflexivity.
  - exact Hns.
  - rewrite sort_perm. exact Hl.
  - apply (sort_descendingBy ascending (fun x => - keyOf x)
             (fun x => is_nan x = false)); [|exact Hl].
    intros x y Hx Hy. unfold ascending.
    rewrite sub_positive, ltb_key by assumption.
    destruct (Z.ltb_spec (keyOf y) (keyOf x)),
             (Z.ltb_spec (- keyOf x) (- keyOf y)); (reflexivity || lia).
  - exists s. split; [rewrite sort_perm; exact Hs | lia].
Qed.

(** *** The run of [trackContentPerformance] *)

Section Run.
Variable now : float.
Variable options : option PerformanceOptions.
Variable threads : list ArenaThread.

Let h0 : list ContentPerformance := measure now options <$> threads.
Let sortedScores : list float := Js.sort ascending (score <$> h0).
Let h1 : list ContentPerformance :=
  (fun p => setPercentile (percentileOf sortedScores (score p)) p) <$> h0.
Let ranked : list nat :=
  Js.sort (fun a b => (scoreAt h1 b - scoreAt h1 a)%float)
          (seq 0 (length threads)).

Lemma track_run :
  withPercentiles options = true ->
  trackContentPerformance now options threads
  = assignRanks ranked 0 h1.
Proof using Type.
  intros Hwp.
  assert (Hlen0 : length h0 = length threads) by apply length_fmap.
  assert (Hlen1 : length h1 = length threads).
  { unfold h1. rewrite length_fmap. exact Hlen0. }
  assert (Hp : percentiles (seq 0 (length threads)) h0 = h1).
  { unfold percentiles. rewrite <- Hlen0.
    rewrite read_scores. apply alter_all. }
  unfold trackContentPerformance. rewrite Hwp.
  change (map (measure now options) threads) with h0.
  rewrite length_seq. cbn [andb].
  destruct (length threads =? 0)%nat eqn:E; cbn [negb].
  - apply Nat.eqb_eq in E. rewrite E. cbn.
    symmetry. apply nil_length_inv.
    rewrite assignRanks_length, Hlen1. exact E.
  - rewrite Hp. unfold ranks. fold ranked.
    rewrite <- (assignRanks_length ranked 0 h1) in Hlen1.
    rewrite <- Hlen1. apply read_store.
Qed.

Lemma ranked_refs : ranked ≡ₚ seq 0 (length threads).
Proof using Type. apply sort_perm. Qed.

Lemma h1_lookup i :
  h1 !! i
  = (fun t => setPercentile
                (percentileOf sortedScores (score (measure now options t)))
                (measure now options t)) <$> threads !! i.
Proof using Type.
  unfold h1, h0. rewrite !list_lookup_fmap.
  destruct (threads !! i); reflexivity.
Qed.

Lemma out_lookup i p :
  withPercentiles options = true ->
  trackContentPerformance now options threads !! i = Some p ->
  exists t k,
    threads !! i = Some t /\ ranked !! k = Some i
    /\ p = setRank (k + 1)
             (setPercentile
                (percentileOf sortedScores (score (measure now options t)))
                (measure now options t)).
Proof using Type.
  intros Hwp Hi. rewrite track_run in Hi by exact Hwp.
  assert (Hlt : (i < length threads)%nat).
  { apply lookup_lt_Some in Hi. rewrite assignRanks_length in Hi.
    unfold h1, h0 in Hi. rewrite !length_fmap in Hi. exact Hi. }
  assert (Hin : i ∈ ranked).
  { rewrite ranked_refs. apply elem_of_seq. lia. }
  apply list_elem_of_lookup_1 in Hin as [k Hk].
  rewrite (assignRanks_lookup ranked 0 h1 k i) in Hi;
    [| rewrite ranked_refs; apply NoDup_seq | exact Hk].
  rewrite h1_lookup in Hi.
  destruct (threads !! i) as [t|] eqn:Et; [|discriminate].
  cbn in Hi. injection Hi as <-.
  exists t, k. split; [reflexivity|]. split; [exact Hk|].
  replace (k + 1)%nat with (0 + k + 1)%nat by lia. reflexivity.
Qed.

Lemma ranked_descending :
  (forall t, t ∈ threads ->
             is_nan (score (measure now options t)) = false) ->
  descendingBy (fun r => keyOf (scoreAt h1 r)) ranked.
Proof using Type.
  intros Hnan.
  apply (sort_descendingBy _ (fun r => keyOf (scoreAt h1 r))
           (fun r => is_nan (scoreAt h1 r) = false)).
  - intros x y Hx Hy. rewrite sub_positive, ltb_key by assumption.
    reflexivity.
  - apply Forall_forall. intros r Hr. apply elem_of_seq in Hr.
    unfold scoreAt. rewrite h1_lookup.
    destruct (threads !! r) as [t|] eqn:Et.
    + cbn. apply Hnan. eapply list_elem_of_lookup_2. exact Et.
    + apply lookup_ge_None in Et. lia.
Qed.

(** X22: the ranks of a performance report follow the scores.  With
    percentiles on and no NaN score, the ranks written through the
    sorted copy show up in the returned array: they are the numbers
    [1 .. n], each on one record, and a record with a larger score
    carries a smaller rank. *)
Theorem ranks_follow_scores :
  withPercentiles options = true ->
  (forall t, t ∈ threads ->
             is_nan (score (measure now options t)) = false) ->
  let out := trackContentPerformance now options threads in
  rank <$> out ≡ₚ Some <$> seq 1 (length threads)
  /\ (forall p q, p ∈ out -> q ∈ out ->
        (score q <? score p)%float = true ->
        exists a b, rank p = Some a /\ rank q = Some b /\ (a < b)%nat).
Proof.
  intros Hwp Hnan out.
  assert (Hnd : NoDup ranked) by (rewrite ranked_refs; apply NoDup_seq).
  assert (Hlen1 : length h1 = length threads).
  { unfold h1, h0. rewrite !length_fmap. reflexivity. }
  split.
  - unfold out. rewrite track_run by exact Hwp.
    rewrite <- (read_store (assignRanks ranked 0 h1)) at 1.
    rewrite assignRanks_length, Hlen1, <- ranked_refs.
    rewrite (assignRanks_read ranked 0 h1).
    + rewrite ranked_refs, length_seq. reflexivity.
    + exact Hnd.
    + intros r Hr. rewrite ranked_refs in Hr. apply elem_of_seq in Hr. lia.
  - intros p q Hp Hq Hlt.
    apply list_elem_of_lookup_1 in Hp as [i Hi].
    apply list_elem_of_lookup_1 in Hq as [j Hj].
    destruct (out_lookup i p Hwp Hi) as (t & ki & Ht & Hki & ->).
    destruct (out_lookup j q Hwp Hj) as (u & kj & Hu & Hkj & ->).
    exists (ki + 1)%nat, (kj + 1)%nat. do 2 (split; [reflexivity|]).
    cbn [score setRank setPercentile] in Hlt.
    assert (Hnt := Hnan t (list_elem_of_lookup_2 _ _ _ Ht)).
    assert (Hnu := Hnan u (list_elem_of_lookup_2 _ _ _ Hu)).
    rewrite ltb_key in Hlt by assumption. apply Z.ltb_lt in Hlt.
    assert (Hsi : scoreAt h1 i = score (measure now options t)).
    { unfold scoreAt. rewrite h1_lookup, Ht. reflexivity. }
    assert (Hsj : scoreAt h1 j = score (measure now options u)).
    { unfold scoreAt. rewrite h1_lookup, Hu. reflexivity. }
    pose proof (descendingBy_lookup _ _ (ranked_descending Hnan)) as Hd.
    destruct (Nat.lt_trichotomy ki kj) as [Hlt'|[Heq|Hgt]].
    + lia.
    + subst kj. rewrite Hki in Hkj. injection Hkj as ->.
      rewrite Ht in Hu. injection Hu as ->. lia.
    + specialize (Hd kj ki j i Hgt Hkj Hki). cbn in Hd.
      rewrite Hsi, Hsj in Hd. lia.
Qed.

(** X23: the percentile of a record is the share of records with a
    smaller score.  With percentiles on and no NaN score, the record
    at position [i] of the result is the measurement of the thread at
    position [i] with a rank and with the percentile
    [below / n * 100], where [below] counts the threads whose score is
    smaller and [n] counts all threads. *)
Theorem percentile_is_share_below :
  withPercentiles options = true ->
  (forall t, t ∈ threads ->
             is_nan (score (measure now options t)) = false) ->
  forall i p,
    trackContentPerformance now options threads !! i = Some p ->
    exists t k,
      threads !! i = Some t
      /\ p = setRank k
               (setPercentile
                  (numberOf
                     (below (score (measure now options t))
                        ((fun u => score (measure now options u)) <$> threads))
                   / numberOf (length threads) * 100)%float
                  (measure now options t)).
Proof.
  intros Hwp Hnan i p Hi.
  destruct (out_lookup i p Hwp Hi) as (t & k & Ht & _ & ->).
  exists t, (k + 1)%nat. split; [exact Ht|]. do 2 f_equal.
  unfold sortedScores, h0. rewrite <- list_fmap_compose.
  rewrite percentileOf_sorted.
  - rewrite length_fmap. reflexivity.
  - apply Forall_forall. intros x Hx.
    apply list_elem_of_fmap in Hx as (u & -> & Hu). apply Hnan, Hu.
  - apply list_elem_of_fmap. exists t. split; [reflexivity|].
    eapply list_elem_of_lookup_2. exact Ht.
Qed.

End Run.

Lemma ranks_follow_scores_witness :
  let out := trackContentPerformance 28800000 None [fresher; older] in
  rank <$> out ≡ₚ Some <$> seq 1 (length [fresher; older])
  /\ (forall p q, p ∈ out -> q ∈ out ->
        (score q <? score p)%float = true ->
        exists a b, rank p = Some a /\ rank q = Some b /\ (a < b)%nat).
Proof.
  apply (ranks_follow_scores 28800000 None [fresher; older]).
  - reflexivity.
  - intros t Hin.
    repeat (apply elem_of_cons in Hin as [->|Hin];
            [vm_compute; reflexivity|]).
    apply elem_of_nil in Hin. contradiction.
Defined.

Lemma percentile_is_share_below_witness :
  exists t k,
    [fresher; older] !! 1%nat = Some t
    /\ setRank 1 (setPercentile 50 (measure 28800000 None older))
       = setRank k
           (setPercentile
              (numberOf
                 (below (score (measure 28800000 None t))
                    ((fun u => score (measure 28800000 None u))
                       <$> [fresher; older]))
               / numberOf (length [fresher; older]) * 100)%float
              (measure 28800000 None t)).
Proof.
  apply (percentile_is_share_below 28800000 None [fresher; older]).
  - reflexivity.
  - intros t Hin.
    repeat (apply elem_of_cons in Hin as [->|Hin];
            [vm_compute; reflexivity|]).
    apply elem_of_nil in Hin. contradiction.
  - vm_compute. reflexivity.
Defined.

End ContentRecords.
